(** * A shallow embedding of the readline key stream and dispatcher

    The development follows the Go sources package by package:

    - [Go]        : the few Go conversions the code relies on
                    ([byte(r)], [string(runes)], [[]rune(s)]);
    - [Os]        : the terminal as a script of reads, and the log of effects;
    - [Core]      : package [core], the [Keys] key stream;
    - [Interrupt] : the interrupt handlers of [interrupt.go];
    - [Readline]  : the [Readline] loop, [editorInput] and the multiline
                    confirmation prompt;
    - [CoreReadKey] : [ReadKey], the read of one key out of the main loop;
    - [Emacs]     : the emacs commands that write to the runes of the
                    line themselves ([transposeChars], [quoteLine]).

    Bytes and runes are integers ([Z]); a Go string is the list of its
    bytes.  A call that comes to wait at a channel ends there, with the
    state it has reached. *)

From Stdlib Require Import ZArith Lia List Bool String Ascii DecimalString.
From stdpp Require Import gmap strings list.
Import ListNotations.

Local Open Scope Z_scope.

(** A Go string: its bytes. *)
Abbreviation gostring := (list Z).

Definition bytes_of_string (s : string) : gostring :=
  map (fun a => Z.of_N (N_of_ascii a)) (list_ascii_of_string s).

(* ===================================================================== *)
(** * Go conversions                                                      *)
(* ===================================================================== *)

Module Go.

(** [byte(x)]: conversion of an integer to [uint8] keeps the low 8 bits. *)
Definition byte (x : Z) : Z := Z.land x 255.

(** [uint32(r)] for a rune (an [int32]). *)
Definition uint32 (x : Z) : Z := x mod 2 ^ 32.

(** Arithmetic on [int] (64 bits, two's complement). *)
Definition int (x : Z) : Z := (x + 2 ^ 63) mod 2 ^ 64 - 2 ^ 63.

Definition maxInt : Z := 2 ^ 63 - 1.

(** ** UTF-8, as in [runtime/utf8.go] *)

Definition runeError : Z := 65533.    (* U+FFFD *)
Definition maxRune : Z := 1114111.    (* U+10FFFF *)
Definition surrogateMin : Z := 55296. (* 0xD800 *)
Definition surrogateMax : Z := 57343. (* 0xDFFF *)
Definition rune1Max : Z := 127.
Definition rune2Max : Z := 2047.
Definition rune3Max : Z := 65535.

Definition tx : Z := 128.   (* 0b10000000 *)
Definition t2 : Z := 192.   (* 0b11000000 *)
Definition t3 : Z := 224.   (* 0b11100000 *)
Definition t4 : Z := 240.   (* 0b11110000 *)
Definition t5 : Z := 248.   (* 0b11111000 *)
Definition maskx : Z := 63. (* 0b00111111 *)
Definition mask2 : Z := 31. (* 0b00011111 *)
Definition mask3 : Z := 15. (* 0b00001111 *)
Definition mask4 : Z := 7.  (* 0b00000111 *)
Definition locb : Z := 128. (* 0b10000000 *)
Definition hicb : Z := 191. (* 0b10111111 *)

Definition enc3 (r : Z) : gostring :=
  [ Z.lor t3 (byte (Z.shiftr r 12));
    Z.lor tx (Z.land (byte (Z.shiftr r 6)) maskx);
    Z.lor tx (Z.land (byte r) maskx) ].

Definition enc4 (r : Z) : gostring :=
  [ Z.lor t4 (byte (Z.shiftr r 18));
    Z.lor tx (Z.land (byte (Z.shiftr r 12)) maskx);
    Z.lor tx (Z.land (byte (Z.shiftr r 6)) maskx);
    Z.lor tx (Z.land (byte r) maskx) ].

(** [encoderune]: the bytes of one rune; a rune that is not a Unicode
    scalar value is written as U+FFFD. *)
Definition encoderune (r : Z) : gostring :=
  let i := uint32 r in
  if i <=? rune1Max then [byte r]
  else if i <=? rune2Max then
    [ Z.lor t2 (byte (Z.shiftr r 6)); Z.lor tx (Z.land (byte r) maskx) ]
  else if (maxRune <? i) || ((surrogateMin <=? i) && (i <=? surrogateMax))
  then enc3 runeError
  else if i <=? rune3Max then enc3 r
  else enc4 r.

Definition cont (b : Z) : bool := (locb <=? b) && (b <=? hicb).

(** [decoderune]: the rune at the head of a non-empty string and the
    number of bytes it takes; malformed input gives U+FFFD and width 1. *)
Definition decoderune (s : gostring) : Z * nat :=
  match s with
  | [] => (runeError, 1%nat)
  | s0 :: s' =>
    if (t2 <=? s0) && (s0 <? t3) then
      match s' with
      | s1 :: _ =>
        let r := Z.lor (Z.shiftl (Z.land s0 mask2) 6) (Z.land s1 maskx) in
        if cont s1 && (rune1Max <? r) then (r, 2%nat) else (runeError, 1%nat)
      | _ => (runeError, 1%nat)
      end
    else if (t3 <=? s0) && (s0 <? t4) then
      match s' with
      | s1 :: s2 :: _ =>
        let r := Z.lor (Z.lor (Z.shiftl (Z.land s0 mask3) 12)
                              (Z.shiftl (Z.land s1 maskx) 6))
                       (Z.land s2 maskx) in
        if cont s1 && cont s2 && (rune2Max <? r)
           && negb ((surrogateMin <=? r) && (r <=? surrogateMax))
        then (r, 3%nat) else (runeError, 1%nat)
      | _ => (runeError, 1%nat)
      end
    else if (t4 <=? s0) && (s0 <? t5) then
      match s' with
      | s1 :: s2 :: s3 :: _ =>
        let r := Z.lor (Z.lor (Z.lor (Z.shiftl (Z.land s0 mask4) 18)
                                     (Z.shiftl (Z.land s1 maskx) 12))
                              (Z.shiftl (Z.land s2 maskx) 6))
                       (Z.land s3 maskx) in
        if cont s1 && cont s2 && cont s3 && (rune3Max <? r) && (r <=? maxRune)
        then (r, 4%nat) else (runeError, 1%nat)
      | _ => (runeError, 1%nat)
      end
    else (runeError, 1%nat)
  end.

(** [string(rs)] for [rs []rune]. *)
Definition slicerunetostring (rs : list Z) : gostring :=
  flat_map encoderune rs.

(** [[]rune(s)]: bytes below 0x80 are runes of their own, the others go
    through [decoderune].  [skip] counts the bytes still covered by the
    rune decoded last. *)
Fixpoint stringtoslicerune_from (skip : nat) (s : gostring) : list Z :=
  match s with
  | [] => []
  | c :: s' =>
    match skip with
    | S n => stringtoslicerune_from n s'
    | O =>
      if c <? 128 then c :: stringtoslicerune_from 0 s'
      else let '(r, w) := decoderune s in
           r :: stringtoslicerune_from (Nat.pred w) s'
    end
  end.

Definition stringtoslicerune (s : gostring) : list Z :=
  stringtoslicerune_from 0 s.

(** A rune that [string] writes unchanged. *)
Definition valid_rune (r : Z) : Prop :=
  0 <= r <= maxRune /\ ~ (surrogateMin <= r <= surrogateMax).

Definition valid_runeb (r : Z) : bool :=
  (0 <=? r) && (r <=? maxRune)
  && negb ((surrogateMin <=? r) && (r <=? surrogateMax)).

(** What is left of a rune after [[]rune(string(...))]. *)
Definition to_valid (r : Z) : Z := if valid_runeb r then r else runeError.

(** The values of an [int32]. *)
Definition int32_range (r : Z) : Prop := - 2 ^ 31 <= r < 2 ^ 31.

End Go.

(* ===================================================================== *)
(** * The input device and other effects                                  *)
(* ===================================================================== *)

Module Os.

Inductive error : Type :=
| EOF                      (* io.EOF *)
| ErrNew (msg : string).   (* errors.New(msg), or any other error value *)

(** [errors.Is(err, io.EOF)] *)
Definition is_EOF (e : error) : bool :=
  match e with EOF => true | _ => false end.

(** [err.Error()] *)
Definition Error (e : error) : gostring :=
  match e with
  | EOF => bytes_of_string "EOF"
  | ErrNew msg => bytes_of_string msg
  end.

(** What one call of [os.Stdin.Read] finds: some bytes, or a failure. *)
Inductive ReadEvent : Type :=
| Data (bs : gostring)
| Fail (e : error).

(** The terminal, as the list of what the coming reads will find; once
    the list is over the device is at end of input. *)
Definition Device := list ReadEvent.

(** [os.Stdin.Read(buf)] with [len(buf) = n]: at most [n] bytes are taken,
    what does not fit stays on the device. *)
Definition Read (n : nat) (dev : Device) : (gostring * option error) * Device :=
  match dev with
  | [] => (([], Some EOF), [])
  | Fail e :: dev' => (([], Some e), dev')
  | Data bs :: dev' =>
    if (length bs <=? n)%nat then ((bs, None), dev')
    else ((firstn n bs, None), Data (skipn n bs) :: dev')
  end.

(** A bound on the number of reads before the device is at its end. *)
Fixpoint dev_size (dev : Device) : nat :=
  match dev with
  | [] => 0%nat
  | Data bs :: dev' => S (length bs + dev_size dev')
  | Fail _ :: dev' => S (dev_size dev')
  end.

(** Observable effects, in the order they happen. *)
Inductive Event : Type :=
| EvRead (bs : gostring) (err : option error)  (* os.Stdin.Read and its result *)
| EvStdout (s : gostring)     (* fmt.Print / print *)
| EvStderr (s : gostring)     (* os.Stderr.WriteString *)
| EvSend (chan : string) (msg : gostring). (* a send that went through *)

Definition is_read (e : Event) : bool :=
  match e with EvRead _ _ => true | _ => false end.

Definition reads (log : list Event) : nat := length (filter is_read log).
Arguments reads : simpl never.

End Os.

(* ===================================================================== *)
(** * Package core: the key stream                                        *)
(* ===================================================================== *)

Module Core.
Import Go Os.

Definition keyScanBufSize : nat := 1024.

(** ** The cursor position answer: ESC [ digits ; digits R *)

Definition is_digit (c : Z) : bool := (48 <=? c) && (c <=? 57).

(** The longest run of digits at the head of [s], and what follows. *)
Fixpoint digits (s : gostring) : gostring * gostring :=
  match s with
  | c :: s' => if is_digit c
               then let '(d, r) := digits s' in (c :: d, r)
               else ([], s)
  | [] => ([], [])
  end.

Record CursorMatch : Type := mkMatch {
  m_row : gostring;   (* first group *)
  m_col : gostring;   (* second group *)
  m_len : nat         (* bytes of the whole match *)
}.

(** [rxRcvCursorPos] anchored at the head of [s].  A run of digits can
    only end at a byte that is not a digit, so the greedy match is the
    only one. *)
Definition rxRcvCursorPos_here (s : gostring) : option CursorMatch :=
  match s with
  | c0 :: c1 :: s1 =>
    if (c0 =? 27) && (c1 =? 91) then              (* ESC [ *)
      match digits s1 with
      | (row, c2 :: s2) =>
        if (0 <? Z.of_nat (length row)) && (c2 =? 59) then   (* ; *)
          match digits s2 with
          | (col, c3 :: _) =>
            if (0 <? Z.of_nat (length col)) && (c3 =? 82) then   (* R *)
              Some (mkMatch row col (2 + length row + 1 + length col + 1))
            else None
          | _ => None
          end
        else None
      | _ => None
      end
    else None
  | _ => None
  end.

(** [FindAllStringSubmatch(s, 1)]: the leftmost match, if any. *)
Fixpoint rxRcvCursorPos_first (s : gostring) : option CursorMatch :=
  match rxRcvCursorPos_here s with
  | Some m => Some m
  | None => match s with
            | [] => None
            | _ :: s' => rxRcvCursorPos_first s'
            end
  end.

(** [FindAll(s, -1)]: the text of every match, left to right; [skip] is
    the number of bytes still inside the match found last. *)
Fixpoint rxRcvCursorPos_all (skip : nat) (s : gostring) : list gostring :=
  match s with
  | [] => []
  | _ :: s' =>
    match skip with
    | S n => rxRcvCursorPos_all n s'
    | O => match rxRcvCursorPos_here s with
           | Some m => firstn (m_len m) s :: rxRcvCursorPos_all (Nat.pred (m_len m)) s'
           | None => rxRcvCursorPos_all 0 s'
           end
    end
  end.

(** [ReplaceAll(s, nil)]: [s] without its matches. *)
Fixpoint rxRcvCursorPos_strip (skip : nat) (s : gostring) : gostring :=
  match s with
  | [] => []
  | c :: s' =>
    match skip with
    | S n => rxRcvCursorPos_strip n s'
    | O => match rxRcvCursorPos_here s with
           | Some m => rxRcvCursorPos_strip (Nat.pred (m_len m)) s'
           | None => c :: rxRcvCursorPos_strip 0 s'
           end
    end
  end.

(** ** Numbers *)

Definition decimal (ds : gostring) : Z :=
  fold_left (fun acc c => 10 * acc + (c - 48)) ds 0.

(** [strconv.Atoi]: an optional sign, then digits; the value has to fit
    an [int]. *)
Definition Atoi (s : gostring) : option Z :=
  let neg := match s with c :: _ => c =? 45 | [] => false end in   (* - *)
  let ds := match s with
            | c :: t => if (c =? 43) || (c =? 45) then t else s    (* + - *)
            | [] => s
            end in
  if (0 <? Z.of_nat (length ds)) && forallb is_digit ds then
    let v := decimal ds in
    if neg then (if v <=? maxInt + 1 then Some (- v) else None)
    else (if v <=? maxInt then Some v else None)
  else None.

(** ** The key stream *)

(** A channel without buffer ([chan []byte]).  The calls below run one
    at a time on the key stream they share, each until it returns or has
    to wait at a channel.  A channel keeps what the goroutines waiting on
    it have left there: the number of receives that wait ([takers]), and
    the messages that sends have passed to such receives ([handed]), which
    these take up when they go on.  A send goes through when a receive
    waits for it, a receive when a message was passed to it; otherwise
    the call waits.  On the nil channel, the value of a field that was
    never assigned, every send and every receive waits for ever. *)
Inductive Chan : Type :=
| NilChan
| Made (takers : nat) (handed : list gostring).

(** [make(chan []byte)] *)
Definition make_chan : Chan := Made 0 [].

(** [ch <- msg]: the channel after the send, when the send goes
    through. *)
Definition chan_send (msg : gostring) (ch : Chan) : option Chan :=
  match ch with
  | Made (S n) h => Some (Made n (h ++ [msg]))
  | Made O _ => None
  | NilChan => None
  end.

(** [<-ch]: the message received, when one was passed, and the channel
    after; with no message passed the receive is left waiting. *)
Definition chan_recv (ch : Chan) : option gostring * Chan :=
  match ch with
  | Made n (msg :: h) => (Some msg, Made n h)
  | Made n [] => (None, Made (S n) [])
  | NilChan => (None, NilChan)
  end.

(** The messages passed on a channel and not taken up yet. *)
Definition handed_on (ch : Chan) : list gostring :=
  match ch with
  | Made _ h => h
  | NilChan => []
  end.

(** [Keys].  The mutex is left out: every operation below runs without
    another one in between, up to its end or to the channel where it
    waits. *)
Record Keys : Type := mkKeys {
  buf : gostring;               (* keys read and waiting to be used *)
  matched : list Z;             (* keys matched against a bind *)
  matchedLen : Z;               (* number of keys matched *)
  macroKeys : list Z;           (* keys fed by a macro *)
  mustWait : bool;              (* keys in the stack, but stdin must be read *)
  waiting : bool;               (* waiting for keys on stdin *)
  reading : bool;               (* reading keys out of the main loop *)
  keysOnce : Chan;              (* chan []byte *)
  cursor : Chan                 (* chan []byte *)
}.

Definition set_buf (v : gostring) (k : Keys) : Keys :=
  mkKeys v (matched k) (matchedLen k) (macroKeys k) (mustWait k)
         (waiting k) (reading k) (keysOnce k) (cursor k).
Definition set_matched (v : list Z) (k : Keys) : Keys :=
  mkKeys (buf k) v (matchedLen k) (macroKeys k) (mustWait k)
         (waiting k) (reading k) (keysOnce k) (cursor k).
Definition set_matchedLen (v : Z) (k : Keys) : Keys :=
  mkKeys (buf k) (matched k) v (macroKeys k) (mustWait k)
         (waiting k) (reading k) (keysOnce k) (cursor k).
Definition set_macroKeys (v : list Z) (k : Keys) : Keys :=
  mkKeys (buf k) (matched k) (matchedLen k) v (mustWait k)
         (waiting k) (reading k) (keysOnce k) (cursor k).
Definition set_mustWait (v : bool) (k : Keys) : Keys :=
  mkKeys (buf k) (matched k) (matchedLen k) (macroKeys k) v
         (waiting k) (reading k) (keysOnce k) (cursor k).
Definition set_waiting (v : bool) (k : Keys) : Keys :=
  mkKeys (buf k) (matched k) (matchedLen k) (macroKeys k) (mustWait k)
         v (reading k) (keysOnce k) (cursor k).
Definition set_reading (v : bool) (k : Keys) : Keys :=
  mkKeys (buf k) (matched k) (matchedLen k) (macroKeys k) (mustWait k)
         (waiting k) v (keysOnce k) (cursor k).
Definition set_keysOnce (v : Chan) (k : Keys) : Keys :=
  mkKeys (buf k) (matched k) (matchedLen k) (macroKeys k) (mustWait k)
         (waiting k) (reading k) v (cursor k).
Definition set_cursor (v : Chan) (k : Keys) : Keys :=
  mkKeys (buf k) (matched k) (matchedLen k) (macroKeys k) (mustWait k)
         (waiting k) (reading k) (keysOnce k) v.

(** [len(x)] as an [int]. *)
Definition len {A} (l : list A) : Z := Z.of_nat (length l).

(** [PopKey]: pops a key without marking it as matched. *)
Definition PopKey (keys : Keys) : (Z * bool) * Keys :=
  match buf keys with
  | key :: rest => ((key, false), set_buf rest keys)
  | [] =>
    match macroKeys keys with
    | r :: rest => ((byte r, false), set_macroKeys rest keys)
    | [] => ((byte 0, true), keys)
    end
  end.

(** [PeekKey]: the first key in the stack, without removing it. *)
Definition PeekKey (keys : Keys) : Z * bool :=
  match buf keys with
  | key :: _ => (key, false)
  | [] =>
    match macroKeys keys with
    | r :: _ => (byte r, false)
    | [] => (byte 0, true)
    end
  end.

(** [MatchedKeys] *)
Definition MatchedKeys (keys : Keys) (matched_ : gostring) (args : gostring) : Keys :=
  let keys :=
    if 0 <? len matched_ then
      set_matchedLen (int (matchedLen keys + len matched_))
        (set_matched (matched keys ++ stringtoslicerune matched_) keys)
    else keys in
  if 0 <? len args then set_buf (args ++ buf keys) keys else keys.

(** [MatchedPrefix] *)
Definition MatchedPrefix (keys : Keys) (prefix : gostring) : Keys :=
  if len prefix =? 0 then keys
  else
    let keys := set_mustWait (len (buf keys) =? 0) keys in
    let keys := set_buf (prefix ++ buf keys) keys in
    let keys := set_matched (stringtoslicerune prefix) keys in
    set_matchedLen (len prefix) keys.

(** [FlushUsed].  The deferred function runs on both ways out. *)
Definition FlushUsed (keys : Keys) : Keys :=
  let deferred k := set_matched [] (set_matchedLen 0 k) in
  if matchedLen keys =? 0 then deferred keys
  else deferred (set_matched [] keys).

(** [Pop]: removes the first key of the stack and records it as used. *)
Definition Pop (k : Keys) : (Z * bool) * Keys :=
  let step key k :=
    ((key, false),
     set_matchedLen (int (matchedLen k + 1)) (set_matched (matched k ++ [key]) k)) in
  match buf k with
  | key :: rest => step key (set_buf rest k)
  | [] =>
    match macroKeys k with
    | r :: rest => step (byte r) (set_macroKeys rest k)
    | [] => ((byte 0, true), k)
    end
  end.

(** [Caller] *)
Definition Caller (k : Keys) : list Z := matched k.

(** [Feed] *)
Definition Feed (k : Keys) (begin : bool) (keys : list Z) : Keys :=
  if len keys =? 0 then k
  else
    let keyBuf := stringtoslicerune (slicerunetostring keys) in
    if begin then set_macroKeys (keyBuf ++ macroKeys k) k
    else set_macroKeys (macroKeys k ++ keyBuf) k.

(** [n] calls of [Pop] in a row: the keys they return (up to the first
    call that finds the stack empty) and the state they leave. *)
Fixpoint PopN (n : nat) (k : Keys) : list Z * Keys :=
  match n with
  | O => ([], k)
  | S n' =>
    match Pop k with
    | ((_, true), k') => ([], k')
    | ((key, false), k') =>
      let '(keys, k'') := PopN n' k' in (key :: keys, k'')
    end
  end.

(** ** Operations that touch the terminal *)

(** The key stream in its environment. *)
Record World : Type := mkWorld {
  keys : Keys;
  stdin : Device;
  log : list Event
}.

Definition emit (e : Event) (w : World) : World :=
  mkWorld (keys w) (stdin w) (log w ++ [e]).

Definition upd_keys (f : Keys -> Keys) (w : World) : World :=
  mkWorld (f (keys w)) (stdin w) (log w).

(** How a call that may wait ends. *)
Inductive Res (A : Type) : Type :=
| Done (a : A)
| Blocked      (* the call waits at a send or at a receive *)
| OutOfFuel.
Arguments Done {A} a.
Arguments Blocked {A}.
Arguments OutOfFuel {A}.

Definition os_Stdin_Read (n : nat) (w : World) : (gostring * option error) * World :=
  let '(r, dev') := Read n (stdin w) in
  (r, emit (EvRead (fst r) (snd r)) (mkWorld (keys w) dev' (log w))).

(** [extractCursorPos]: the last cursor answer in [keys_] and [keys_]
    without any of them. *)
Definition extractCursorPos (keys_ : gostring) : gostring * gostring :=
  match rxRcvCursorPos_first keys_ with
  | None => ([], keys_)
  | Some _ =>
    let allCursors := rxRcvCursorPos_all 0 keys_ in
    (List.last allCursors [], rxRcvCursorPos_strip 0 keys_)
  end.

(** [k.cursor <- msg]: the state after the send, when it goes through. *)
Definition send_cursor (msg : gostring) (w : World) : option World :=
  match chan_send msg (cursor (keys w)) with
  | Some ch => Some (emit (EvSend "cursor" msg) (upd_keys (set_cursor ch) w))
  | None => None
  end.

(** [k.keysOnce <- msg] *)
Definition send_keysOnce (msg : gostring) (w : World) : option World :=
  match chan_send msg (keysOnce (keys w)) with
  | Some ch => Some (emit (EvSend "keysOnce" msg) (upd_keys (set_keysOnce ch) w))
  | None => None
  end.

(** [readInputFiltered].  Only an end of input is returned as an error;
    after any other outcome of the read the bytes go through
    [extractCursorPos], a cursor answer is sent on [k.cursor] and the
    rest returned.  The call waits at the send until the answer is
    received. *)
Definition readInputFiltered (w : World)
  : Res (gostring * option error) * World :=
  let '((bs, err), w) := os_Stdin_Read keyScanBufSize w in
  if match err with Some e => is_EOF e | None => false end
  then (Done ([], err), w)
  else
    let '(cur, ks) := extractCursorPos bs in
    if 0 <? len cur then
      match send_cursor cur w with
      | Some w => (Done (ks, None), w)
      | None => (Blocked, w)
      end
    else (Done (ks, None), w).

(** The [for] loop of [WaitAvailableKeys]. *)
Fixpoint WaitAvailableKeys_loop (fuel : nat) (w : World) : Res unit * World :=
  match fuel with
  | O => (OutOfFuel, w)
  | S fuel' =>
    match readInputFiltered w with
    | (Done (keyBuf, err), w) =>
      if match err with Some e => is_EOF e | None => false end then (Done tt, w)
      else if len keyBuf =? 0 then WaitAvailableKeys_loop fuel' w
      else if reading (keys w) then
        match send_keysOnce keyBuf w with
        | Some w => WaitAvailableKeys_loop fuel' w
        | None => (Blocked, w)
        end
      else (Done tt, upd_keys (fun k => set_buf (buf k ++ keyBuf) k) w)
    | (Blocked, w) => (Blocked, w)
    | (OutOfFuel, w) => (OutOfFuel, w)
    end
  end.

(** [WaitAvailableKeys].  The deferred function runs when the call
    returns; while the call waits at a send it has not run. *)
Definition WaitAvailableKeys (w : World) : Res unit * World :=
  if (0 <? len (buf (keys w))) && negb (mustWait (keys w)) then (Done tt, w)
  else if 0 <? len (macroKeys (keys w)) then (Done tt, w)
  else
    let w := upd_keys (set_waiting true) w in
    match WaitAvailableKeys_loop (S (dev_size (stdin w))) w with
    | (Done r, w) => (Done r, upd_keys (set_waiting false) w)
    | (Blocked, w) => (Blocked, w)
    | (OutOfFuel, w) => (OutOfFuel, w)
    end.

Definition esc : Z := 27.

(** The query written by [GetCursorPos]: ESC [ 6 n *)
Definition cursor_query : gostring := esc :: bytes_of_string "[6n".

Definition crlf : gostring := [13; 10].

Definition disable_msg : gostring :=
  crlf ++ bytes_of_string "getCursorPos() not supported by terminal emulator, disabling...."
       ++ crlf.

(** The closure [disable] of [GetCursorPos]. *)
Definition disable (w : World) : (Z * Z) * World :=
  ((-1, -1), emit (EvStderr disable_msg) w).

(** The three ways out of the [for] loop of [GetCursorPos]: the two
    [return disable()] and the [break]. *)
Inductive LoopExit : Type :=
| ReadFailed (e : error)      (* os.Stdin.Read returned an error *)
| EmptyRead                   (* nothing was read, or passed *)
| Answer (m : CursorMatch).   (* a cursor answer was found *)

(** The [for] loop of [GetCursorPos]. *)
Fixpoint GetCursorPos_loop (fuel : nat) (w : World) : Res LoopExit * World :=
  match fuel with
  | O => (OutOfFuel, w)
  | S fuel' =>
    let process (cur : gostring) (w : World) :=
      if len cur =? 0 then (Done EmptyRead, snd (disable w))
      else
        match rxRcvCursorPos_first cur with
        | None =>
          GetCursorPos_loop fuel' (upd_keys (fun k => set_buf (buf k ++ cur) k) w)
        | Some m => (Done (Answer m), w)
        end in
    if waiting (keys w) || reading (keys w) then
      match chan_recv (cursor (keys w)) with
      | (None, ch) => (Blocked, upd_keys (set_cursor ch) w)
      | (Some msg, ch) => process msg (upd_keys (set_cursor ch) w)
      end
    else
      let '((bs, err), w) := os_Stdin_Read keyScanBufSize w in
      match err with
      | Some e => (Done (ReadFailed e), snd (disable w))
      | None => process bs w
      end
  end.

(** The first statements of [GetCursorPos]: a new channel, and the query
    echoed to the terminal. *)
Definition GetCursorPos_query (w : World) : World :=
  emit (EvStdout cursor_query) (upd_keys (set_cursor make_chan) w).

Definition GetCursorPos_fuel (w : World) : nat :=
  S (dev_size (stdin w) + length (handed_on (cursor (keys w)))).

(** The end of [GetCursorPos], after the loop: the two numbers of the
    answer. *)
Definition GetCursorPos_answer_of (r : Res LoopExit * World)
  : Res (Z * Z) * World :=
  match r with
  | (Done (Answer m), w) =>
    match Atoi (m_row m) with
    | None => let '(r, w) := disable w in (Done r, w)
    | Some y =>
      match Atoi (m_col m) with
      | None => let '(r, w) := disable w in (Done r, w)
      | Some x => (Done (x, y), w)
      end
    end
  | (Done _, w) => (Done (-1, -1), w)
  | (Blocked, w) => (Blocked, w)
  | (OutOfFuel, w) => (OutOfFuel, w)
  end.

(** The rest of [GetCursorPos]: the loop, then the two numbers. *)
Definition GetCursorPos_answer (w : World) : Res (Z * Z) * World :=
  GetCursorPos_answer_of (GetCursorPos_loop (GetCursorPos_fuel w) w).

(** [GetCursorPos] *)
Definition GetCursorPos (w : World) : Res (Z * Z) * World :=
  GetCursorPos_answer (GetCursorPos_query w).

End Core.



(* ===================================================================== *)
(** * The editing mode                                                    *)
(* ===================================================================== *)

(** Modelled from the spec: the declaration of the mode constants is not
    among the sources.  The spec (data model, "Mode") lists the five modes
    insert, vi-command, vi-delete-pending, replace-once and replace-many,
    exactly one of which is active; the code names them [vimInsert],
    [vimKeys], [vimDelete], [vimReplaceOnce] and [vimReplaceMany]. *)
Inductive ViMode : Type :=
| vimInsert
| vimKeys
| vimDelete
| vimReplaceOnce
| vimReplaceMany.

Definition ViMode_eqb (a b : ViMode) : bool :=
  match a, b with
  | vimInsert, vimInsert | vimKeys, vimKeys | vimDelete, vimDelete
  | vimReplaceOnce, vimReplaceOnce | vimReplaceMany, vimReplaceMany => true
  | _, _ => false
  end.

(* ===================================================================== *)
(** * interrupt.go                                                        *)
(* ===================================================================== *)

Module Interrupt.
Import Go Os.

(** [ErrCtrlC = errors.New("Ctrl+C")] *)
Definition ErrCtrlC : error := ErrNew "Ctrl+C".

(** The two handlers [loadInterruptHandlers] registers (method values). *)
Inductive Handler : Type := H_errorCtrlC | H_errorEOF.

Section WithInstance.
(** The fields of the instance this file does not name, and the
    completer function type. *)
Context {Hidden Completer : Type}.

(** The fields of [Instance] the handlers use, next to the editing mode
    (which they never read). *)
Record Instance : Type := mkInstance {
  keys : gostring;
  comp : list Z;
  completer : option Completer;
  line : list Z;
  interruptHandlers : gmap gostring Handler;
  modeViMode : ViMode;
  hidden : Hidden
}.

(** The methods called here whose bodies are in other files. *)
Record Helpers : Type := mkHelpers {
  resetVirtualComp : bool -> Instance -> Instance;
  resetTabCompletion : Instance -> Instance;
  clearHelpers : Instance -> Instance
}.

(** The two control characters, declared in another file. *)
Record Chars : Type := mkChars { charCtrlC : Z; charEOF : Z }.

Variables (hp : Helpers) (ch : Chars).

Definition set_keys (v : gostring) (rl : Instance) : Instance :=
  mkInstance v (comp rl) (completer rl) (line rl) (interruptHandlers rl)
             (modeViMode rl) (hidden rl).
Definition set_completer (v : option Completer) (rl : Instance) : Instance :=
  mkInstance (keys rl) (comp rl) v (line rl) (interruptHandlers rl)
             (modeViMode rl) (hidden rl).
Definition set_interruptHandlers (v : gmap gostring Handler) (rl : Instance) : Instance :=
  mkInstance (keys rl) (comp rl) (completer rl) (line rl) v
             (modeViMode rl) (hidden rl).
Definition set_modeViMode (v : ViMode) (rl : Instance) : Instance :=
  mkInstance (keys rl) (comp rl) (completer rl) (line rl) (interruptHandlers rl)
             v (hidden rl).

(** What a [lineWidget] returns. *)
Record Outcome : Type := mkOutcome {
  read : bool;
  ret : bool;
  val : gostring;
  err : option error
}.

(** [loadInterruptHandlers].  In a map literal a later entry with the
    same key replaces the earlier one. *)
Definition loadInterruptHandlers (rl : Instance) : Instance :=
  set_interruptHandlers
    (<[encoderune (charEOF ch) := H_errorEOF]>
       (<[encoderune (charCtrlC ch) := H_errorCtrlC]> ∅)) rl.

(** [isInterrupt] *)
Definition isInterrupt (rl : Instance) (keys_ : gostring) : option Handler :=
  interruptHandlers rl !! keys_.

(** [errorCtrlC] *)
Definition errorCtrlC (rl : Instance) (_ : list Z) : Outcome * Instance :=
  let rl := set_keys [] rl in
  if 0 <? Z.of_nat (length (comp rl)) then
    let rl := resetVirtualComp hp true rl in
    let rl := resetTabCompletion hp rl in
    let rl := set_completer None rl in
    (mkOutcome true false [] None, rl)
  else
    let val_ := slicerunetostring (line rl) in
    let rl := clearHelpers hp rl in
    (mkOutcome false true val_ (Some ErrCtrlC), rl).

(** [errorEOF] *)
Definition errorEOF (rl : Instance) (_ : list Z) : Outcome * Instance :=
  let val_ := slicerunetostring (line rl) in
  let rl := set_keys [] rl in
  let rl := clearHelpers hp rl in
  (mkOutcome false true val_ (Some EOF), rl).

Definition run_handler (h : Handler) : Instance -> list Z -> Outcome * Instance :=
  match h with
  | H_errorCtrlC => errorCtrlC
  | H_errorEOF => errorEOF
  end.

End WithInstance.

Arguments Instance : clear implicits.
Arguments Helpers : clear implicits.

End Interrupt.

(* ===================================================================== *)
(** * The Readline loop                                                   *)
(* ===================================================================== *)

Module Readline.
Import Go Os.

(** Modelled from the spec: the declaration of the search modes is not
    among the sources; the spec (dispatcher) names the two sub-modes
    search(history|completion). *)
Inductive FindMode : Type := HistoryFind | CompletionFind.

Definition FindMode_eqb (a b : FindMode) : bool :=
  match a, b with
  | HistoryFind, HistoryFind | CompletionFind, CompletionFind => true
  | _, _ => false
  end.

(** [undoItem] *)
Record undoItem : Type := mkUndoItem { u_line : gostring; u_pos : Z }.

(** What a key press callback returns. *)
Record EventReturn : Type := mkEventReturn {
  NewLine : list Z;
  NewPos : Z;
  ClearHelpers : bool;
  HintText : list Z;
  ForwardKey : bool;
  CloseReadline : bool
}.

(** A group of completions, as far as [Readline] reads it. *)
Record Group : Type := mkGroup {
  tcMaxX : Z;
  tcPosY : Z;
  g_tcOffset : Z;
  tcPosX : Z;
  Suggestions : list gostring
}.

(** The methods and functions called from this file whose bodies are in
    other files, by name and arguments. *)
Inductive Call : Type :=
| CComputePrompt | CResetHintText | CResetTabCompletion | CGetHintText
| CRenderHelpers | CClearHelpers | CClearLine | CEcho | CResetHelpers
| CUpdateHelpers | CResetTabFind | CGetTabCompletion
| CBackspaceTabFind | CBackspace | CDelete | CUndoAppendHistory
| CRefreshVimStatus | CSyntaxCompletion
| CUpdateTabFind (r : list Z)
| CMoveTabCompletionHighlight (x y : Z)
| CInsert (r : list Z)
| CVi (r : Z)
| CVimDelete (r : list Z)
| CWalkHistory (n : Z)
| CMoveCursorBackwards (n : Z)
| CMoveCursorForwards (n : Z)
| CHistoryWrite (s : gostring)
| CEvtKeyPress (s : gostring).

(** The constants declared in other files. *)
Record Consts : Type := mkConsts {
  charCtrlC : Z; charEOF : Z; charCtrlF : Z; charCtrlR : Z; charCtrlU : Z;
  charTab : Z; charBackspace : Z; charBackspace2 : Z; charEscape : Z;
  seqDelete : gostring; seqUp : gostring; seqDown : gostring;
  seqBackwards : gostring; seqForwards : gostring;
  seqHome : gostring; seqHomeSc : gostring;
  seqEnd : gostring; seqEndSc : gostring; seqShiftTab : gostring;
  CtrlC : error;   (* the error returned on Ctrl-C *)
  EOF_ : error     (* the package's [EOF] *)
}.

Definition is_insert (c : Call) : bool :=
  match c with CInsert _ => true | _ => false end.

(** [isMultiline]: a line break that is not the last rune. *)
Fixpoint isMultiline (r : list Z) : bool :=
  match r with
  | [] => false
  | c :: r' =>
    if ((c =? 13) || (c =? 10)) && negb (Nat.eqb (length r') 0) then true
    else isMultiline r'
  end.

(** [rxMultiline.Split(s, -1)] for [rxMultiline] = [[\r\n]+]: the pieces
    of [s] between the runs of line breaks.  [cur] is the piece being
    read (reversed), [in_sep] tells that the last byte was a line break. *)
Fixpoint rxMultiline_Split_from (cur : gostring) (in_sep : bool) (s : gostring)
  : list gostring :=
  match s with
  | [] => [rev cur]
  | c :: s' =>
    if (c =? 13) || (c =? 10) then
      if in_sep then rxMultiline_Split_from [] true s'
      else rev cur :: rxMultiline_Split_from [] true s'
    else rxMultiline_Split_from (c :: cur) false s'
  end.

Definition rxMultiline_Split (s : gostring) : list gostring :=
  rxMultiline_Split_from [] false s.

(** [bytes.Replace(data, "\r", "\r\n", -1)] *)
Definition replace_cr (data : gostring) : gostring :=
  flat_map (fun c => if c =? 13 then [13; 10] else [c]) data.

(** [%d] *)
Definition itoa (n : Z) : gostring :=
  bytes_of_string (DecimalString.NilZero.string_of_int (Z.to_int n)).

Definition crlf : gostring := [13; 10].

Definition warning_msg (n : Z) : gostring :=
  crlf ++ bytes_of_string "WARNING: " ++ itoa n
       ++ bytes_of_string " bytes of multiline data was dumped into the shell!".

Definition proceed_prompt : gostring :=
  crlf ++ bytes_of_string "Do you wish to proceed (yes|no|preview)? [y/n/p] ".

Definition invalid_msg : gostring :=
  crlf ++ bytes_of_string "Invalid response. Please answer `y` (yes), `n` (no) or `p` (preview)".

Definition gostring_eqb (a b : gostring) : bool :=
  bool_decide (a = b).

(** [len(b)] for the buffers [b := make([]byte, 1024)]. *)
Definition bufSize : nat := 1024.

(** The buffer after a read of [chunk]: the bytes read, then zeros. *)
Definition read_buffer (chunk : gostring) : gostring :=
  chunk ++ repeat 0 (bufSize - length chunk).

(** [r[:i]] for [r := []rune(string(b))] and [i] the number of bytes
    read.  When [r] has fewer than [i] runes the slice goes past its
    length; whether that is within its capacity is up to the allocator,
    and it is taken as a panic here. *)
Definition read_runes (chunk : gostring) : option (list Z) :=
  let r := stringtoslicerune (read_buffer chunk) in
  let i := length chunk in
  if (length r <? i)%nat then None else Some (firstn i r).

(** What happens, in order: terminal input and output, and calls into
    other files. *)
Inductive Ev : Type :=
| Io (e : Event)
| Called (c : Call)
| EvMakeRaw
| EvRestore.

(** How a computation ends. *)
Inductive Result (A : Type) : Type :=
| Val (a : A)
| Panic        (* a run-time panic: index or slice bound out of range *)
| OutOfFuel.
Arguments Val {A} a.
Arguments Panic {A}.
Arguments OutOfFuel {A}.

Section WithInstance.
(** The fields of the instance this file does not name, and the
    reference to a completion group. *)
Context {Hidden GroupRef : Type}.

Record Instance : Type := mkInstance {
  line : list Z;
  viUndoHistory : list undoItem;
  pos : Z;
  histPos : Z;
  modeViMode : ViMode;
  multisplit : list gostring;
  multiline : gostring;
  viUndoSkipAppend : bool;
  skipStdinRead : bool;
  evtKeyPress : gmap gostring (gostring -> list Z -> Z -> EventReturn);
  searchMode : FindMode;
  modeAutoFind : bool;
  modeTabCompletion : bool;
  tcOffset : Z;
  modeTabFind : bool;
  viIteration : gostring;
  hintText : list Z;
  prompt : gostring;
  promptLen : Z;
  HistoryAutoWrite : bool;
  SyntaxHighlighter : option (list Z -> gostring);
  hidden : Hidden
}.

Definition set_line (v : list Z) (rl : Instance) : Instance :=
  mkInstance v (viUndoHistory rl) (pos rl) (histPos rl) (modeViMode rl)
    (multisplit rl) (multiline rl) (viUndoSkipAppend rl)
    (skipStdinRead rl) (evtKeyPress rl) (searchMode rl) (modeAutoFind rl)
    (modeTabCompletion rl) (tcOffset rl) (modeTabFind rl) (viIteration rl)
    (hintText rl) (prompt rl) (promptLen rl) (HistoryAutoWrite rl)
    (SyntaxHighlighter rl) (hidden rl).
Definition set_viUndoHistory (v : list undoItem) (rl : Instance) : Instance :=
  mkInstance (line rl) v (pos rl) (histPos rl) (modeViMode rl)
    (multisplit rl) (multiline rl) (viUndoSkipAppend rl)
    (skipStdinRead rl) (evtKeyPress rl) (searchMode rl) (modeAutoFind rl)
    (modeTabCompletion rl) (tcOffset rl) (modeTabFind rl) (viIteration rl)
    (hintText rl) (prompt rl) (promptLen rl) (HistoryAutoWrite rl)
    (SyntaxHighlighter rl) (hidden rl).
Definition set_pos (v : Z) (rl : Instance) : Instance :=
  mkInstance (line rl) (viUndoHistory rl) v (histPos rl) (modeViMode rl)
    (multisplit rl) (multiline rl) (viUndoSkipAppend rl)
    (skipStdinRead rl) (evtKeyPress rl) (searchMode rl) (modeAutoFind rl)
    (modeTabCompletion rl) (tcOffset rl) (modeTabFind rl) (viIteration rl)
    (hintText rl) (prompt rl) (promptLen rl) (HistoryAutoWrite rl)
    (SyntaxHighlighter rl) (hidden rl).
Definition set_histPos (v : Z) (rl : Instance) : Instance :=
  mkInstance (line rl) (viUndoHistory rl) (pos rl) v (modeViMode rl)
    (multisplit rl) (multiline rl) (viUndoSkipAppend rl)
    (skipStdinRead rl) (evtKeyPress rl) (searchMode rl) (modeAutoFind rl)
    (modeTabCompletion rl) (tcOffset rl) (modeTabFind rl) (viIteration rl)
    (hintText rl) (prompt rl) (promptLen rl) (HistoryAutoWrite rl)
    (SyntaxHighlighter rl) (hidden rl).
Definition set_modeViMode (v : ViMode) (rl : Instance) : Instance :=
  mkInstance (line rl) (viUndoHistory rl) (pos rl) (histPos rl) v
    (multisplit rl) (multiline rl) (viUndoSkipAppend rl)
    (skipStdinRead rl) (evtKeyPress rl) (searchMode rl) (modeAutoFind rl)
    (modeTabCompletion rl) (tcOffset rl) (modeTabFind rl) (viIteration rl)
    (hintText rl) (prompt rl) (promptLen rl) (HistoryAutoWrite rl)
    (SyntaxHighlighter rl) (hidden rl).
Definition set_multisplit (v : list gostring) (rl : Instance) : Instance :=
  mkInstance (line rl) (viUndoHistory rl) (pos rl) (histPos rl)
    (modeViMode rl) v (multiline rl) (viUndoSkipAppend rl)
    (skipStdinRead rl) (evtKeyPress rl) (searchMode rl) (modeAutoFind rl)
    (modeTabCompletion rl) (tcOffset rl) (modeTabFind rl) (viIteration rl)
    (hintText rl) (prompt rl) (promptLen rl) (HistoryAutoWrite rl)
    (SyntaxHighlighter rl) (hidden rl).
Definition set_multiline (v : gostring) (rl : Instance) : Instance :=
  mkInstance (line rl) (viUndoHistory rl) (pos rl) (histPos rl)
    (modeViMode rl) (multisplit rl) v (viUndoSkipAppend rl)
    (skipStdinRead rl) (evtKeyPress rl) (searchMode rl) (modeAutoFind rl)
    (modeTabCompletion rl) (tcOffset rl) (modeTabFind rl) (viIteration rl)
    (hintText rl) (prompt rl) (promptLen rl) (HistoryAutoWrite rl)
    (SyntaxHighlighter rl) (hidden rl).
Definition set_viUndoSkipAppend (v : bool) (rl : Instance) : Instance :=
  mkInstance (line rl) (viUndoHistory rl) (pos rl) (histPos rl)
    (modeViMode rl) (multisplit rl) (multiline rl) v (skipStdinRead rl)
    (evtKeyPress rl) (searchMode rl) (modeAutoFind rl)
    (modeTabCompletion rl) (tcOffset rl) (modeTabFind rl) (viIteration rl)
    (hintText rl) (prompt rl) (promptLen rl) (HistoryAutoWrite rl)
    (SyntaxHighlighter rl) (hidden rl).
Definition set_skipStdinRead (v : bool) (rl : Instance) : Instance :=
  mkInstance (line rl) (viUndoHistory rl) (pos rl) (histPos rl)
    (modeViMode rl) (multisplit rl) (multiline rl) (viUndoSkipAppend rl) v
    (evtKeyPress rl) (searchMode rl) (modeAutoFind rl)
    (modeTabCompletion rl) (tcOffset rl) (modeTabFind rl) (viIteration rl)
    (hintText rl) (prompt rl) (promptLen rl) (HistoryAutoWrite rl)
    (SyntaxHighlighter rl) (hidden rl).
Definition set_searchMode (v : FindMode) (rl : Instance) : Instance :=
  mkInstance (line rl) (viUndoHistory rl) (pos rl) (histPos rl)
    (modeViMode rl) (multisplit rl) (multiline rl) (viUndoSkipAppend rl)
    (skipStdinRead rl) (evtKeyPress rl) v (modeAutoFind rl)
    (modeTabCompletion rl) (tcOffset rl) (modeTabFind rl) (viIteration rl)
    (hintText rl) (prompt rl) (promptLen rl) (HistoryAutoWrite rl)
    (SyntaxHighlighter rl) (hidden rl).
Definition set_modeAutoFind (v : bool) (rl : Instance) : Instance :=
  mkInstance (line rl) (viUndoHistory rl) (pos rl) (histPos rl)
    (modeViMode rl) (multisplit rl) (multiline rl) (viUndoSkipAppend rl)
    (skipStdinRead rl) (evtKeyPress rl) (searchMode rl) v
    (modeTabCompletion rl) (tcOffset rl) (modeTabFind rl) (viIteration rl)
    (hintText rl) (prompt rl) (promptLen rl) (HistoryAutoWrite rl)
    (SyntaxHighlighter rl) (hidden rl).
Definition set_modeTabCompletion (v : bool) (rl : Instance) : Instance :=
  mkInstance (line rl) (viUndoHistory rl) (pos rl) (histPos rl)
    (modeViMode rl) (multisplit rl) (multiline rl) (viUndoSkipAppend rl)
    (skipStdinRead rl) (evtKeyPress rl) (searchMode rl) (modeAutoFind rl)
    v (tcOffset rl) (modeTabFind rl) (viIteration rl) (hintText rl)
    (prompt rl) (promptLen rl) (HistoryAutoWrite rl)
    (SyntaxHighlighter rl) (hidden rl).
Definition set_tcOffset (v : Z) (rl : Instance) : Instance :=
  mkInstance (line rl) (viUndoHistory rl) (pos rl) (histPos rl)
    (modeViMode rl) (multisplit rl) (multiline rl) (viUndoSkipAppend rl)
    (skipStdinRead rl) (evtKeyPress rl) (searchMode rl) (modeAutoFind rl)
    (modeTabCompletion rl) v (modeTabFind rl) (viIteration rl)
    (hintText rl) (prompt rl) (promptLen rl) (HistoryAutoWrite rl)
    (SyntaxHighlighter rl) (hidden rl).
Definition set_modeTabFind (v : bool) (rl : Instance) : Instance :=
  mkInstance (line rl) (viUndoHistory rl) (pos rl) (histPos rl)
    (modeViMode rl) (multisplit rl) (multiline rl) (viUndoSkipAppend rl)
    (skipStdinRead rl) (evtKeyPress rl) (searchMode rl) (modeAutoFind rl)
    (modeTabCompletion rl) (tcOffset rl) v (viIteration rl) (hintText rl)
    (prompt rl) (promptLen rl) (HistoryAutoWrite rl)
    (SyntaxHighlighter rl) (hidden rl).
Definition set_viIteration (v : gostring) (rl : Instance) : Instance :=
  mkInstance (line rl) (viUndoHistory rl) (pos rl) (histPos rl)
    (modeViMode rl) (multisplit rl) (multiline rl) (viUndoSkipAppend rl)
    (skipStdinRead rl) (evtKeyPress rl) (searchMode rl) (modeAutoFind rl)
    (modeTabCompletion rl) (tcOffset rl) (modeTabFind rl) v (hintText rl)
    (prompt rl) (promptLen rl) (HistoryAutoWrite rl)
    (SyntaxHighlighter rl) (hidden rl).
Definition set_hintText (v : list Z) (rl : Instance) : Instance :=
  mkInstance (line rl) (viUndoHistory rl) (pos rl) (histPos rl)
    (modeViMode rl) (multisplit rl) (multiline rl) (viUndoSkipAppend rl)
    (skipStdinRead rl) (evtKeyPress rl) (searchMode rl) (modeAutoFind rl)
    (modeTabCompletion rl) (tcOffset rl) (modeTabFind rl) (viIteration rl)
    v (prompt rl) (promptLen rl) (HistoryAutoWrite rl)
    (SyntaxHighlighter rl) (hidden rl).
Definition set_prompt (v : gostring) (rl : Instance) : Instance :=
  mkInstance (line rl) (viUndoHistory rl) (pos rl) (histPos rl)
    (modeViMode rl) (multisplit rl) (multiline rl) (viUndoSkipAppend rl)
    (skipStdinRead rl) (evtKeyPress rl) (searchMode rl) (modeAutoFind rl)
    (modeTabCompletion rl) (tcOffset rl) (modeTabFind rl) (viIteration rl)
    (hintText rl) v (promptLen rl) (HistoryAutoWrite rl)
    (SyntaxHighlighter rl) (hidden rl).
Definition set_promptLen (v : Z) (rl : Instance) : Instance :=
  mkInstance (line rl) (viUndoHistory rl) (pos rl) (histPos rl)
    (modeViMode rl) (multisplit rl) (multiline rl) (viUndoSkipAppend rl)
    (skipStdinRead rl) (evtKeyPress rl) (searchMode rl) (modeAutoFind rl)
    (modeTabCompletion rl) (tcOffset rl) (modeTabFind rl) (viIteration rl)
    (hintText rl) (prompt rl) v (HistoryAutoWrite rl)
    (SyntaxHighlighter rl) (hidden rl).

(** What the code of other files does and answers. *)
Record Helpers : Type := mkHelpers {
  run : Call -> Instance -> Instance;       (* the effect of a call *)
  MakeRaw : option error;                   (* the error of MakeRaw *)
  History_Len : Instance -> Z;
  History_Write : gostring -> Instance -> Z * option error;
  History_GetLine : Z -> Instance -> gostring * option error;
  getCurrentGroup : Instance -> GroupRef;
  group : GroupRef -> Instance -> Group;    (* the group behind a reference *)
  tokeniseSplitSpaces : list Z -> Z -> list gostring;
  strLen : gostring -> Z
}.

Record World : Type := mkWorld {
  inst : Instance;
  stdin : Device;
  log : list Ev
}.

(** Computations over the instance and the terminal. *)
Definition M (A : Type) : Type := World -> Result A * World.

Definition ret {A} (a : A) : M A := fun w => (Val a, w).

Definition bind {A B} (c : M A) (k : A -> M B) : M B :=
  fun w => match c w with
           | (Val a, w') => k a w'
           | (Panic, w') => (Panic, w')
           | (OutOfFuel, w') => (OutOfFuel, w')
           end.

Definition panic {A} : M A := fun w => (Panic, w).

Definition get {A} (f : Instance -> A) : M A := fun w => (Val (f (inst w)), w).

Definition set (f : Instance -> Instance) : M unit :=
  fun w => (Val tt, mkWorld (f (inst w)) (stdin w) (log w)).

Definition emit (e : Ev) : M unit :=
  fun w => (Val tt, mkWorld (inst w) (stdin w) (log w ++ [e])).

Definition print (s : gostring) : M unit := emit (Io (EvStdout s)).

Definition os_Stdin_Read (n : nat) : M (gostring * option error) :=
  fun w => let '(r, dev') := Read n (stdin w) in
           (Val r, mkWorld (inst w) dev' (log w ++ [Io (EvRead (fst r) (snd r))])).

Variables (hp : Helpers) (cs : Consts).

Notation "'let*' x ':=' c 'in' k" := (bind c (fun x => k))
  (at level 10, x name, c at level 100, k at level 200).
Notation "c '>>' k" := (bind c (fun _ => k))
  (at level 100, k at level 200, right associativity).

(** A call into another file: its effect on the instance, and a record
    of it. *)
Definition call (c : Call) : M unit :=
  fun w => (Val tt, mkWorld (run hp c (inst w)) (stdin w) (log w ++ [Called c])).

(** The effect of several calls in a row. *)
Definition run_calls (calls : list Call) (rl : Instance) : Instance :=
  fold_left (fun rl c => run hp c rl) calls rl.

(** [rl.History.Write(s)] *)
Definition History_Write_call (s : gostring) : M (Z * option error) :=
  fun w => (Val (History_Write hp s (inst w)),
            mkWorld (run hp (CHistoryWrite s) (inst w)) (stdin w)
                    (log w ++ [Called (CHistoryWrite s)])).

(** [for _, x := range l { body }] *)
Fixpoint for_range {A} (l : list A) (body : A -> M unit) : M unit :=
  match l with
  | [] => ret tt
  | x :: l' => body x >> for_range l' body
  end.

Definition len {A} (l : list A) : Z := Z.of_nat (length l).

(** [editorInput] *)
Definition editorInput (r : list Z) : M unit :=
  let* mode := get modeViMode in
  (match mode with
   | vimKeys =>
     match r with
     | [] => panic
     | r0 :: _ => call (CVi r0) >> call CRefreshVimStatus
     end
   | vimDelete =>
     call (CVimDelete r) >> call CRefreshVimStatus
   | vimReplaceOnce =>
     set (set_modeViMode vimKeys) >>
     call CDelete >>
     match r with
     | [] => panic
     | r0 :: _ => call (CInsert [r0]) >> call CRefreshVimStatus
     end
   | vimReplaceMany =>
     for_range r (fun char => call CDelete >> call (CInsert [char])) >>
     call CRefreshVimStatus
   | vimInsert =>
     call (CInsert r)
   end) >>
  let* ms := get multisplit in
  if len ms =? 0 then call CSyntaxCompletion else ret tt.

(** [SetPrompt] *)
Definition SetPrompt (s : gostring) : M unit :=
  set (set_prompt s) >>
  set (set_promptLen (strLen hp s)).

(** [carridgeReturn] *)
Definition carridgeReturn : M unit :=
  call CClearHelpers >>
  print crlf >>
  let* auto := get HistoryAutoWrite in
  if auto then
    let* ln := get line in
    let* res := History_Write_call (slicerunetostring ln) in
    set (set_histPos (fst res)) >>
    match snd res with
    | Some e => print (Error e ++ crlf)
    | None => ret tt
    end
  else ret tt.

(** The [for] loop of [allowMultiline]. *)
Fixpoint allowMultiline_loop (fuel : nat) (data : gostring) : M bool :=
  match fuel with
  | O => fun w => (OutOfFuel, w)
  | S fuel' =>
    print proceed_prompt >>
    let* rd := os_Stdin_Read bufSize in
    match snd rd with
    | Some _ => ret false
    | None =>
      let s := fst rd in
      print s >>
      if gostring_eqb s [121] || gostring_eqb s [89] then       (* "y", "Y" *)
        let* p := get prompt in print (crlf ++ p) >> ret true
      else if gostring_eqb s [110] || gostring_eqb s [78] then  (* "n", "N" *)
        let* p := get prompt in print (crlf ++ p) >> ret false
      else if gostring_eqb s [112] || gostring_eqb s [80] then  (* "p", "P" *)
        let* hl := get SyntaxHighlighter in
        let preview := replace_cr data in
        let preview := match hl with
                       | Some f => f (stringtoslicerune preview)
                       | None => preview
                       end in
        print (crlf ++ preview) >>
        allowMultiline_loop fuel' data
      else
        print invalid_msg >>
        allowMultiline_loop fuel' data
    end
  end.

(** [allowMultiline] *)
Definition allowMultiline (data : gostring) : M bool :=
  call CClearHelpers >>
  print (warning_msg (len data)) >>
  fun w => allowMultiline_loop (S (dev_size (stdin w))) data w.

(** [escapeSeq]; the result tells nothing, every [return] ends it. *)
Definition escapeSeq (r : list Z) : M unit :=
  let s := slicerunetostring r in
  let highlight_or (x y : Z) (otherwise : M unit) : M unit :=
    let* tc := get modeTabCompletion in
    if tc then call (CMoveTabCompletionHighlight x y) >> call CRenderHelpers
    else otherwise in
  if gostring_eqb s (encoderune (charEscape cs)) then
    let* af := get modeAutoFind in
    let* tf := get modeTabFind in
    let* tc := get modeTabCompletion in
    (if af then
       call CResetTabFind >> call CClearHelpers >>
       call CResetTabCompletion >> call CRenderHelpers
     else if tf then call CResetTabFind
     else if tc then
       call CClearHelpers >> call CResetTabCompletion >> call CRenderHelpers
     else
       let* p := get pos in
       let* ln := get line in
       (if (p =? len ln) && (0 <? len ln) then
          set (set_pos (int (p - 1))) >> call (CMoveCursorBackwards 1)
        else ret tt) >>
       set (set_modeViMode vimKeys) >>
       set (set_viIteration []) >>
       call CRefreshVimStatus >>
       call CClearHelpers >>
       call CRenderHelpers) >>
    set (set_viUndoSkipAppend true)
  else if gostring_eqb s (seqDelete cs) then
    let* tf := get modeTabFind in
    if tf then call CBackspaceTabFind else call CDelete
  else if gostring_eqb s (seqUp cs) then
    highlight_or 0 (-1) (call (CWalkHistory (-1)))
  else if gostring_eqb s (seqDown cs) then
    highlight_or 0 1 (call (CWalkHistory 1))
  else if gostring_eqb s (seqBackwards cs) then
    highlight_or (-1) 0
      (let* p := get pos in
       (if 0 <? p then
          call (CMoveCursorBackwards 1) >>
          let* p := get pos in set (set_pos (int (p - 1)))
        else ret tt) >>
       set (set_viUndoSkipAppend true))
  else if gostring_eqb s (seqForwards cs) then
    highlight_or 1 0
      (let* p := get pos in
       let* ln := get line in
       let* mode := get modeViMode in
       (if (ViMode_eqb mode vimInsert && (p <? len ln))
           || (negb (ViMode_eqb mode vimInsert) && (p <? len ln - 1)) then
          call (CMoveCursorForwards 1) >>
          let* p := get pos in set (set_pos (int (p + 1)))
        else ret tt) >>
       set (set_viUndoSkipAppend true))
  else if gostring_eqb s (seqHome cs) || gostring_eqb s (seqHomeSc cs) then
    let* tc := get modeTabCompletion in
    if tc then ret tt
    else
      let* p := get pos in
      call (CMoveCursorBackwards p) >>
      set (set_pos 0) >>
      set (set_viUndoSkipAppend true)
  else if gostring_eqb s (seqEnd cs) || gostring_eqb s (seqEndSc cs) then
    let* tc := get modeTabCompletion in
    if tc then ret tt
    else
      let* p := get pos in
      let* ln := get line in
      call (CMoveCursorForwards (int (len ln - p))) >>
      let* ln := get line in
      set (set_pos (len ln)) >>
      set (set_viUndoSkipAppend true)
  else if gostring_eqb s (seqShiftTab cs) then
    highlight_or (-1) 0 (ret tt)
  else
    let* tf := get modeTabFind in
    if tf then ret tt
    else
      match r with
      | [_; r1] =>
        if (49 <=? r1) && (r1 <=? 57) then
          let* mode := get modeViMode in
          if ViMode_eqb mode vimDelete then call (CVimDelete r)
          else
            let* rl := get (fun rl => rl) in
            let '(line_, err) :=
              History_GetLine hp (int (History_Len hp rl - 1)) rl in
            match err with
            | Some _ => ret tt
            | None =>
              let tokens := tokeniseSplitSpaces hp (stringtoslicerune line_) 0 in
              let pos_ := r1 - 48 in
              if len tokens <? pos_ then ret tt
              else
                match nth_error tokens (Z.to_nat (pos_ - 1)) with
                | Some tok => call (CInsert (stringtoslicerune tok))
                | None => panic
                end
            end
        else set (set_viUndoSkipAppend true)
      | _ => set (set_viUndoSkipAppend true)
      end.

(** How one turn of the [for] loop of [Readline] ends. *)
Inductive Step : Type :=
| Continue
| Return (line_ : gostring) (err : option error).

(** The part of the loop that runs a key press callback; [None] goes
    on to the [switch]. *)
Definition keyPressEvent (s : gostring) : M (option Step) :=
  let* evt := get evtKeyPress in
  match evt !! s with
  | None => ret None
  | Some callback =>
    call CClearHelpers >>
    let* ln := get line in
    let* p := get pos in
    let r := callback s ln p in
    emit (Called (CEvtKeyPress s)) >>
    call CClearLine >>
    set (set_line (NewLine r)) >>
    call CEcho >>
    set (set_pos (NewPos r)) >>
    (if ClearHelpers r then call CResetHelpers
     else call CUpdateHelpers >> call CRenderHelpers) >>
    (if 0 <? len (HintText r) then
       set (set_hintText (HintText r)) >>
       call CClearHelpers >> call CRenderHelpers
     else ret tt) >>
    if negb (ForwardKey r) then ret (Some Continue)
    else if CloseReadline r then
      call CClearHelpers >>
      let* ln := get line in
      ret (Some (Return (slicerunetostring ln) None))
    else ret None
  end.

(** The [switch b[0]] of the loop and the statement after it; [b0] is
    the first byte of the buffer and [r] the runes read. *)
Definition dispatch (b0 : Z) (r : list Z) : M Step :=
  let after_switch : M Step := call CUndoAppendHistory >> ret Continue in
  if b0 =? charCtrlC cs then
    call CClearHelpers >> ret (Return [] (Some (CtrlC cs)))
  else if b0 =? charEOF cs then
    call CClearHelpers >> ret (Return [] (Some (EOF_ cs)))
  else if b0 =? charCtrlF cs then
    set (set_searchMode CompletionFind) >>
    set (set_modeAutoFind true) >>
    let* tc := get modeTabCompletion in
    let* sm := get searchMode in
    (if tc && FindMode_eqb sm HistoryFind
     then set (set_searchMode CompletionFind) else ret tt) >>
    call (CUpdateTabFind []) >>
    set (set_viUndoSkipAppend true) >>
    after_switch
  else if b0 =? charCtrlR cs then
    set (set_searchMode HistoryFind) >>
    set (set_modeAutoFind true) >>
    set (set_tcOffset 0) >>
    set (set_modeTabCompletion true) >>
    set (set_modeTabFind true) >>
    call (CUpdateTabFind []) >>
    set (set_viUndoSkipAppend true) >>
    after_switch
  else if b0 =? charCtrlU cs then
    call CClearLine >> call CResetHelpers >> after_switch
  else if b0 =? charTab cs then
    let* tc := get modeTabCompletion in
    (if tc then call (CMoveTabCompletionHighlight 1 0)
     else call CGetTabCompletion) >>
    call CRenderHelpers >>
    set (set_viUndoSkipAppend true) >>
    after_switch
  else if (b0 =? 13) || (b0 =? 10) then
    let* tc := get modeTabCompletion in
    if tc then
      let* cur := get (getCurrentGroup hp) in
      let* g := get (group hp cur) in
      let cell := int (int (int (tcMaxX g * int (tcPosY g - 1)) + g_tcOffset g)
                       + tcPosX g - 1) in
      call CClearHelpers >>
      call CResetTabCompletion >>
      call CRenderHelpers >>
      let* g := get (group hp cur) in
      if (cell <? 0) || (len (Suggestions g) <=? cell) then panic
      else
        match nth_error (Suggestions g) (Z.to_nat cell) with
        | Some sg => call (CInsert (stringtoslicerune sg)) >> ret Continue
        | None => panic
        end
    else
      carridgeReturn >>
      let* ln := get line in
      ret (Return (slicerunetostring ln) None)
  else if (b0 =? charBackspace cs) || (b0 =? charBackspace2 cs) then
    let* tf := get modeTabFind in
    let* af := get modeAutoFind in
    (if tf || af then
       call CBackspaceTabFind >> set (set_viUndoSkipAppend true)
     else call CBackspace >> call CRenderHelpers) >>
    after_switch
  else if b0 =? charEscape cs then
    escapeSeq r >> after_switch
  else
    let* af := get modeAutoFind in
    let* tf := get modeTabFind in
    let* sm := get searchMode in
    (if af || (tf && FindMode_eqb sm CompletionFind) then
       call (CUpdateTabFind r) >> set (set_viUndoSkipAppend true)
     else
       editorInput r >>
       let* ml := get multiline in
       let* mode := get modeViMode in
       if (0 <? len ml) && ViMode_eqb mode vimKeys
       then set (set_skipStdinRead true) else ret tt) >>
    after_switch.

(** After a multiline paste is accepted, or at the start of [Readline]
    when lines of it are left: [multisplit] loses its first line. *)
Definition shift_multisplit : M unit :=
  let* ms := get multisplit in
  if 1 <? len ms then set (set_multisplit (List.tl ms))
  else set (set_multisplit []).

(** The first line of [multisplit] is typed in and accepted. *)
Definition replay_first_line (reset_mode clear_multiline : bool) : M Step :=
  let* ms := get multisplit in
  match ms with
  | [] => panic
  | m0 :: _ =>
    let r := stringtoslicerune m0 in
    (if reset_mode then set (set_modeViMode vimInsert) else ret tt) >>
    editorInput r >>
    carridgeReturn >>
    (if clear_multiline then set (set_multiline []) else ret tt) >>
    shift_multisplit >>
    let* ln := get line in
    ret (Return (slicerunetostring ln) None)
  end.

(** One turn of the [for] loop of [Readline]. *)
Definition loop_body : M Step :=
  set (set_viUndoSkipAppend false) >>
  let* skip := get skipStdinRead in
  let* rd := (if skip then ret ([], None) else os_Stdin_Read bufSize) in
  match snd rd with
  | Some e => ret (Return [] (Some e))
  | None =>
    let chunk := fst rd in
    set (set_skipStdinRead false) >>
    match read_runes chunk with
    | None => panic
    | Some r_i =>
      let* ml := get multiline in
      if isMultiline r_i || (0 <? len ml) then
        set (fun rl => set_multiline (multiline rl ++ chunk) rl) >>
        if (length chunk =? bufSize)%nat then ret Continue
        else
          let* data := get multiline in
          let* ok := allowMultiline data in
          if negb ok then set (set_multiline []) >> ret Continue
          else
            let* s := get multiline in
            set (set_multisplit (rxMultiline_Split s)) >>
            replay_first_line true true
      else
        let s := slicerunetostring r_i in
        let* ev := keyPressEvent s in
        match ev with
        | Some st => ret st
        | None => dispatch (hd 0 (read_buffer chunk)) r_i
        end
    end
  end.

(** The [for] loop of [Readline]. *)
Fixpoint Readline_loop (fuel : nat) : M (gostring * option error) :=
  match fuel with
  | O => fun w => (OutOfFuel, w)
  | S fuel' =>
    let* st := loop_body in
    match st with
    | Continue => Readline_loop fuel'
    | Return line_ err => ret (line_, err)
    end
  end.

(** The statements of [Readline] before the loop; [Some] is a return. *)
Definition Readline_start : M (option (gostring * option error)) :=
  set (set_line []) >>
  set (set_viUndoHistory [mkUndoItem [] 0]) >>
  set (set_pos 0) >>
  let* hl := get (History_Len hp) in
  set (set_histPos hl) >>
  set (set_modeViMode vimInsert) >>
  call CComputePrompt >>
  call CResetHintText >>
  call CResetTabCompletion >>
  let* ms := get multisplit in
  if 0 <? len ms then
    let* st := replay_first_line false false in
    match st with
    | Return line_ err => ret (Some (line_, err))
    | Continue => ret None
    end
  else
    call CGetHintText >> call CRenderHelpers >> ret None.

(** [Readline].  [Restore] is deferred: it runs on every way out once
    [MakeRaw] has succeeded. *)
Definition Readline : M (gostring * option error) :=
  emit EvMakeRaw >>
  match MakeRaw hp with
  | Some e => ret ([], Some e)
  | None =>
    fun w =>
      let '(res, w') :=
        (let* early := Readline_start in
         match early with
         | Some v => ret v
         | None => fun w => Readline_loop (2 * S (dev_size (stdin w))) w
         end) w in
      (res, snd (emit EvRestore w'))
  end.

End WithInstance.

Arguments Instance : clear implicits.
Arguments Helpers : clear implicits.
Arguments World : clear implicits.
Arguments M : clear implicits.

End Readline.

(* ===================================================================== *)
(** * Sample data                                                         *)
(* ===================================================================== *)

(** Concrete states, inputs and stand-ins for the code of other files, on
    which the statements below are run. *)
Module Sample.
Import Go Os.

(** The cursor answer ESC [ 2 4 ; 1 0 R *)
Definition answer_24_10 : gostring := 27 :: bytes_of_string "[24;10R".

(** "ab" ESC [ 2 4 ; 1 0 R "cd" *)
Definition typed_around_answer : gostring :=
  bytes_of_string "ab" ++ answer_24_10 ++ bytes_of_string "cd".

(** An answer whose row does not fit an [int]. *)
Definition answer_huge_row : gostring :=
  27 :: bytes_of_string "[99999999999999999999;1R".

(** A key stream with nothing read, fed or matched. *)
Definition empty_keys : Core.Keys :=
  Core.mkKeys [] [] 0 [] false false false Core.NilChan Core.NilChan.

Definition world_of (k : Core.Keys) (dev : Device) : Core.World :=
  Core.mkWorld k dev [].

(** ** interrupt.go *)


Definition interrupt_chars : Interrupt.Chars := Interrupt.mkChars 3 4.


(** ** Readline *)

Import Readline.

(** The ASCII control characters and the usual escape sequences. *)
Definition ascii_consts : Consts :=
  mkConsts 3 4 6 18 21 9 8 127 27
           (27 :: bytes_of_string "[3~")
           (27 :: bytes_of_string "[A") (27 :: bytes_of_string "[B")
           (27 :: bytes_of_string "[D") (27 :: bytes_of_string "[C")
           (27 :: bytes_of_string "[H") (27 :: bytes_of_string "[1~")
           (27 :: bytes_of_string "[F") (27 :: bytes_of_string "[4~")
           (27 :: bytes_of_string "[Z")
           (ErrNew "Ctrl+C") (ErrNew "EOF").

(** An [insert] and a [delete] at the cursor; every other call leaves the
    instance as it is. *)
Definition plain_run (c : Call) (rl : Instance unit) : Instance unit :=
  match c with
  | CInsert r =>
    let p := Z.to_nat (pos rl) in
    set_pos (pos rl + Z.of_nat (length r))
      (set_line (firstn p (line rl) ++ r ++ skipn p (line rl)) rl)
  | CDelete =>
    let p := Z.to_nat (pos rl) in
    set_line (firstn p (line rl) ++ skipn (S p) (line rl)) rl
  | _ => rl
  end.

Definition plain_helpers : Helpers unit unit :=
  mkHelpers plain_run None (fun _ => 0) (fun _ _ => (0, None))
            (fun _ _ => ([], Some (ErrNew "no such line")))
            (fun _ => tt) (fun _ _ => mkGroup 0 0 0 0 [])
            (fun _ _ => []) (fun s => Z.of_nat (length s)).

(** An instance in mode [mode] with [line_] typed and the cursor at
    [pos_]. *)
Definition instance_with (mode : ViMode) (line_ : list Z) (pos_ : Z)
  : Instance unit :=
  mkInstance line_ [] pos_ 0 mode [] [] false false ∅ HistoryFind
             false false 0 false [] [] (bytes_of_string "$ ") 2 false None tt.

Definition world_with (rl : Instance unit) (dev : Device) : World unit :=
  mkWorld rl dev [].

(** The pasted text "line1\nline2". *)
Definition pasted : gostring :=
  bytes_of_string "line1" ++ [10] ++ bytes_of_string "line2".

End Sample.

(* ===================================================================== *)
(** * Notions used in the statements                                      *)
(* ===================================================================== *)

Module CoreSpec.
Import Go Os Core.

(** A group of the cursor answer: digits, at least one. *)
Definition digit_string (s : gostring) : Prop :=
  s <> [] /\ forallb is_digit s = true.

(** The key stream has keys that [WaitAvailableKeys] does not wait for. *)
Definition keys_available (k : Keys) : Prop :=
  (buf k <> [] /\ mustWait k = false) \/ macroKeys k <> [].

(** No read is in flight: [GetCursorPos] reads the device itself. *)
Definition direct (k : Keys) : Prop := waiting k = false /\ reading k = false.

End CoreSpec.

Module ReadlineSpec.
Import Go Os Readline.

Section WithHelpers.
Context {Hidden GroupRef : Type} (hp : Helpers Hidden GroupRef).

(** The instance and the log after the calls [calls], in this order. *)
Definition do_calls (calls : list Call) (w : World Hidden) : World Hidden :=
  mkWorld (run_calls hp calls (inst w)) (stdin w) (log w ++ map Called calls).

(** The end of [editorInput]: the syntax completion, unless lines of a
    paste are left. *)
Definition finish (w : World Hidden) : World Hidden :=
  if Z.of_nat (length (multisplit (inst w))) =? 0
  then do_calls [CSyntaxCompletion] w else w.

Definition with_mode (m : ViMode) (w : World Hidden) : World Hidden :=
  mkWorld (set_modeViMode m (inst w)) (stdin w) (log w).

(** The calls [editorInput] makes in the two replace modes and in insert
    mode. *)
Definition edit_call (c : Call) : bool :=
  match c with
  | CDelete | CInsert _ | CRefreshVimStatus | CSyntaxCompletion => true
  | _ => false
  end.

(** These calls edit the line and redraw; they leave the mode alone. *)
Definition keeps_mode : Prop :=
  forall c rl, edit_call c = true -> modeViMode (run hp c rl) = modeViMode rl.

End WithHelpers.


(** The cases of the [switch] that come before the one of Enter. *)
Definition keys_before_enter (cs : Consts) : list Z :=
  [charCtrlC cs; charEOF cs; charCtrlF cs; charCtrlR cs; charCtrlU cs;
   charTab cs].

(** ** The confirmation dialogue *)

(** What an answer to the prompt means: a failed read and "n" or "N"
    reject, "y" or "Y" accept, anything else asks again. *)
Inductive Verdict : Type := Accept | Reject | Again.

Definition verdict (bs : gostring) (err : option error) : Verdict :=
  match err with
  | Some _ => Reject
  | None =>
    if gostring_eqb bs [121] || gostring_eqb bs [89] then Accept
    else if gostring_eqb bs [110] || gostring_eqb bs [78] then Reject
    else Again
  end.

Definition is_stdout (e : Ev) : bool :=
  match e with Io (EvStdout _) => true | _ => false end.

(** The events of a dialogue that ends with the answer [b]: each turn is
    the prompt, the read of an answer, and what is printed in return;
    every turn but the last has an answer that asks again. *)
Inductive dialogue : list Ev -> bool -> Prop :=
| dialogue_last (bs : gostring) (err : option error) (out : list Ev) (b : bool) :
    verdict bs err = (if b then Accept else Reject) ->
    forallb is_stdout out = true ->
    dialogue (Io (EvStdout proceed_prompt) :: Io (EvRead bs err) :: out) b
| dialogue_again (bs : gostring) (err : option error) (out rest : list Ev)
                 (b : bool) :
    verdict bs err = Again ->
    forallb is_stdout out = true ->
    dialogue rest b ->
    dialogue (Io (EvStdout proceed_prompt) :: Io (EvRead bs err) :: out ++ rest) b.

(** An answer that does not end the dialogue: read in one piece, and none
    of "y", "Y", "n", "N". *)
Definition undecided (o : gostring) : Prop :=
  (length o <= bufSize)%nat /\ ~ In o [[121]; [89]; [110]; [78]].

(** What is printed in return for such an answer: the preview of the
    paste for "p" and "P", the reminder for any other. *)
Definition reply {Hidden : Type} (data : gostring) (rl : Instance Hidden)
           (o : gostring) : gostring :=
  if gostring_eqb o [112] || gostring_eqb o [80] then
    crlf ++ match SyntaxHighlighter rl with
            | Some f => f (stringtoslicerune (replace_cr data))
            | None => replace_cr data
            end
  else invalid_msg.

(** The events of a turn of the dialogue with such an answer. *)
Definition turn_again {Hidden : Type} (data : gostring) (rl : Instance Hidden)
           (o : gostring) : list Ev :=
  [Io (EvStdout proceed_prompt); Io (EvRead o None); Io (EvStdout o);
   Io (EvStdout (reply data rl o))].

(** The events of the last turn, with the answer [ans]. *)
Definition turn_decided {Hidden : Type} (rl : Instance Hidden)
           (ans : gostring) : list Ev :=
  [Io (EvStdout proceed_prompt); Io (EvRead ans None); Io (EvStdout ans);
   Io (EvStdout (crlf ++ prompt rl))].

(** The number of times the prompt of the dialogue is written. *)
Definition prompts (lg : list Ev) : nat :=
  length (flat_map (fun e => match e with
                             | Io (EvStdout s) =>
                               if gostring_eqb s proceed_prompt then [e] else []
                             | _ => []
                             end) lg).

(** The answers read, in order. *)
Definition answers (lg : list Ev) : list (gostring * option error) :=
  flat_map (fun e => match e with
                     | Io (EvRead bs err) => [(bs, err)]
                     | _ => []
                     end) lg.

(** The runes given to [insert], call after call. *)
Definition inserted (lg : list Ev) : list (list Z) :=
  flat_map (fun e => match e with
                     | Called (CInsert r) => [r]
                     | _ => []
                     end) lg.

End ReadlineSpec.

(* ===================================================================== *)
(** * Package core: reading one key                                       *)
(* ===================================================================== *)

Module CoreReadKey.
Import Go Os Core.

(** How a call of [ReadKey] ends. *)
Inductive KeyRes : Type :=
| Key (key : Z) (isAbort : bool)   (* the two results *)
| KeyBlocked                       (* the call waits at a channel *)
| KeyPanic.                        (* index out of range *)

Section WithEsc.
(** [inputrc.Esc], declared in another package. *)
Variable Esc : Z.

(** The end of [ReadKey]: the key is recorded as matched, and the deferred
    function clears [reading]. *)
Definition ReadKey_record (key : Z) (w : World) : KeyRes * World :=
  (Key key (key =? Esc),
   upd_keys (fun k =>
     set_reading false
       (set_matchedLen (int (matchedLen k + 1))
          (set_matched (matched k ++ [key]) k))) w).

(** [key = []rune(string(buf))[0]], then the end of [ReadKey]; the
    deferred function runs on a panic as well. *)
Definition ReadKey_first (buf_ : gostring) (w : World) : KeyRes * World :=
  match stringtoslicerune buf_ with
  | [] => (KeyPanic, upd_keys (set_reading false) w)
  | key :: _ => ReadKey_record key w
  end.

(** [buf := <-k.keysOnce] and what follows it. *)
Definition ReadKey_receive (w : World) : KeyRes * World :=
  match chan_recv (keysOnce (keys w)) with
  | (None, ch) => (KeyBlocked, upd_keys (set_keysOnce ch) w)
  | (Some msg, ch) => ReadKey_first msg (upd_keys (set_keysOnce ch) w)
  end.

(** [ReadKey].  The channel [keysOnce] is made anew, so no message was
    passed on it when the receive is reached: the call then waits for
    the main loop to send the next piece read.  When the call reads the
    device itself it may wait in [readInputFiltered], at the send of a
    cursor answer. *)
Definition ReadKey (w : World) : KeyRes * World :=
  let w := upd_keys (fun k => set_reading true (set_keysOnce make_chan k)) w in
  match macroKeys (keys w) with
  | key :: rest => ReadKey_record key (upd_keys (set_macroKeys rest) w)
  | [] =>
    if waiting (keys w) then ReadKey_receive w
    else
      match readInputFiltered w with
      | (Done (buf_, _), w) => ReadKey_first buf_ w
      | (Blocked, w) => (KeyBlocked, w)
      | (OutOfFuel, w) => (KeyBlocked, w)
      end
  end.

End WithEsc.

End CoreReadKey.

(* ===================================================================== *)
(** * Notions used in the statements on the key stream                    *)
(* ===================================================================== *)

Module KeysSpec.
Import Go Os Core.

(** The count of matched keys and the matched keys agree, as [int]s. *)
Definition matched_sync (k : Keys) : Prop :=
  int (matchedLen k) = int (len (matched k)).

(** Bytes that are characters of their own. *)
Definition ascii (s : gostring) : Prop := Forall (fun c => 0 <= c < 128) s.

(** A read that [WaitAvailableKeys] passes over: one that failed, not at
    the end of input, or one that returned no byte. *)
Definition skippable (e : ReadEvent) : bool :=
  match e with
  | Fail er => negb (is_EOF er)
  | Data [] => true
  | Data _ => false
  end.

(** The record of such a read. *)
Definition skipped_read (e : ReadEvent) : Event :=
  match e with
  | Fail er => EvRead [] (Some er)
  | Data bs => EvRead bs None
  end.

(** What [WaitAvailableKeys] leaves of a key stream [k]: the pending
    bytes, with more after them at most, and none more while a [ReadKey]
    is under way; the macro queue, the matched keys and the flags. *)
Definition kept (k k' : Keys) : Prop :=
  (exists new, buf k' = buf k ++ new)
  /\ (reading k = true -> buf k' = buf k)
  /\ macroKeys k' = macroKeys k
  /\ matched k' = matched k
  /\ matchedLen k' = matchedLen k
  /\ mustWait k' = mustWait k
  /\ reading k' = reading k
  /\ waiting k' = waiting k.

(** The end of input, as a read finds it. *)
Definition at_end (dev : Device) : Prop :=
  dev = [] \/ exists dev', dev = Fail EOF :: dev'.

(** A piece of input typed by the user: some bytes, no more than a read
    takes, with no cursor answer among them. *)
Definition typed_piece (bs : gostring) : Prop :=
  bs <> [] /\ (length bs <= keyScanBufSize)%nat /\ rxRcvCursorPos_first bs = None.

(** The text of a cursor answer with the groups [row] and [col]. *)
Definition answer_text (row col : gostring) : gostring :=
  [27; 91] ++ row ++ [59] ++ col ++ [82].

Definition is_stderr (e : Event) : bool :=
  match e with EvStderr _ => true | _ => false end.

(** The bytes that the next read of the device brings. *)
Definition next_piece (dev : Device) : gostring :=
  fst (fst (Read keyScanBufSize dev)).

(** A receive waits on [k.cursor]: a send on it goes through. *)
Definition answer_awaited (k : Keys) : Prop :=
  exists n h, cursor k = Made (S n) h.

(** The read on which [GetCursorPos] gives up, with its record: the end
    of input, a failed read, a read of no byte. *)
Definition giving_up (rest : Device) : option Event :=
  match rest with
  | [] => Some (EvRead [] (Some EOF))
  | Fail e :: _ => Some (EvRead [] (Some e))
  | Data [] :: _ => Some (EvRead [] None)
  | Data (_ :: _) :: _ => None
  end.

End KeysSpec.

(* ===================================================================== *)
(** * Notions used in the statements on the Readline loop                 *)
(* ===================================================================== *)

Module LoopSpec.
Import Go Os Readline ReadlineSpec.


(** The sequences of the keys that move the cursor along the line. *)
Definition cursor_seqs (cs : Consts) : list gostring :=
  [seqBackwards cs; seqForwards cs; seqHome cs; seqHomeSc cs;
   seqEnd cs; seqEndSc cs].

(** The sequences that [escapeSeq] looks for before these. *)
Definition earlier_seqs (cs : Consts) : list gostring :=
  [encoderune (charEscape cs); seqDelete cs; seqUp cs; seqDown cs].

Definition is_read_ev (e : Ev) : bool :=
  match e with Io (EvRead _ _) => true | _ => false end.

Section WithHelpers.
Context {Hidden GroupRef : Type} (hp : Helpers Hidden GroupRef).

(** [moveCursorBackwards] and [moveCursorForwards] are functions of the
    package, not methods: they write to the terminal and cannot reach the
    instance. *)
Definition moves_leave_instance : Prop :=
  forall n rl, run hp (CMoveCursorBackwards n) rl = rl
               /\ run hp (CMoveCursorForwards n) rl = rl.

(** The instance after the first statements of [Readline], up to the
    test on [multisplit]. *)
Definition Readline_reset (rl : Instance Hidden) : Instance Hidden :=
  let rl := set_pos 0 (set_viUndoHistory [mkUndoItem [] 0] (set_line [] rl)) in
  let rl := set_modeViMode vimInsert (set_histPos (History_Len hp rl) rl) in
  run_calls hp [CComputePrompt; CResetHintText; CResetTabCompletion] rl.

(** The instance and the events of [carridgeReturn]. *)
Definition after_return (rl : Instance Hidden) : Instance Hidden * list Ev :=
  let rl1 := run hp CClearHelpers rl in
  let head := [Called CClearHelpers; Io (EvStdout crlf)] in
  if HistoryAutoWrite rl1 then
    let s := slicerunetostring (line rl1) in
    let res := History_Write hp s rl1 in
    (set_histPos (fst res) (run hp (CHistoryWrite s) rl1),
     head ++ Called (CHistoryWrite s)
          :: match snd res with
             | Some e => [Io (EvStdout (Error e ++ crlf))]
             | None => []
             end)
  else (rl1, head).

End WithHelpers.

End LoopSpec.

(* ===================================================================== *)
(** * The emacs commands that edit the line in place                      *)
(* ===================================================================== *)

Module Emacs.
Import Go.

(** How a command ends. *)
Inductive Outcome (A : Type) : Type :=
| Ok (a : A)
| IndexPanic.     (* index out of range *)
Arguments Ok {A} a.
Arguments IndexPanic {A}.

(** [l[i]] *)
Definition index (l : list Z) (i : Z) : option Z :=
  if (i <? 0) || (Z.of_nat (length l) <=? i) then None
  else nth_error l (Z.to_nat i).

(** [l[i] = v] *)
Definition store (l : list Z) (i : Z) (v : Z) : option (list Z) :=
  if (i <? 0) || (Z.of_nat (length l) <=? i) then None
  else Some (<[Z.to_nat i := v]> l).

(** The loop of [quoteLine] over the runes of the line: up to the first
    line feed, a single quote is overwritten with a double quote. *)
Fixpoint quoteLine_range (l : list Z) : list Z :=
  match l with
  | [] => []
  | char :: l' =>
    if char =? 10 then l
    else (if char =? 39 then 34 else char) :: quoteLine_range l'
  end.

Section WithShell.
(** What the shell holds besides the line: the cursor, the histories. *)
Context {Others : Type}.

Record Shell : Type := mkShell {
  line : list Z;      (* *rl.line *)
  others : Others
}.

Definition set_line (v : list Z) (rl : Shell) : Shell := mkShell v (others rl).

(** The methods called whose bodies are in other packages. *)
Record Helpers : Type := mkHelpers {
  cursor_Pos : Shell -> Z;                          (* rl.cursor.Pos() *)
  line_Len : list Z -> Z;                           (* rl.line.Len() *)
  line_Insert : list Z -> Z -> list Z -> list Z;    (* rl.line.Insert(pos, chars...) *)
  histories_SkipSave : Shell -> Shell               (* rl.histories.SkipSave() *)
}.

Variable hp : Helpers.

(** The four statements of a case of [transposeChars]: the runes at [i]
    and [j] are read, then written at [j] and [i]; [i] and [j] are given
    by the cursor, which is asked each time. *)
Definition exchange (i j : Shell -> Z) (rl : Shell) : Outcome Shell :=
  match index (line rl) (i rl) with
  | None => IndexPanic
  | Some last =>
    match index (line rl) (j rl) with
    | None => IndexPanic
    | Some blast =>
      match store (line rl) (j rl) last with
      | None => IndexPanic
      | Some l1 =>
        let rl := set_line l1 rl in
        match store (line rl) (i rl) blast with
        | None => IndexPanic
        | Some l2 => Ok (set_line l2 rl)
        end
      end
    end
  end.

(** [transposeChars] *)
Definition transposeChars (rl : Shell) : Outcome Shell :=
  if (cursor_Pos hp rl <? 2) || (line_Len hp (line rl) <? 2) then
    Ok (histories_SkipSave hp rl)
  else if cursor_Pos hp rl =? line_Len hp (line rl) then
    exchange (fun rl => int (cursor_Pos hp rl - 1))
             (fun rl => int (cursor_Pos hp rl - 2)) rl
  else
    exchange (fun rl => cursor_Pos hp rl)
             (fun rl => int (cursor_Pos hp rl - 1)) rl.

(** [quoteLine] *)
Definition quoteLine (rl : Shell) : Shell :=
  if line_Len hp (line rl) =? 0 then rl
  else
    let rl := set_line (line_Insert hp (line rl) 0 [39]) rl in
    let rl := set_line (quoteLine_range (line rl)) rl in
    set_line (line_Insert hp (line rl) (line_Len hp (line rl)) [39]) rl.

End WithShell.

Arguments Shell : clear implicits.
Arguments Helpers : clear implicits.

End Emacs.

Module EmacsSpec.
Import Emacs.

(** The runes at [i] and [i + 1] of [l], one for the other. *)
Definition swap_at (i : nat) (l : list Z) : list Z :=
  match skipn i l with
  | x :: y :: tl => firstn i l ++ y :: x :: tl
  | _ => l
  end.

Section WithShell.
Context {Others : Type} (hp : Helpers Others).

(** What is taken of the methods of the line and of the cursor: [Len] is
    the number of runes, [Insert] puts a rune in front of the line or
    after it, and the position of the cursor is not read from the runes
    of the line. *)
Definition line_methods : Prop :=
  (forall l, line_Len hp l = Z.of_nat (length l))
  /\ (forall l c, line_Insert hp l 0 [c] = c :: l)
  /\ (forall l c, line_Insert hp l (Z.of_nat (length l)) [c] = l ++ [c]).

Definition cursor_apart : Prop :=
  forall l rl, cursor_Pos hp (set_line l rl) = cursor_Pos hp rl.

End WithShell.

End EmacsSpec.

(* ===================================================================== *)
(** * More sample data                                                    *)
(* ===================================================================== *)

Module Cases.
Import Go Os.

(** ** The key stream *)

(** "ab" pending, "x" in the macro queue. *)
Definition two_pending : Core.Keys :=
  Core.mkKeys [97; 98] [] 0 [120] false false false Core.NilChan Core.NilChan.

(** A letter, half of a surrogate pair and the euro sign. *)
Definition fed_keys : list Z := [65; 55296; 8364].

(** A read that fails, a read of nothing, then "hi" and "!". *)
Definition slow_terminal : Device :=
  [Fail (ErrNew "interrupted system call"); Data []; Data [104; 105]; Data [33]].

(** "ab" and "c" typed while the cursor answer is on its way, "d" after. *)
Definition typed_then_answer : Device :=
  [Data [97; 98]; Data [99]; Data Sample.answer_24_10; Data [100]].

(** The euro sign and "b" in the macro queue, "a" pending. *)
Definition macro_and_pending : Core.Keys :=
  Core.mkKeys [97] [] 0 [8364; 98] false false false Core.NilChan Core.NilChan.

(** The bytes of "€bc". *)
Definition euro_bc : gostring := [226; 130; 172; 98; 99].

(** ** Readline *)

Import Readline.

(** The bytes of "é". *)
Definition e_acute : gostring := [195; 169].

(** Helpers whose history cannot be written. *)
Definition no_history_helpers : Helpers unit unit :=
  mkHelpers Sample.plain_run None (fun _ => 0)
            (fun _ _ => (7, Some (ErrNew "read-only file system")))
            (fun _ _ => ([], Some (ErrNew "no such line")))
            (fun _ => tt) (fun _ _ => mkGroup 0 0 0 0 [])
            (fun _ _ => []) (fun s => Z.of_nat (length s)).

(** "hi" typed in insert mode, with the history written on Enter. *)
Definition autowrite_instance : Instance unit :=
  mkInstance [104; 105] [] 2 0 vimInsert [] [] false false ∅ HistoryFind
             false false 0 false [] [] (bytes_of_string "$ ") 2 true None tt.

(** A callback that keeps the line and does not forward the key. *)
Definition swallow (s : gostring) (ln : list Z) (p : Z) : EventReturn :=
  mkEventReturn ln p false [] false false.

(** "hi" typed, with [swallow] bound to Ctrl-C. *)
Definition guarded_instance : Instance unit :=
  mkInstance [104; 105] [] 2 0 vimInsert [] [] false false
             (<[ [3] := swallow ]> ∅) HistoryFind
             false false 0 false [] [] (bytes_of_string "$ ") 2 false None tt.


(** The lines "b" and "c" of an accepted paste are left. *)
Definition lines_left_instance : Instance unit :=
  set_multisplit [[98]; [99]] (Sample.instance_with vimKeys [97] 1).

(** ** The emacs commands *)

(** A shell that holds the position of the cursor next to the line. *)
Definition shell_helpers : Emacs.Helpers Z :=
  Emacs.mkHelpers (fun rl => Emacs.others rl)
                  (fun l => Z.of_nat (length l))
                  (fun l p cs => firstn (Z.to_nat p) l ++ cs ++ skipn (Z.to_nat p) l)
                  (fun rl => rl).

End Cases.

(* ===================================================================== *)
(** * Facts about the Go conversions                                      *)
(* ===================================================================== *)

Module GoFacts.
Import Go.

Lemma byte_mod x : byte x = x mod 256.
Proof. unfold byte. change 255 with (Z.ones 8). now rewrite Z.land_ones. Qed.

Lemma byte_small x : 0 <= x < 256 -> byte x = x.
Proof. intros H. rewrite byte_mod. now apply Z.mod_small. Qed.

Lemma land_mask x n : 0 <= n -> Z.land x (2 ^ n - 1) = x mod 2 ^ n.
Proof.
  intros Hn. replace (2 ^ n - 1) with (Z.ones n).
  - now apply Z.land_ones.
  - rewrite Z.ones_equiv. lia.
Qed.

(** Bits that do not overlap add up. *)
Lemma lor_disjoint k n b :
  0 <= n -> 0 <= b < 2 ^ n -> Z.lor (k * 2 ^ n) b = k * 2 ^ n + b.
Proof.
  intros Hn Hb. symmetry. apply Z.add_nocarry_lor.
  apply Z.bits_inj'. intros i Hi.
  rewrite Z.land_spec, Z.bits_0.
  destruct (Z.lt_ge_cases i n) as [Hlt | Hge].
  - rewrite Z.mul_pow2_bits_low by lia. reflexivity.
  - rewrite <- (Z.mod_small b (2 ^ n)) by lia.
    rewrite Z.mod_pow2_bits_high by lia. apply andb_false_r.
Qed.

Ltac arith := Z.div_mod_to_equations; lia.
Ltac side := first [ reflexivity | lia | cbn; lia | vm_compute; reflexivity ].

Lemma lor_tx b : 0 <= b < 64 -> Z.lor tx b = 128 + b.
Proof. intros H. apply (lor_disjoint 2 6); cbn; lia. Qed.
Lemma lor_t2 b : 0 <= b < 32 -> Z.lor t2 b = 192 + b.
Proof. intros H. apply (lor_disjoint 6 5); cbn; lia. Qed.
Lemma lor_t3 b : 0 <= b < 16 -> Z.lor t3 b = 224 + b.
Proof. intros H. apply (lor_disjoint 14 4); cbn; lia. Qed.
Lemma lor_t4 b : 0 <= b < 8 -> Z.lor t4 b = 240 + b.
Proof. intros H. apply (lor_disjoint 30 3); cbn; lia. Qed.

Lemma shl_lor a n b :
  0 <= n -> 0 <= b < 2 ^ n -> Z.lor (Z.shiftl a n) b = a * 2 ^ n + b.
Proof. intros. rewrite Z.shiftl_mul_pow2 by lia. now apply lor_disjoint. Qed.

(** The low six bits of a rune, as a continuation byte. *)
Lemma cont_byte x : Z.lor tx (Z.land (byte x) maskx) = 128 + x mod 64.
Proof.
  rewrite byte_mod. unfold maskx. rewrite (land_mask _ 6) by lia.
  rewrite lor_tx by (change (2 ^ 6) with 64; arith).
  change (2 ^ 6) with 64. f_equal. arith.
Qed.

Lemma encoderune_1 r : 0 <= r <= 127 -> encoderune r = [r].
Proof.
  intros H. unfold encoderune, uint32. rewrite Z.mod_small by lia.
  unfold rune1Max. destruct (Z.leb_spec r 127); [|lia].
  now rewrite byte_small by lia.
Qed.

Lemma encoderune_2 r :
  128 <= r <= 2047 -> encoderune r = [192 + r / 64; 128 + r mod 64].
Proof.
  intros H. unfold encoderune, uint32. rewrite Z.mod_small by lia.
  unfold rune1Max, rune2Max.
  destruct (Z.leb_spec r 127); [lia|]. destruct (Z.leb_spec r 2047); [|lia].
  rewrite cont_byte, Z.shiftr_div_pow2, byte_mod by lia.
  change (2 ^ 6) with 64.
  rewrite lor_t2 by arith. repeat f_equal. arith.
Qed.

Lemma enc3_arith r :
  0 <= r <= 65535 ->
  enc3 r = [224 + r / 4096; 128 + (r / 64) mod 64; 128 + r mod 64].
Proof.
  intros H. unfold enc3. rewrite !cont_byte, !Z.shiftr_div_pow2, byte_mod by lia.
  change (2 ^ 6) with 64. change (2 ^ 12) with 4096.
  rewrite lor_t3 by arith. repeat f_equal. arith.
Qed.

Lemma enc4_arith r :
  0 <= r <= 1114111 ->
  enc4 r = [240 + r / 262144; 128 + (r / 4096) mod 64;
            128 + (r / 64) mod 64; 128 + r mod 64].
Proof.
  intros H. unfold enc4. rewrite !cont_byte, !Z.shiftr_div_pow2, byte_mod by lia.
  change (2 ^ 6) with 64. change (2 ^ 12) with 4096. change (2 ^ 18) with 262144.
  rewrite lor_t4 by arith. repeat f_equal. arith.
Qed.

Lemma land_low a n lo mask :
  0 <= n -> mask = 2 ^ n - 1 -> lo mod 2 ^ n = 0 -> lo <= a < lo + 2 ^ n ->
  Z.land a mask = a - lo.
Proof.
  intros Hn -> Hlo Ha. rewrite land_mask by lia.
  pose proof (Z.pow_pos_nonneg 2 n ltac:(lia) Hn) as Hpos.
  apply Z.mod_divide in Hlo; [|lia]. destruct Hlo as [q ->].
  replace a with (a - q * 2 ^ n + q * 2 ^ n) at 1 by lia.
  rewrite Z.mod_add by lia. apply Z.mod_small. lia.
Qed.

Lemma cont_true b : 128 <= b <= 191 -> cont b = true.
Proof. intros H. unfold cont, locb, hicb. apply andb_true_iff. lia. Qed.

Lemma decoderune_2 a b rest :
  194 <= a <= 223 -> 128 <= b <= 191 ->
  decoderune (a :: b :: rest) = ((a - 192) * 64 + (b - 128), 2%nat).
Proof.
  intros Ha Hb. unfold decoderune, t2, t3, mask2, maskx, rune1Max.
  destruct (Z.leb_spec 192 a); [|lia]. destruct (Z.ltb_spec a 224); [|lia].
  cbn [andb].
  rewrite (land_low a 5 192 31), (land_low b 6 128 63) by side.
  rewrite shl_lor by side. change (2 ^ 6) with 64.
  rewrite cont_true by lia. cbn [andb].
  destruct (Z.ltb_spec 127 ((a - 192) * 64 + (b - 128))); [reflexivity | lia].
Qed.

Lemma decoderune_3 a b c rest :
  224 <= a <= 239 -> 128 <= b <= 191 -> 128 <= c <= 191 ->
  let r := (a - 224) * 4096 + (b - 128) * 64 + (c - 128) in
  2047 < r -> ~ (surrogateMin <= r <= surrogateMax) ->
  decoderune (a :: b :: c :: rest) = (r, 3%nat).
Proof.
  intros Ha Hb Hc r Hr Hs.
  unfold decoderune, t2, t3, t4, mask3, maskx, rune2Max.
  destruct (Z.leb_spec 192 a); [|lia]. destruct (Z.ltb_spec a 224); [lia|].
  destruct (Z.leb_spec 224 a); [|lia]. destruct (Z.ltb_spec a 240); [|lia].
  cbn [andb].
  rewrite (land_low a 4 224 15), (land_low b 6 128 63), (land_low c 6 128 63) by side.
  rewrite (Z.shiftl_mul_pow2 (b - 128)) by lia.
  rewrite shl_lor by side.
  replace ((a - 224) * 2 ^ 12 + (b - 128) * 2 ^ 6)
    with (((a - 224) * 64 + (b - 128)) * 2 ^ 6) by side.
  rewrite lor_disjoint by side.
  replace (((a - 224) * 64 + (b - 128)) * 2 ^ 6 + (c - 128)) with r
    by (unfold r; cbn; lia).
  rewrite !cont_true by lia. cbn [andb].
  destruct (Z.ltb_spec 2047 r); [|lia]. cbn [andb].
  destruct (Z.leb_spec surrogateMin r), (Z.leb_spec r surrogateMax);
    cbn; try reflexivity. lia.
Qed.

Lemma decoderune_4 a b c d rest :
  240 <= a <= 247 -> 128 <= b <= 191 -> 128 <= c <= 191 -> 128 <= d <= 191 ->
  let r := (a - 240) * 262144 + (b - 128) * 4096 + (c - 128) * 64 + (d - 128) in
  65535 < r <= maxRune ->
  decoderune (a :: b :: c :: d :: rest) = (r, 4%nat).
Proof.
  intros Ha Hb Hc Hd r Hr.
  unfold decoderune, t2, t3, t4, t5, mask4, maskx, rune3Max.
  destruct (Z.leb_spec 192 a); [|lia]. destruct (Z.ltb_spec a 224); [lia|].
  destruct (Z.leb_spec 224 a); [|lia]. destruct (Z.ltb_spec a 240); [lia|].
  destruct (Z.leb_spec 240 a); [|lia]. destruct (Z.ltb_spec a 248); [|lia].
  cbn [andb].
  rewrite (land_low a 3 240 7), (land_low b 6 128 63), (land_low c 6 128 63),
    (land_low d 6 128 63) by side.
  rewrite (Z.shiftl_mul_pow2 (b - 128)), (Z.shiftl_mul_pow2 (c - 128)) by lia.
  rewrite shl_lor by side.
  replace ((a - 240) * 2 ^ 18 + (b - 128) * 2 ^ 12)
    with (((a - 240) * 64 + (b - 128)) * 2 ^ 12) by side.
  rewrite lor_disjoint by side.
  replace (((a - 240) * 64 + (b - 128)) * 2 ^ 12 + (c - 128) * 2 ^ 6)
    with ((((a - 240) * 64 + (b - 128)) * 64 + (c - 128)) * 2 ^ 6) by side.
  rewrite lor_disjoint by side.
  replace ((((a - 240) * 64 + (b - 128)) * 64 + (c - 128)) * 2 ^ 6 + (d - 128))
    with r by (unfold r; cbn; lia).
  rewrite !cont_true by lia. cbn [andb].
  destruct (Z.ltb_spec 65535 r); [|lia]. cbn [andb].
  destruct (Z.leb_spec r maxRune); [reflexivity | lia].
Qed.

Lemma valid_runeb_spec r : valid_runeb r = true <-> valid_rune r.
Proof.
  unfold valid_runeb, valid_rune.
  rewrite !andb_true_iff, negb_true_iff, andb_false_iff.
  rewrite !Z.leb_le, !Z.leb_gt. lia.
Qed.

Lemma encoderune_3 r :
  2048 <= r <= 65535 -> ~ (surrogateMin <= r <= surrogateMax) ->
  encoderune r = enc3 r.
Proof.
  intros H Hs. unfold encoderune, uint32. rewrite Z.mod_small by lia.
  unfold rune1Max, rune2Max, rune3Max, maxRune in *.
  destruct (Z.leb_spec r 127); [lia|]. destruct (Z.leb_spec r 2047); [lia|].
  destruct (Z.ltb_spec 1114111 r); [lia|].
  destruct (Z.leb_spec surrogateMin r), (Z.leb_spec r surrogateMax);
    cbn [andb orb]; try lia;
    (destruct (Z.leb_spec r 65535); [reflexivity | lia]).
Qed.

Lemma encoderune_4 r : 65536 <= r <= maxRune -> encoderune r = enc4 r.
Proof.
  unfold maxRune. intros H. unfold encoderune, uint32.
  rewrite Z.mod_small by lia.
  unfold rune1Max, rune2Max, rune3Max, maxRune, surrogateMin, surrogateMax.
  destruct (Z.leb_spec r 127); [lia|]. destruct (Z.leb_spec r 2047); [lia|].
  destruct (Z.ltb_spec 1114111 r); [lia|].
  destruct (Z.leb_spec 55296 r), (Z.leb_spec r 57343); cbn [andb orb]; try lia;
    (destruct (Z.leb_spec r 65535); [lia | reflexivity]).
Qed.

Lemma encoderune_invalid r :
  int32_range r -> ~ valid_rune r -> encoderune r = [239; 191; 189].
Proof.
  unfold int32_range, valid_rune, maxRune, surrogateMin, surrogateMax.
  intros Hr Hv. unfold encoderune, uint32.
  unfold rune1Max, rune2Max, rune3Max, maxRune, surrogateMin, surrogateMax.
  assert (Hm : (0 <= r /\ r mod 2 ^ 32 = r)
               \/ (r < 0 /\ r mod 2 ^ 32 = r + 2 ^ 32)).
  { destruct (Z.lt_ge_cases r 0).
    - right. split; [lia|]. symmetry. apply (Z.mod_unique _ _ (-1)); lia.
    - left. split; [lia|]. apply Z.mod_small. lia. }
  destruct Hm as [[Hpos ->] | [Hneg ->]].
  - destruct (Z.leb_spec r 127); [lia|]. destruct (Z.leb_spec r 2047); [lia|].
    destruct (Z.ltb_spec 1114111 r); cbn [orb]; [reflexivity|].
    destruct (Z.leb_spec 55296 r), (Z.leb_spec r 57343); cbn [andb]; try lia.
    reflexivity.
  - destruct (Z.leb_spec (r + 2 ^ 32) 127); [lia|].
    destruct (Z.leb_spec (r + 2 ^ 32) 2047); [lia|].
    destruct (Z.ltb_spec 1114111 (r + 2 ^ 32)); [reflexivity | lia].
Qed.

(** Decoding what [encoderune] wrote for a rune above the ASCII range. *)
Lemma decoderune_encoderune r rest :
  valid_rune r -> 128 <= r ->
  decoderune (encoderune r ++ rest) = (r, length (encoderune r)).
Proof.
  unfold valid_rune. intros [Hr Hs] Hlo.
  destruct (Z.le_gt_cases r 2047) as [H2 | H2].
  - rewrite encoderune_2 by lia. cbn [app length].
    rewrite decoderune_2 by arith. f_equal. arith.
  - destruct (Z.le_gt_cases r 65535) as [H3 | H3].
    + rewrite encoderune_3, enc3_arith by lia. cbn [app length].
      assert (E : (224 + r / 4096 - 224) * 4096
                  + (128 + (r / 64) mod 64 - 128) * 64
                  + (128 + r mod 64 - 128) = r) by arith.
      rewrite decoderune_3; rewrite ?E; try lia; try arith.
      reflexivity.
    + unfold maxRune in *. rewrite encoderune_4, enc4_arith by (unfold maxRune; lia).
      cbn [app length].
      assert (E : (240 + r / 262144 - 240) * 262144
                  + (128 + (r / 4096) mod 64 - 128) * 4096
                  + (128 + (r / 64) mod 64 - 128) * 64
                  + (128 + r mod 64 - 128) = r) by arith.
      rewrite decoderune_4; rewrite ?E; unfold maxRune; try lia; try arith.
      reflexivity.
Qed.

Lemma encoderune_head r :
  valid_rune r -> 128 <= r ->
  exists c tl, encoderune r = c :: tl /\ 128 <= c.
Proof.
  unfold valid_rune. intros [Hr Hs] Hlo.
  destruct (Z.le_gt_cases r 2047) as [H2 | H2].
  - rewrite encoderune_2 by lia. eexists _, _. split; [reflexivity | arith].
  - destruct (Z.le_gt_cases r 65535) as [H3 | H3].
    + rewrite encoderune_3, enc3_arith by lia.
      eexists _, _. split; [reflexivity | arith].
    + unfold maxRune in Hr.
      rewrite encoderune_4, enc4_arith by (unfold maxRune; lia).
      eexists _, _. split; [reflexivity | arith].
Qed.

(** The bytes of the rune decoded last are passed over. *)
Lemma stringtoslicerune_from_skip l rest :
  stringtoslicerune_from (length l) (l ++ rest) = stringtoslicerune_from 0 rest.
Proof. induction l as [|c l IH]; [reflexivity | exact IH]. Qed.

Lemma stringtoslicerune_encoderune r rest :
  valid_rune r ->
  stringtoslicerune_from 0 (encoderune r ++ rest)
  = r :: stringtoslicerune_from 0 rest.
Proof.
  intros Hv. destruct (Z.lt_ge_cases r 128) as [Hlo | Hhi].
  - rewrite encoderune_1 by (unfold valid_rune in Hv; lia).
    cbn [app stringtoslicerune_from].
    destruct (Z.ltb_spec r 128); [reflexivity | lia].
  - pose proof (decoderune_encoderune r rest Hv Hhi) as Hd.
    destruct (encoderune_head r Hv Hhi) as (c & tl & E & Hc).
    rewrite E in *. cbn [app length] in *.
    cbn [stringtoslicerune_from].
    destruct (Z.ltb_spec c 128); [lia|].
    rewrite Hd. cbn [Nat.pred]. f_equal. apply stringtoslicerune_from_skip.
Qed.

Lemma stringtoslicerune_invalid r rest :
  int32_range r -> ~ valid_rune r ->
  stringtoslicerune_from 0 (encoderune r ++ rest)
  = runeError :: stringtoslicerune_from 0 rest.
Proof.
  intros Hr Hv. rewrite encoderune_invalid by assumption. reflexivity.
Qed.

(** [[]rune(string(rs))] keeps the valid runes and turns the others into
    U+FFFD. *)
Theorem runes_of_string_of_runes rs :
  Forall int32_range rs ->
  stringtoslicerune (slicerunetostring rs) = map to_valid rs.
Proof.
  unfold stringtoslicerune, slicerunetostring.
  induction 1 as [|r rs Hr _ IH]; [reflexivity|].
  cbn [flat_map map]. unfold to_valid.
  destruct (valid_runeb r) eqn:E.
  - apply valid_runeb_spec in E.
    now rewrite stringtoslicerune_encoderune, IH.
  - rewrite stringtoslicerune_invalid, IH; try easy.
    intros Hv. apply valid_runeb_spec in Hv. congruence.
Qed.

Theorem runes_of_string_of_valid_runes rs :
  Forall valid_rune rs ->
  stringtoslicerune (slicerunetostring rs) = rs.
Proof.
  unfold stringtoslicerune, slicerunetostring.
  induction 1 as [|r rs Hr _ IH]; [reflexivity|].
  cbn [flat_map]. now rewrite stringtoslicerune_encoderune, IH.
Qed.

(** Bytes below 0x80 are their own runes. *)
Lemma stringtoslicerune_ascii s :
  Forall (fun c => c < 128) s -> stringtoslicerune s = s.
Proof.
  unfold stringtoslicerune.
  induction 1 as [|c s Hc _ IH]; [reflexivity|].
  cbn [stringtoslicerune_from].
  destruct (Z.ltb_spec c 128); [now rewrite IH | lia].
Qed.

(** A few conversions, run. *)
Example stringtoslicerune_euro :
  stringtoslicerune [226; 130; 172] = [8364]
  /\ slicerunetostring [8364] = [226; 130; 172]
  /\ stringtoslicerune [97; 255; 98] = [97; runeError; 98]
  /\ slicerunetostring [55296] = [239; 191; 189].
Proof. repeat split; reflexivity. Qed.

End GoFacts.

(* ===================================================================== *)
(** * Properties of the key stream                                        *)
(* ===================================================================== *)

Module CoreFacts.
Import Go Os Core CoreSpec KeysSpec GoFacts.

(** ** Pop, PopKey, PeekKey and Feed *)

Lemma Pop_pending k b rest :
  buf k = b :: rest ->
  fst (Pop k) = (b, false)
  /\ buf (snd (Pop k)) = rest /\ macroKeys (snd (Pop k)) = macroKeys k.
Proof. intros H. unfold Pop. rewrite H. cbn. auto. Qed.

Lemma Pop_macro k r rest :
  buf k = [] -> macroKeys k = r :: rest ->
  fst (Pop k) = (byte r, false)
  /\ buf (snd (Pop k)) = [] /\ macroKeys (snd (Pop k)) = rest.
Proof. intros Hb Hm. unfold Pop. rewrite Hb, Hm. cbn. auto. Qed.

Lemma Pop_empty k :
  buf k = [] -> macroKeys k = [] -> Pop k = ((0, true), k).
Proof. intros Hb Hm. unfold Pop. now rewrite Hb, Hm. Qed.

(** Popping as many keys as there are at the head of the macro queue,
    with nothing pending, returns them in order and leaves the rest. *)
Lemma PopN_macro ks : forall k rest,
  buf k = [] -> macroKeys k = ks ++ rest ->
  fst (PopN (length ks) k) = map byte ks
  /\ buf (snd (PopN (length ks) k)) = []
  /\ macroKeys (snd (PopN (length ks) k)) = rest.
Proof.
  induction ks as [|r ks IH]; intros k rest Hb Hm; [cbn; auto|].
  cbn [length PopN]. unfold Pop. rewrite Hb, Hm. cbn [app].
  match goal with
  | |- context [PopN _ ?k1] =>
    destruct (IH k1 rest) as (H1 & H2 & H3); [cbn; assumption | reflexivity |];
    destruct (PopN (length ks) k1) as [keys1 k2]
  end.
  cbn in *. subst. auto.
Qed.

(** Popping the pending bytes returns them in order. *)
Lemma PopN_pending bs : forall k rest,
  buf k = bs ++ rest ->
  fst (PopN (length bs) k) = bs
  /\ buf (snd (PopN (length bs) k)) = rest
  /\ macroKeys (snd (PopN (length bs) k)) = macroKeys k.
Proof.
  induction bs as [|b bs IH]; intros k rest Hb; [cbn; auto|].
  cbn [length PopN]. unfold Pop. rewrite Hb. cbn [app].
  match goal with
  | |- context [PopN _ ?k1] =>
    destruct (IH k1 rest) as (H1 & H2 & H3); [reflexivity |];
    destruct (PopN (length bs) k1) as [keys1 k2]
  end.
  cbn in *. subst. auto.
Qed.

Lemma Feed_front k ks :
  macroKeys (Feed k true ks)
  = stringtoslicerune (slicerunetostring ks) ++ macroKeys k
  /\ buf (Feed k true ks) = buf k.
Proof.
  unfold Feed, len. destruct ks as [|r ks]; [cbn; auto|].
  cbn [length]. destruct (Z.eqb_spec (Z.of_nat (S (length ks))) 0); [lia|].
  cbn. auto.
Qed.

(** C1, as the code has it.  [Pop], [PopKey] and [PeekKey] prefer the
    pending buffer to the macro queue.  While a byte is pending, it is
    the key returned (and [Pop] leaves the macro queue alone); with
    nothing pending, the key is the low byte of the first macro key,
    [byte(key)]; with both empty the key is zero and the empty flag is
    set.  [Feed] with [begin = true] puts its keys, as
    [[]rune(string(keys))], in front of the macro queue: these are the
    given keys when they are Unicode scalar values, and U+FFFD stands for
    every other; with nothing pending the next [Pop]s return their low
    bytes, in order, before the keys that were queued already. *)
Theorem pop_peek_prefer_pending (k : Keys) :
  (forall b rest, buf k = b :: rest ->
     PeekKey k = (b, false) /\ fst (PopKey k) = (b, false)
     /\ fst (Pop k) = (b, false)
     /\ buf (snd (Pop k)) = rest /\ macroKeys (snd (Pop k)) = macroKeys k)
  /\ (forall r rest, buf k = [] -> macroKeys k = r :: rest ->
     PeekKey k = (byte r, false) /\ fst (PopKey k) = (byte r, false)
     /\ fst (Pop k) = (byte r, false)
     /\ buf (snd (Pop k)) = [] /\ macroKeys (snd (Pop k)) = rest)
  /\ (buf k = [] -> macroKeys k = [] ->
     PeekKey k = (0, true) /\ PopKey k = ((0, true), k)
     /\ Pop k = ((0, true), k))
  /\ (forall ks,
     macroKeys (Feed k true ks)
     = stringtoslicerune (slicerunetostring ks) ++ macroKeys k
     /\ buf (Feed k true ks) = buf k)
  /\ (forall ks, Forall valid_rune ks ->
     macroKeys (Feed k true ks) = ks ++ macroKeys k
     /\ (buf k = [] ->
         fst (PopN (length ks) (Feed k true ks)) = map byte ks
         /\ macroKeys (snd (PopN (length ks) (Feed k true ks))) = macroKeys k))
  /\ (forall ks, Forall int32_range ks ->
     macroKeys (Feed k true ks) = map to_valid ks ++ macroKeys k
     /\ (buf k = [] ->
         fst (PopN (length ks) (Feed k true ks)) = map byte (map to_valid ks)
         /\ macroKeys (snd (PopN (length ks) (Feed k true ks))) = macroKeys k))
  /\ (forall r, byte r = r <-> 0 <= r < 256).
Proof.
  assert (Hbyte : forall r, byte r = r <-> 0 <= r < 256).
  { intros r. rewrite byte_mod. split.
    - intros <-. apply Z.mod_pos_bound. lia.
    - intros H. now apply Z.mod_small. }
  assert (Hany : forall ks, Forall int32_range ks ->
     macroKeys (Feed k true ks) = map to_valid ks ++ macroKeys k
     /\ (buf k = [] ->
         fst (PopN (length ks) (Feed k true ks)) = map byte (map to_valid ks)
         /\ macroKeys (snd (PopN (length ks) (Feed k true ks))) = macroKeys k)).
  { intros ks Hks. destruct (Feed_front k ks) as [Hm Hb].
    rewrite runes_of_string_of_runes in Hm by assumption.
    split; [exact Hm|]. intros Hbk.
    destruct (PopN_macro (map to_valid ks) (Feed k true ks) (macroKeys k))
      as (P1 & _ & P3); [congruence | exact Hm |].
    rewrite length_map in P1, P3. split; assumption. }
  split; [|split; [|split; [|split; [|split; [|split; [exact Hany | exact Hbyte]]]]]];
    repeat split.
  - unfold PeekKey. now rewrite H.
  - unfold PopKey. now rewrite H.
  - now apply (Pop_pending k b rest).
  - now apply (Pop_pending k b rest).
  - now apply (Pop_pending k b rest).
  - unfold PeekKey. now rewrite H, H0.
  - unfold PopKey. now rewrite H, H0.
  - now apply (Pop_macro k r rest).
  - now apply (Pop_macro k r rest).
  - now apply (Pop_macro k r rest).
  - unfold PeekKey. now rewrite H, H0.
  - unfold PopKey. now rewrite H, H0.
  - now apply Pop_empty.
  - apply Feed_front.
  - apply Feed_front.
  - destruct (Feed_front k ks) as [-> _].
    now rewrite runes_of_string_of_valid_runes.
  - destruct (Feed_front k ks) as [Hm Hb].
    rewrite runes_of_string_of_valid_runes in Hm by assumption.
    apply (PopN_macro ks (Feed k true ks) (macroKeys k)); congruence.
  - destruct (Feed_front k ks) as [Hm Hb].
    rewrite runes_of_string_of_valid_runes in Hm by assumption.
    apply (PopN_macro ks (Feed k true ks) (macroKeys k)); congruence.
Qed.

(** ** MatchedPrefix and FlushUsed *)

Lemma MatchedPrefix_buf k b : buf (MatchedPrefix k b) = b ++ buf k.
Proof.
  unfold MatchedPrefix, len. destruct b as [|c b]; [reflexivity|].
  cbn [length]. destruct (Z.eqb_spec (Z.of_nat (S (length b))) 0); [lia|].
  reflexivity.
Qed.

Lemma FlushUsed_frame k :
  buf (FlushUsed k) = buf k /\ macroKeys (FlushUsed k) = macroKeys k
  /\ mustWait (FlushUsed k) = mustWait k.
Proof. unfold FlushUsed. destruct (matchedLen k =? 0); cbn; auto. Qed.

(** C3, as the code has it.  [MatchedPrefix] puts the prefix back in
    front of the pending bytes and [FlushUsed] does not touch the pending
    buffer: after the two calls the buffer is the prefix followed by what
    was pending before.  So when the prefix is what [n] calls of [Pop]
    took from the pending buffer, the buffer is again what it was before
    these calls; no byte is lost and none is there twice. *)
Theorem matched_prefix_flush_restores_popped :
  (forall k b,
     buf (FlushUsed (MatchedPrefix k b)) = b ++ buf k
     /\ buf (FlushUsed (MatchedPrefix k b)) = buf (MatchedPrefix k b))
  /\ (forall k0 n, (n <= length (buf k0))%nat ->
        let popped := fst (PopN n k0) in
        let k := snd (PopN n k0) in
        length popped = n
        /\ buf (FlushUsed (MatchedPrefix k popped)) = buf k0).
Proof.
  split.
  - intros k b. destruct (FlushUsed_frame (MatchedPrefix k b)) as [-> _].
    split; [apply MatchedPrefix_buf | reflexivity].
  - intros k0 n Hn popped k.
    destruct (PopN_pending (firstn n (buf k0)) k0 (skipn n (buf k0)))
      as (H1 & H2 & _); [now rewrite firstn_skipn|].
    rewrite length_firstn, Nat.min_l in H1, H2 by assumption.
    fold popped in H1. fold k in H2.
    destruct (FlushUsed_frame (MatchedPrefix k popped)) as [-> _].
    rewrite MatchedPrefix_buf, H1, H2, firstn_skipn.
    split; [|reflexivity]. rewrite length_firstn. lia.
Qed.

(** C9.  [Feed] without keys and [MatchedPrefix] without bytes return the
    key stream as it is, every field included. *)
Theorem feed_prefix_nothing_noop (k : Keys) (begin : bool) :
  Feed k begin [] = k /\ MatchedPrefix k [] = k.
Proof. split; reflexivity. Qed.

(** ** WaitAvailableKeys *)

Lemma reads_snoc lg e :
  reads (lg ++ [e]) = (reads lg + (if is_read e then 1 else 0))%nat.
Proof.
  unfold reads. rewrite filter_app, length_app. cbn.
  destruct (is_read e); reflexivity.
Qed.

Lemma os_Stdin_Read_effect n w :
  let '(r, w') := os_Stdin_Read n w in
  keys w' = keys w /\ log w' = log w ++ [EvRead (fst r) (snd r)]
  /\ (r, stdin w') = Read n (stdin w).
Proof.
  unfold os_Stdin_Read. destruct (Read n (stdin w)) as [r dev'] eqn:E.
  cbn. auto.
Qed.

(** A read takes something off the device, or finds it at its end. *)
Lemma Read_progress n dev :
  (0 < n)%nat ->
  let '((bs, err), dev') := Read n dev in
  (dev_size dev' < dev_size dev)%nat \/ (dev = [] /\ err = Some EOF /\ dev' = []).
Proof.
  intros Hn. destruct dev as [|[bs|e] dev]; cbn [Read].
  - right. auto.
  - destruct (Nat.leb_spec (length bs) n); left; cbn.
    + lia.
    + rewrite length_skipn. lia.
  - left. cbn. lia.
Qed.


Lemma kept_trans k1 k2 k3 : kept k1 k2 -> kept k2 k3 -> kept k1 k3.
Proof.
  unfold kept.
  intros ([n1 B1] & R1 & M1 & A1 & L1 & W1 & D1 & T1)
         ([n2 B2] & R2 & M2 & A2 & L2 & W2 & D2 & T2).
  repeat split; try congruence.
  - exists (n1 ++ n2). now rewrite B2, B1, app_assoc.
  - intros H. rewrite R2, R1; congruence.
Qed.

Lemma kept_channels k c o : kept k (set_keysOnce o (set_cursor c k)).
Proof.
  unfold kept. cbn. repeat split; try reflexivity.
  exists []. now rewrite app_nil_r.
Qed.

Lemma kept_cursor k c : kept k (set_cursor c k).
Proof.
  unfold kept. cbn. repeat split; try reflexivity.
  exists []. now rewrite app_nil_r.
Qed.

Lemma kept_keysOnce k c : kept k (set_keysOnce c k).
Proof.
  unfold kept. cbn. repeat split; try reflexivity.
  exists []. now rewrite app_nil_r.
Qed.

(** A send that goes through leaves a record and changes the channel
    only. *)
Lemma send_cursor_Some msg w w' :
  send_cursor msg w = Some w' ->
  exists ch, w' = mkWorld (set_cursor ch (keys w)) (stdin w)
                          (log w ++ [EvSend "cursor" msg]).
Proof.
  unfold send_cursor. destruct (chan_send msg (cursor (keys w))) as [ch|];
    [|discriminate].
  intros [= <-]. now exists ch.
Qed.

Lemma send_keysOnce_Some msg w w' :
  send_keysOnce msg w = Some w' ->
  exists ch, w' = mkWorld (set_keysOnce ch (keys w)) (stdin w)
                          (log w ++ [EvSend "keysOnce" msg]).
Proof.
  unfold send_keysOnce. destruct (chan_send msg (keysOnce (keys w))) as [ch|];
    [|discriminate].
  intros [= <-]. now exists ch.
Qed.

Lemma chan_send_awaited msg ch :
  chan_send msg ch = None <-> ~ (exists n h, ch = Made (S n) h).
Proof.
  destruct ch as [|[|n] h]; cbn; split; try reflexivity; try discriminate.
  - intros _ (n & h' & H). discriminate H.
  - intros _ (n & h' & H). discriminate H.
  - intros H. destruct H. eauto.
Qed.

Lemma send_cursor_None msg w :
  send_cursor msg w = None <-> ~ answer_awaited (keys w).
Proof.
  unfold send_cursor, answer_awaited. rewrite <- (chan_send_awaited msg).
  destruct (chan_send msg (cursor (keys w))); split; congruence.
Qed.

(** [readInputFiltered], read by read: the reads that bring no cursor
    answer. *)
Lemma readInputFiltered_cases w :
  match stdin w with
  | [] =>
    readInputFiltered w
    = (Done ([], Some EOF), mkWorld (keys w) [] (log w ++ [EvRead [] (Some EOF)]))
  | Fail e :: dev =>
    readInputFiltered w
    = (Done ([], if is_EOF e then Some e else None),
       mkWorld (keys w) dev (log w ++ [EvRead [] (Some e)]))
  | Data bs :: dev =>
    (length bs <= keyScanBufSize)%nat ->
    rxRcvCursorPos_first bs = None ->
    readInputFiltered w
    = (Done (bs, None), mkWorld (keys w) dev (log w ++ [EvRead bs None]))
  end.
Proof.
  unfold readInputFiltered, os_Stdin_Read.
  destruct (stdin w) as [|[bs|e] dev]; cbn [Read].
  - reflexivity.
  - intros Hl Hno. destruct (Nat.leb_spec (length bs) keyScanBufSize); [|lia].
    cbn [fst snd]. unfold extractCursorPos. rewrite Hno.
    change (0 <? len (@nil Z)) with false. reflexivity.
  - cbn [fst snd]. destruct (is_EOF e); reflexivity.
Qed.

(** A read that brings a cursor answer: the answer is sent on, when a
    receive waits for it, and the other bytes are returned; when no
    receive waits the call waits at the send. *)
Lemma readInputFiltered_answer w bs dev m :
  stdin w = Data bs :: dev -> (length bs <= keyScanBufSize)%nat ->
  rxRcvCursorPos_first bs = Some m ->
  let w1 := mkWorld (keys w) dev (log w ++ [EvRead bs None]) in
  fst (extractCursorPos bs) <> []
  /\ (~ answer_awaited (keys w) -> readInputFiltered w = (Blocked, w1))
  /\ (forall n h, cursor (keys w) = Made (S n) h ->
      readInputFiltered w
      = (Done (snd (extractCursorPos bs), None),
         mkWorld (set_cursor (Made n (h ++ [fst (extractCursorPos bs)])) (keys w))
                 dev
                 (log w ++ [EvRead bs None;
                            EvSend "cursor" (fst (extractCursorPos bs))]))).
Proof.
  intros Hs Hl Hm w1.
  assert (Hcur : fst (extractCursorPos bs) <> []).
  { unfold extractCursorPos. rewrite Hm. cbn [fst].
    assert (Hne : rxRcvCursorPos_all 0 bs <> []).
    { clear -Hm. induction bs as [|c bs IH];
        cbn [rxRcvCursorPos_first rxRcvCursorPos_all] in *.
      - cbn in Hm. discriminate.
      - destruct (rxRcvCursorPos_here (c :: bs)); [discriminate | auto]. }
    assert (Hall : forall s skip x, In x (rxRcvCursorPos_all skip s) -> x <> []).
    { clear. induction s as [|c s IH]; intros skip x; cbn [rxRcvCursorPos_all];
        [easy|].
      destruct skip as [|n]; [|apply IH].
      destruct (rxRcvCursorPos_here (c :: s)) as [m|] eqn:E; [|apply IH].
      intros [<- | Hin]; [|exact (IH _ x Hin)].
      unfold rxRcvCursorPos_here in E.
      destruct s as [|c1 s1]; [discriminate|].
      destruct ((c =? 27) && (c1 =? 91)); [|discriminate].
      destruct (digits s1) as [row [|c2 s2]]; [discriminate|].
      destruct ((0 <? Z.of_nat (length row)) && (c2 =? 59)); [|discriminate].
      destruct (digits s2) as [col [|c3 s3]]; [discriminate|].
      destruct ((0 <? Z.of_nat (length col)) && (c3 =? 82)); [|discriminate].
      injection E as <-. cbn. discriminate. }
    apply (Hall bs 0%nat).
    rewrite (app_removelast_last [] Hne) at 2.
    apply in_or_app. right. now left. }
  assert (Hlen : (0 <? len (fst (extractCursorPos bs))) = true).
  { unfold len. destruct (fst (extractCursorPos bs)); [congruence|].
    apply Z.ltb_lt. cbn [length]. lia. }
  split; [exact Hcur|].
  unfold readInputFiltered, os_Stdin_Read. rewrite Hs. cbn [Read].
  destruct (Nat.leb_spec (length bs) keyScanBufSize); [|lia].
  cbn [fst snd]. destruct (extractCursorPos bs) as [cur ks]. cbn [fst snd] in *.
  rewrite Hlen. split.
  - intros Hna.
    assert (E : send_cursor cur (emit (EvRead bs None)
                                      (mkWorld (keys w) dev (log w))) = None).
    { apply send_cursor_None. exact Hna. }
    rewrite E. reflexivity.
  - intros n h Hch. unfold send_cursor, emit. cbn [keys stdin log].
    rewrite Hch. cbn [chan_send upd_keys keys stdin log].
    now rewrite <- app_assoc.
Qed.

(** What every call of [readInputFiltered] does: one read, and nothing
    changed in the key stream but the channel of the cursor answers. *)
Lemma readInputFiltered_effect w :
  let r := fst (readInputFiltered w) in
  let w' := snd (readInputFiltered w) in
  reads (log w') = S (reads (log w))
  /\ (exists ch, keys w' = set_cursor ch (keys w))
  /\ r <> OutOfFuel
  /\ ((dev_size (stdin w') < dev_size (stdin w))%nat
      \/ (exists ks, r = Done (ks, Some EOF)) /\ stdin w' = []).
Proof.
  intros r w'. subst r w'. unfold readInputFiltered.
  pose proof (os_Stdin_Read_effect keyScanBufSize w) as He.
  destruct (os_Stdin_Read keyScanBufSize w) as [[bs err] w1].
  destruct He as (Hk & Hl & Hr). cbn [fst snd] in Hl.
  pose proof (Read_progress keyScanBufSize (stdin w)) as Hp.
  rewrite <- Hr in Hp. specialize (Hp ltac:(unfold keyScanBufSize; lia)).
  assert (Hreads : reads (log w1) = S (reads (log w))).
  { rewrite Hl, reads_snoc. cbn. lia. }
  assert (Hsame : exists ch, keys w1 = set_cursor ch (keys w)).
  { exists (cursor (keys w)). rewrite Hk. now destruct (keys w). }
  destruct (match err with Some e => is_EOF e | None => false end) eqn:Heof.
  - cbn [fst snd]. repeat split; try assumption; try discriminate.
    destruct Hp as [Hp | (_ & -> & Hp)]; [now left | right; eauto].
  - assert (Hp' : (dev_size (stdin w1) < dev_size (stdin w))%nat).
    { destruct Hp as [Hp | (_ & -> & _)]; [assumption | discriminate]. }
    destruct (extractCursorPos bs) as [cur ks].
    destruct (0 <? len cur).
    + destruct (send_cursor cur w1) as [w2|] eqn:Hsend; cbn [fst snd].
      * destruct (send_cursor_Some _ _ _ Hsend) as [ch ->].
        cbn [log stdin keys]. rewrite reads_snoc, Hk. cbn [is_read].
        repeat split; try discriminate; try lia; auto.
        exists ch. now destruct (keys w).
      * repeat split; try assumption; try discriminate. now left.
    + cbn [fst snd]. repeat split; try assumption; try discriminate. now left.
Qed.

Lemma readInputFiltered_kept w :
  kept (keys w) (keys (snd (readInputFiltered w))).
Proof.
  destruct (readInputFiltered_effect w) as (_ & [ch ->] & _).
  apply kept_cursor.
Qed.

(** The loop of [WaitAvailableKeys] ends or comes to wait at a send, after
    one read at least; the key stream is then as [kept] tells. *)
Lemma WaitAvailableKeys_loop_spec fuel : forall w,
  (dev_size (stdin w) < fuel)%nat ->
  fst (WaitAvailableKeys_loop fuel w) <> OutOfFuel
  /\ (reads (log w) < reads (log (snd (WaitAvailableKeys_loop fuel w))))%nat
  /\ kept (keys w) (keys (snd (WaitAvailableKeys_loop fuel w))).
Proof.
  induction fuel as [|fuel IH]; intros w Hf; [lia|].
  cbn [WaitAvailableKeys_loop].
  pose proof (readInputFiltered_effect w) as He.
  pose proof (readInputFiltered_kept w) as Hk.
  destruct (readInputFiltered w) as [[[ks err]| |] w1]; cbn [fst snd] in *;
    destruct He as (Hr & _ & Hne & Hp).
  - destruct (match err with Some e => is_EOF e | None => false end) eqn:Heof.
    + cbn. split; [discriminate | split; [lia | exact Hk]].
    + assert (Hp' : (dev_size (stdin w1) < dev_size (stdin w))%nat).
      { destruct Hp as [Hp | [[ks' [= -> ->]] _]]; [assumption | discriminate]. }
      destruct (len ks =? 0).
      * destruct (IH w1 ltac:(lia)) as (H1 & H2 & H3).
        split; [assumption | split; [lia | now apply (kept_trans _ _ _ Hk)]].
      * destruct (reading (keys w1)) eqn:Hrd.
        -- destruct (send_keysOnce ks w1) as [w2|] eqn:Hsend.
           ++ destruct (send_keysOnce_Some _ _ _ Hsend) as [ch ->].
              match goal with
              | |- context [WaitAvailableKeys_loop fuel ?w2] =>
                destruct (IH w2 ltac:(cbn; lia)) as (H1 & H2 & H3)
              end.
              cbn [log] in H2. rewrite reads_snoc in H2. cbn [is_read] in H2.
              cbn [keys] in H3.
              split; [assumption | split; [lia|]].
              eapply kept_trans; [exact Hk|].
              eapply kept_trans; [apply kept_keysOnce | exact H3].
           ++ cbn. split; [discriminate | split; [lia | exact Hk]].
        -- cbn. split; [discriminate | split; [lia|]].
           eapply kept_trans; [exact Hk|].
           unfold kept. cbn. repeat split; try reflexivity.
           ++ now exists ks.
           ++ congruence.
  - cbn. split; [discriminate | split; [lia | exact Hk]].
  - congruence.
Qed.

Lemma keys_available_dec k :
  keys_available k <->
  ((0 <? len (buf k)) && negb (mustWait k)) || (0 <? len (macroKeys k)) = true.
Proof.
  unfold keys_available, len.
  rewrite orb_true_iff, andb_true_iff, negb_true_iff, !Z.ltb_lt.
  destruct (buf k), (macroKeys k); cbn [length]; split;
    intros [[H1 H2] | H]; try (left; split; [easy || lia | assumption]);
    try (right; easy || lia); try easy; try lia.
Qed.

Lemma classic_available (w : World) :
  keys_available (keys w) \/ ~ keys_available (keys w).
Proof.
  rewrite keys_available_dec.
  destruct (((0 <? len (buf (keys w))) && negb (mustWait (keys w)))
            || (0 <? len (macroKeys (keys w)))); [left | right]; congruence.
Qed.

Lemma WaitAvailableKeys_at_once w :
  keys_available (keys w) -> WaitAvailableKeys w = (Done tt, w).
Proof.
  intros Ha. apply keys_available_dec in Ha. unfold WaitAvailableKeys.
  destruct ((0 <? len (buf (keys w))) && negb (mustWait (keys w)));
    [reflexivity|].
  cbn in Ha. now rewrite Ha.
Qed.

(** With no key available the call is the loop, between the two
    assignments of [waiting]. *)
Lemma WaitAvailableKeys_waits w :
  ~ keys_available (keys w) ->
  WaitAvailableKeys w
  = match WaitAvailableKeys_loop (S (dev_size (stdin w)))
                                 (upd_keys (set_waiting true) w) with
    | (Done r, w1) => (Done r, upd_keys (set_waiting false) w1)
    | (Blocked, w1) => (Blocked, w1)
    | (OutOfFuel, w1) => (OutOfFuel, w1)
    end.
Proof.
  intros Ha. rewrite keys_available_dec in Ha.
  apply not_true_is_false, orb_false_iff in Ha. destruct Ha as [Ha1 Ha2].
  unfold WaitAvailableKeys. now rewrite Ha1, Ha2.
Qed.

Lemma WaitAvailableKeys_reads w :
  ~ keys_available (keys w) ->
  fst (WaitAvailableKeys w) <> OutOfFuel
  /\ (reads (log w) < reads (log (snd (WaitAvailableKeys w))))%nat.
Proof.
  intros Ha. rewrite (WaitAvailableKeys_waits w Ha).
  destruct (WaitAvailableKeys_loop_spec
              (S (dev_size (stdin w))) (upd_keys (set_waiting true) w))
    as (H1 & H2 & _); [cbn; lia|].
  destruct (WaitAvailableKeys_loop _ _) as [[r| |] w1]; cbn in *;
    (split; [congruence || discriminate | lia]).
Qed.

Lemma length_le_dev_size dev : (length dev <= dev_size dev)%nat.
Proof. induction dev as [|[bs|e] dev IH]; cbn; lia. Qed.

(** The reads that bring nothing are passed over, one turn of the loop
    each. *)
Lemma WaitAvailableKeys_loop_skips skipped : forall fuel w rest,
  Forall (fun e => skippable e = true) skipped ->
  stdin w = skipped ++ rest ->
  WaitAvailableKeys_loop (length skipped + fuel) w
  = WaitAvailableKeys_loop fuel
      (mkWorld (keys w) rest (log w ++ map skipped_read skipped)).
Proof.
  induction skipped as [|e skipped IH]; intros fuel w rest Hs Hd.
  - cbn in *. rewrite app_nil_r. destruct w; cbn in *. now subst.
  - apply Forall_cons in Hs. destruct Hs as [He Hs].
    cbn [length Nat.add WaitAvailableKeys_loop].
    pose proof (readInputFiltered_cases w) as Hc. rewrite Hd in Hc.
    cbn [app] in Hc.
    destruct e as [[|b bs]|er]; cbn in He; try discriminate.
    + rewrite Hc by (unfold keyScanBufSize; cbn; lia || reflexivity).
      change (len (@nil Z) =? 0) with true. cbv iota beta zeta.
      rewrite IH with (rest := rest); [|exact Hs | reflexivity].
      cbn [keys log map skipped_read]. now rewrite <- app_assoc.
    + rewrite Hc. apply negb_true_iff in He. rewrite He.
      change (len (@nil Z) =? 0) with true. cbv iota.
      rewrite IH with (rest := rest); [|exact Hs | reflexivity].
      cbn [keys log map skipped_read]. now rewrite <- app_assoc.
Qed.

Lemma reads_skipped lg skipped :
  reads (lg ++ map skipped_read skipped) = (reads lg + length skipped)%nat.
Proof.
  unfold reads. rewrite filter_app, length_app. f_equal.
  induction skipped as [|[bs|e] sk IH]; [reflexivity| |]; cbn;
    (destruct (decide True); [cbn; now f_equal | tauto]).
Qed.

(** The whole call, when it has to wait: the reads that bring nothing
    are passed over, and the call returns with the first piece typed, or
    at the end of input. *)
Lemma WaitAvailableKeys_run w skipped rest :
  ~ keys_available (keys w) ->
  stdin w = skipped ++ rest ->
  Forall (fun e => skippable e = true) skipped ->
  (forall bs dev, rest = Data bs :: dev -> typed_piece bs ->
     reading (keys w) = false ->
     WaitAvailableKeys w
     = (Done tt,
        mkWorld (set_waiting false (set_buf (buf (keys w) ++ bs) (keys w))) dev
                (log w ++ map skipped_read skipped ++ [EvRead bs None])))
  /\ (at_end rest ->
      WaitAvailableKeys w
      = (Done tt,
         mkWorld (set_waiting false (keys w)) (tl rest)
                 (log w ++ map skipped_read skipped ++ [EvRead [] (Some EOF)]))).
Proof.
  intros Ha Hd Hs. rewrite (WaitAvailableKeys_waits w Ha).
  set (w0 := upd_keys (set_waiting true) w).
  assert (Hfuel : exists fuel,
            S (dev_size (stdin w)) = (length skipped + S fuel)%nat).
  { exists (dev_size (stdin w) - length skipped)%nat.
    pose proof (length_le_dev_size (stdin w)) as Hl.
    rewrite Hd, length_app in Hl. rewrite Hd. lia. }
  destruct Hfuel as [fuel ->].
  rewrite (WaitAvailableKeys_loop_skips skipped (S fuel) w0 rest Hs Hd).
  cbn [WaitAvailableKeys_loop].
  match goal with
  | |- context [readInputFiltered ?w1] =>
    pose proof (readInputFiltered_cases w1) as Hc; cbn [stdin] in Hc
  end.
  split.
  - intros bs dev -> (Hne & Hlen & Hno) Hr.
    rewrite (Hc Hlen Hno).
    assert (Hl0 : (len bs =? 0) = false).
    { unfold len. destruct bs; [congruence|]. cbn [length]. apply Z.eqb_neq. lia. }
    rewrite Hl0. cbn [keys w0 upd_keys reading set_waiting]. rewrite Hr.
    cbn. now rewrite <- app_assoc.
  - intros [-> | [dev ->]]; rewrite Hc; cbn [is_EOF];
      cbn; now rewrite <- app_assoc.
Qed.

(** C4.  [WaitAvailableKeys] returns at once, with no
    read of the device and nothing changed, exactly when a byte is
    pending and the must-wait flag is not set, or the macro queue is not
    empty.  In every other state it reads the device: reads that fail
    (not at the end of input) and reads of no byte are passed over, and
    the call returns when a read brings bytes typed, which are added to
    the pending bytes, or at the end of input; it never goes on for
    ever, but it waits for ever at a send nobody receives.  After
    [MatchedPrefix] has put a prefix back on an empty pending buffer the
    must-wait flag is set, and the next [WaitAvailableKeys] waits for new
    input in this way (the macro queue being empty) although bytes are
    pending. *)
Theorem wait_returns_at_once_iff (w : World) :
  fst (WaitAvailableKeys w) <> OutOfFuel
  /\ (keys_available (keys w) -> WaitAvailableKeys w = (Done tt, w))
  /\ (~ keys_available (keys w) ->
      (reads (log w) < reads (log (snd (WaitAvailableKeys w))))%nat)
  /\ (reads (log (snd (WaitAvailableKeys w))) = reads (log w)
      <-> keys_available (keys w))
  /\ (forall skipped rest,
      ~ keys_available (keys w) -> reading (keys w) = false ->
      stdin w = skipped ++ rest ->
      Forall (fun e => skippable e = true) skipped ->
      (forall bs dev, rest = Data bs :: dev -> typed_piece bs ->
         WaitAvailableKeys w
         = (Done tt,
            mkWorld (set_waiting false (set_buf (buf (keys w) ++ bs) (keys w)))
                    dev
                    (log w ++ map skipped_read skipped ++ [EvRead bs None])))
      /\ (at_end rest ->
          fst (WaitAvailableKeys w) = Done tt
          /\ buf (keys (snd (WaitAvailableKeys w))) = buf (keys w)
          /\ reads (log (snd (WaitAvailableKeys w)))
             = S (reads (log w) + length skipped)))
  /\ (forall prefix, prefix <> [] -> buf (keys w) = [] ->
      let w' := upd_keys (fun k => MatchedPrefix k prefix) w in
      mustWait (keys w') = true /\ buf (keys w') = prefix
      /\ (macroKeys (keys w) = [] ->
          ~ keys_available (keys w')
          /\ (reads (log w') < reads (log (snd (WaitAvailableKeys w'))))%nat
          /\ (forall skipped bs dev,
              reading (keys w) = false ->
              stdin w = skipped ++ Data bs :: dev ->
              Forall (fun e => skippable e = true) skipped ->
              typed_piece bs ->
              fst (WaitAvailableKeys w') = Done tt
              /\ buf (keys (snd (WaitAvailableKeys w'))) = prefix ++ bs
              /\ stdin (snd (WaitAvailableKeys w')) = dev
              /\ reads (log (snd (WaitAvailableKeys w')))
                 = S (reads (log w) + length skipped)))).
Proof.
  split; [|split; [exact (WaitAvailableKeys_at_once w) | split; [|split; [|split]]]].
  - destruct (classic_available w) as [Ha | Ha].
    + rewrite (WaitAvailableKeys_at_once w Ha). discriminate.
    + now apply WaitAvailableKeys_reads.
  - intros Ha. now apply WaitAvailableKeys_reads.
  - split.
    + intros Heq. destruct (classic_available w) as [Ha | Ha]; [assumption|].
      apply WaitAvailableKeys_reads in Ha. lia.
    + intros Ha. now rewrite (WaitAvailableKeys_at_once w Ha).
  - intros skipped rest Ha Hr Hd Hs.
    destruct (WaitAvailableKeys_run w skipped rest Ha Hd Hs) as [Hkeys Hend].
    split.
    + intros bs dev Hrest Ht. exact (Hkeys bs dev Hrest Ht Hr).
    + intros He. rewrite (Hend He). cbn [fst snd keys log buf set_waiting].
      rewrite app_assoc, reads_snoc, reads_skipped. cbn [is_read].
      repeat split; lia.
  - intros prefix Hp Hb w'.
    assert (Hm : mustWait (keys w') = true /\ buf (keys w') = prefix
                 /\ macroKeys (keys w') = macroKeys (keys w)
                 /\ reading (keys w') = reading (keys w)).
    { subst w'. cbn. unfold MatchedPrefix, len.
      destruct prefix as [|c p]; [congruence|]. cbn [length].
      destruct (Z.eqb_spec (Z.of_nat (S (length p))) 0); [lia|].
      cbn. rewrite Hb. cbn. rewrite app_nil_r. auto. }
    destruct Hm as (Hm1 & Hm2 & Hm3 & Hm4). repeat split; try assumption.
    + intros [[_ Hw] | Hq]; congruence.
    + apply WaitAvailableKeys_reads. intros [[_ Hw] | Hq]; congruence.
    + assert (Ha : ~ keys_available (keys w'))
        by (intros [[_ Hw] | Hq]; congruence).
      destruct (WaitAvailableKeys_run w' skipped (Data bs :: dev) Ha H1 H2)
        as [Hkeys _].
      rewrite (Hkeys bs dev eq_refl H3) by congruence. reflexivity.
    + assert (Ha : ~ keys_available (keys w'))
        by (intros [[_ Hw] | Hq]; congruence).
      destruct (WaitAvailableKeys_run w' skipped (Data bs :: dev) Ha H1 H2)
        as [Hkeys _].
      rewrite (Hkeys bs dev eq_refl H3) by congruence.
      cbn [snd keys buf set_waiting set_buf]. now rewrite Hm2.
    + assert (Ha : ~ keys_available (keys w'))
        by (intros [[_ Hw] | Hq]; congruence).
      destruct (WaitAvailableKeys_run w' skipped (Data bs :: dev) Ha H1 H2)
        as [Hkeys _].
      rewrite (Hkeys bs dev eq_refl H3) by congruence. reflexivity.
    + assert (Ha : ~ keys_available (keys w'))
        by (intros [[_ Hw] | Hq]; congruence).
      destruct (WaitAvailableKeys_run w' skipped (Data bs :: dev) Ha H1 H2)
        as [Hkeys _].
      rewrite (Hkeys bs dev eq_refl H3) by congruence.
      cbn [snd log]. rewrite app_assoc, reads_snoc, reads_skipped.
      cbn [is_read]. subst w'. cbn [log upd_keys]. lia.
Qed.

(** ** The cursor answer *)

Lemma digits_spec s :
  forallb is_digit (fst (digits s)) = true /\ s = fst (digits s) ++ snd (digits s).
Proof.
  induction s as [|c s [IH1 IH2]]; [cbn; auto|].
  cbn [digits]. destruct (is_digit c) eqn:E; [|cbn; auto].
  destruct (digits s) as [d r]. cbn [fst snd forallb app] in *.
  rewrite E, IH1. split; [reflexivity | congruence].
Qed.

Lemma rxRcvCursorPos_here_digits s m :
  rxRcvCursorPos_here s = Some m ->
  digit_string (m_row m) /\ digit_string (m_col m).
Proof.
  unfold rxRcvCursorPos_here.
  destruct s as [|c0 [|c1 s1]]; try discriminate.
  destruct ((c0 =? 27) && (c1 =? 91)); [|discriminate].
  pose proof (digits_spec s1) as [Hd1 _].
  destruct (digits s1) as [row [|c2 s2]]; [discriminate|].
  cbn [fst] in Hd1.
  destruct ((0 <? Z.of_nat (length row)) && (c2 =? 59)) eqn:E1; [|discriminate].
  pose proof (digits_spec s2) as [Hd2 _].
  destruct (digits s2) as [col [|c3 s3]]; [discriminate|].
  cbn [fst] in Hd2.
  destruct ((0 <? Z.of_nat (length col)) && (c3 =? 82)) eqn:E2; [|discriminate].
  intros [= <-]. cbn [m_row m_col]. unfold digit_string.
  apply andb_true_iff in E1, E2. destruct E1 as [E1 _], E2 as [E2 _].
  apply Z.ltb_lt in E1, E2.
  repeat split; try assumption; intros ->; cbn in *; lia.
Qed.

Lemma rxRcvCursorPos_first_digits s m :
  rxRcvCursorPos_first s = Some m ->
  digit_string (m_row m) /\ digit_string (m_col m).
Proof.
  induction s as [|c s IH]; cbn [rxRcvCursorPos_first].
  - destruct (rxRcvCursorPos_here []) eqn:E; [|discriminate].
    intros [= <-]. now apply (rxRcvCursorPos_here_digits []).
  - destruct (rxRcvCursorPos_here (c :: s)) eqn:E; [|exact IH].
    intros [= <-]. now apply (rxRcvCursorPos_here_digits (c :: s)).
Qed.

Lemma decimal_nonneg ds :
  forallb is_digit ds = true -> 0 <= decimal ds.
Proof.
  unfold decimal.
  assert (H : forall acc, 0 <= acc -> forallb is_digit ds = true ->
              0 <= fold_left (fun acc c => 10 * acc + (c - 48)) ds acc).
  { induction ds as [|c ds IH]; intros acc Hacc Hd; cbn [fold_left];
      [assumption|].
    cbn [forallb] in Hd. apply andb_true_iff in Hd. destruct Hd as [Hc Hd].
    apply IH; [|assumption].
    unfold is_digit in Hc. apply andb_true_iff in Hc. lia. }
  apply H. lia.
Qed.

(** The number read from a group of the answer is not negative. *)
Lemma Atoi_digit_string s v :
  digit_string s -> Atoi s = Some v -> 0 <= v.
Proof.
  intros [Hne Hd] Ha. unfold Atoi in Ha.
  destruct s as [|c s]; [congruence|].
  assert (Hc : is_digit c = true) by (cbn in Hd; now apply andb_true_iff in Hd).
  unfold is_digit in Hc. apply andb_true_iff in Hc.
  destruct (Z.eqb_spec c 45); [lia|]. destruct (Z.eqb_spec c 43); [lia|].
  cbn [orb] in Ha.
  destruct ((0 <? Z.of_nat (length (c :: s))) && forallb is_digit (c :: s));
    [|discriminate].
  destruct (decimal (c :: s) <=? maxInt); [|discriminate].
  injection Ha as <-. now apply decimal_nonneg.
Qed.

(** On a group of the answer [Atoi] fails exactly when the number does not
    fit an [int]. *)
Lemma Atoi_digit_string_None s :
  digit_string s -> (Atoi s = None <-> maxInt < decimal s).
Proof.
  intros [Hne Hd]. unfold Atoi.
  destruct s as [|c s]; [congruence|].
  assert (Hc : is_digit c = true) by (cbn in Hd; now apply andb_true_iff in Hd).
  unfold is_digit in Hc. apply andb_true_iff in Hc.
  destruct (Z.eqb_spec c 45); [lia|]. destruct (Z.eqb_spec c 43); [lia|].
  cbn [orb]. rewrite Hd.
  replace (0 <? Z.of_nat (length (c :: s))) with true
    by (symmetry; apply Z.ltb_lt; cbn [length]; lia).
  cbn [andb].
  destruct (Z.leb_spec (decimal (c :: s)) maxInt); split;
    try discriminate; try lia; reflexivity.
Qed.

Example Atoi_runs :
  Atoi (bytes_of_string "24") = Some 24
  /\ Atoi (bytes_of_string "9223372036854775807") = Some maxInt
  /\ Atoi (bytes_of_string "9223372036854775808") = None
  /\ Atoi (bytes_of_string "2x") = None.
Proof. repeat split; reflexivity. Qed.

Example extractCursorPos_runs :
  extractCursorPos (bytes_of_string "abcd") = ([], bytes_of_string "abcd")
  /\ extractCursorPos (Sample.answer_24_10 ++ bytes_of_string "x"
                        ++ Sample.answer_huge_row)
     = (Sample.answer_huge_row, bytes_of_string "x").
Proof. split; reflexivity. Qed.

(** ** GetCursorPos *)

Lemma direct_flags k : direct k <-> waiting k || reading k = false.
Proof. unfold direct. rewrite orb_false_iff. reflexivity. Qed.

Lemma len_zero {A} (l : list A) : (len l =? 0) = true -> l = [].
Proof.
  unfold len. destruct l; [reflexivity|].
  cbn [length]. intros H. apply Z.eqb_eq in H. lia.
Qed.

Lemma reads_app lg1 lg2 : reads (lg1 ++ lg2) = (reads lg1 + reads lg2)%nat.
Proof. unfold reads. now rewrite filter_app, length_app. Qed.

Lemma reads_typed lg typed :
  reads (lg ++ map (fun t => EvRead t None) typed) = (reads lg + length typed)%nat.
Proof.
  unfold reads. rewrite filter_app, length_app. f_equal.
  induction typed as [|t typed IH]; [reflexivity|]. cbn.
  destruct (decide True); [cbn; now f_equal | tauto].
Qed.

(** While no answer has come the pieces read go to the pending buffer,
    one turn of the loop each. *)
Lemma GetCursorPos_loop_typed typed : forall fuel w rest,
  direct (keys w) -> Forall typed_piece typed ->
  stdin w = map Data typed ++ rest ->
  GetCursorPos_loop (length typed + fuel) w
  = GetCursorPos_loop fuel
      (mkWorld (set_buf (buf (keys w) ++ concat typed) (keys w)) rest
               (log w ++ map (fun t => EvRead t None) typed)).
Proof.
  induction typed as [|t typed IH]; intros fuel w rest Hdir Ht Hd.
  - cbn in *. rewrite !app_nil_r. destruct w as [[] ? ?]; cbn in *. now subst.
  - apply Forall_cons in Ht. destruct Ht as [(Hne & Hlen & Hno) Ht].
    cbn [length Nat.add GetCursorPos_loop].
    pose proof Hdir as Hflags. apply direct_flags in Hflags. rewrite Hflags.
    unfold os_Stdin_Read. rewrite Hd. cbn [map app Read].
    destruct (Nat.leb_spec (length t) keyScanBufSize); [|lia].
    cbn [fst snd emit keys stdin log].
    assert (Hl0 : (len t =? 0) = false).
    { unfold len. destruct t; [congruence|]. cbn [length]. apply Z.eqb_neq. lia. }
    rewrite Hl0, Hno.
    rewrite IH with (rest := rest); [|exact Hdir | exact Ht | reflexivity].
    unfold emit, upd_keys, set_buf. cbn.
    now rewrite <- !app_assoc.
Qed.

Lemma GetCursorPos_loop_answer fuel w bs dev m :
  direct (keys w) -> stdin w = Data bs :: dev ->
  (length bs <= keyScanBufSize)%nat ->
  rxRcvCursorPos_first bs = Some m ->
  GetCursorPos_loop (S fuel) w
  = (Done (Answer m), mkWorld (keys w) dev (log w ++ [EvRead bs None])).
Proof.
  intros Hd Hs Hlen Hm. cbn [GetCursorPos_loop].
  apply direct_flags in Hd. rewrite Hd.
  unfold os_Stdin_Read. rewrite Hs. cbn [Read].
  destruct (Nat.leb_spec (length bs) keyScanBufSize); [|lia].
  cbn [fst snd emit keys stdin log].
  assert (Hne : (len bs =? 0) = false).
  { destruct bs; [cbn in Hm; discriminate|].
    unfold len. cbn [length]. apply Z.eqb_neq. lia. }
  now rewrite Hne, Hm.
Qed.

(** A read that fails, or brings no byte, ends the loop: the message is
    written and nothing is read after it. *)
Lemma GetCursorPos_loop_gives_up fuel w ev :
  direct (keys w) -> giving_up (stdin w) = Some ev ->
  exists ex,
    GetCursorPos_loop (S fuel) w
    = (Done ex, mkWorld (keys w) (tl (stdin w))
                        (log w ++ [ev; EvStderr disable_msg]))
    /\ match ex with Answer _ => False | _ => True end.
Proof.
  intros Hd Hg. cbn [GetCursorPos_loop].
  apply direct_flags in Hd. rewrite Hd.
  unfold os_Stdin_Read, giving_up in *.
  destruct (stdin w) as [|[[|b bs]|e] dev]; cbn [Read tl] in *;
    try discriminate; injection Hg as <-.
  - exists (ReadFailed EOF). unfold disable, emit. cbn [fst snd keys stdin log].
    rewrite <- app_assoc. auto.
  - exists EmptyRead.
    change (length (@nil Z) <=? keyScanBufSize)%nat with true.
    unfold disable, emit. cbn [fst snd keys stdin log].
    change (len (@nil Z) =? 0) with true. cbv iota.
    rewrite <- app_assoc. auto.
  - exists (ReadFailed e). unfold disable, emit. cbn [fst snd keys stdin log].
    rewrite <- app_assoc. auto.
Qed.

Lemma Atoi_digit_string_value s :
  digit_string s -> decimal s <= maxInt -> Atoi s = Some (decimal s).
Proof.
  intros Hd Hle.
  destruct (Atoi s) as [v|] eqn:E.
  - destruct Hd as [Hne Hd]. unfold Atoi in E.
    destruct s as [|c s]; [congruence|].
    assert (Hc : is_digit c = true) by (cbn in Hd; now apply andb_true_iff in Hd).
    unfold is_digit in Hc. apply andb_true_iff in Hc.
    destruct (Z.eqb_spec c 45); [lia|]. destruct (Z.eqb_spec c 43); [lia|].
    cbn [orb] in E.
    destruct ((0 <? Z.of_nat (length (c :: s))) && forallb is_digit (c :: s));
      [|discriminate].
    destruct (decimal (c :: s) <=? maxInt); [|discriminate]. now symmetry.
  - apply (Atoi_digit_string_None s Hd) in E. lia.
Qed.

(** The call up to the end of its loop, when it reads the device
    itself. *)
Lemma GetCursorPos_run w typed rest :
  direct (keys w) -> stdin w = map Data typed ++ rest ->
  Forall typed_piece typed ->
  exists fuel,
    GetCursorPos w
    = GetCursorPos_answer_of
        (GetCursorPos_loop (S fuel)
           (mkWorld (set_buf (buf (keys w) ++ concat typed)
                             (set_cursor make_chan (keys w)))
                    rest
                    (log w ++ [EvStdout cursor_query]
                           ++ map (fun t => EvRead t None) typed))).
Proof.
  intros Hdir Hd Ht.
  unfold GetCursorPos, GetCursorPos_answer, GetCursorPos_fuel.
  set (w0 := GetCursorPos_query w).
  assert (Hdir0 : direct (keys w0)) by exact Hdir.
  assert (Hd0 : stdin w0 = map Data typed ++ rest) by exact Hd.
  assert (Hfuel : exists fuel,
            S (dev_size (stdin w0) + length (handed_on (cursor (keys w0))))
            = (length typed + S fuel)%nat).
  { exists (dev_size (stdin w0) + length (handed_on (cursor (keys w0)))
            - length typed)%nat.
    pose proof (length_le_dev_size (stdin w0)) as Hl.
    rewrite Hd0, length_app, length_map in Hl. rewrite Hd0. lia. }
  destruct Hfuel as [fuel ->]. exists fuel.
  rewrite (GetCursorPos_loop_typed typed (S fuel) w0 rest Hdir0 Ht Hd0).
  unfold w0, GetCursorPos_query, emit. cbn [keys stdin log upd_keys].
  now rewrite <- !app_assoc.
Qed.

(** C7, as the code has it.  [GetCursorPos] called while the main loop
    waits or reads does not read the device: it waits for the answer on
    its channel.  Otherwise it reads the device itself, and the pieces
    typed before the answer are kept.  When the next read fails, at the
    end of input or on any error, or brings no byte, the call returns
    (-1, -1): the message is written and nothing is read again, what
    follows on the device stays there.  When the next read brings a
    cursor answer, the call returns (-1, -1) exactly when the row or the
    column does not fit an [int], and the column and the row
    otherwise. *)
Theorem GetCursorPos_degraded_iff
        (w : World) (typed : list gostring) (rest : Device) :
  stdin w = map Data typed ++ rest ->
  Forall typed_piece typed ->
  let res := fst (GetCursorPos w) in
  let w' := snd (GetCursorPos w) in
  (~ direct (keys w) ->
   res = Blocked /\ stdin w' = stdin w
   /\ log w' = log w ++ [EvStdout cursor_query])
  /\ (direct (keys w) ->
      (forall ev, giving_up rest = Some ev ->
         res = Done (-1, -1)
         /\ buf (keys w') = buf (keys w) ++ concat typed
         /\ stdin w' = tl rest
         /\ log w' = log w ++ [EvStdout cursor_query]
                      ++ map (fun t => EvRead t None) typed
                      ++ [ev; EvStderr disable_msg])
      /\ (forall ans dev m, rest = Data ans :: dev ->
            (length ans <= keyScanBufSize)%nat ->
            rxRcvCursorPos_first ans = Some m ->
            stdin w' = dev
            /\ reads (log w') = S (reads (log w) + length typed)
            /\ (res = Done (-1, -1)
                <-> maxInt < decimal (m_row m) \/ maxInt < decimal (m_col m))
            /\ (decimal (m_row m) <= maxInt -> decimal (m_col m) <= maxInt ->
                res = Done (decimal (m_col m), decimal (m_row m))))
      /\ (giving_up rest <> None
          \/ (exists ans dev m, rest = Data ans :: dev
                /\ (length ans <= keyScanBufSize)%nat
                /\ rxRcvCursorPos_first ans = Some m) ->
          (res = Done (-1, -1)
           <-> giving_up rest <> None
               \/ exists ans dev m,
                    rest = Data ans :: dev /\ rxRcvCursorPos_first ans = Some m
                    /\ (maxInt < decimal (m_row m)
                        \/ maxInt < decimal (m_col m))))).
Proof.
  intros Hd Ht res w'.
  assert (Hgive : direct (keys w) -> forall ev, giving_up rest = Some ev ->
            GetCursorPos w
            = (Done (-1, -1),
               mkWorld (set_buf (buf (keys w) ++ concat typed)
                                (set_cursor make_chan (keys w)))
                       (tl rest)
                       (log w ++ [EvStdout cursor_query]
                              ++ map (fun t => EvRead t None) typed
                              ++ [ev; EvStderr disable_msg]))).
  { intros Hdir ev Hg.
    destruct (GetCursorPos_run w typed rest Hdir Hd Ht) as [fuel ->].
    match goal with
    | |- context [GetCursorPos_loop (S fuel) ?w1] =>
      destruct (GetCursorPos_loop_gives_up fuel w1 ev Hdir Hg) as (ex & -> & Hex)
    end.
    cbn [stdin keys log]. rewrite <- !app_assoc.
    destruct ex; [reflexivity | reflexivity | contradiction]. }
  assert (Hans : direct (keys w) -> forall ans dev m, rest = Data ans :: dev ->
            (length ans <= keyScanBufSize)%nat ->
            rxRcvCursorPos_first ans = Some m ->
            GetCursorPos w
            = GetCursorPos_answer_of
                (Done (Answer m),
                 mkWorld (set_buf (buf (keys w) ++ concat typed)
                                  (set_cursor make_chan (keys w)))
                         dev
                         (log w ++ [EvStdout cursor_query]
                                ++ map (fun t => EvRead t None) typed
                                ++ [EvRead ans None]))).
  { intros Hdir ans dev m -> Hlen Hm.
    destruct (GetCursorPos_run w typed _ Hdir Hd Ht) as [fuel ->].
    rewrite (GetCursorPos_loop_answer fuel _ ans dev m);
      [|exact Hdir | reflexivity | exact Hlen | exact Hm].
    cbn [stdin keys log]. now rewrite <- !app_assoc. }
  assert (Hres : direct (keys w) -> forall ans dev m, rest = Data ans :: dev ->
            (length ans <= keyScanBufSize)%nat ->
            rxRcvCursorPos_first ans = Some m ->
            stdin w' = dev
            /\ reads (log w') = S (reads (log w) + length typed)
            /\ (res = Done (-1, -1)
                <-> maxInt < decimal (m_row m) \/ maxInt < decimal (m_col m))
            /\ (decimal (m_row m) <= maxInt -> decimal (m_col m) <= maxInt ->
                res = Done (decimal (m_col m), decimal (m_row m)))).
  { intros Hdir ans dev m Hrest Hlen Hm. subst res w'.
    rewrite (Hans Hdir ans dev m Hrest Hlen Hm).
    destruct (rxRcvCursorPos_first_digits ans m Hm) as [Hrow Hcol].
    unfold GetCursorPos_answer_of.
    assert (Hreads : forall lg,
              reads ((log w ++ [EvStdout cursor_query]
                       ++ map (fun t => EvRead t None) typed
                       ++ [EvRead ans None]) ++ lg)
              = (S (reads (log w) + length typed) + reads lg)%nat).
    { intros lg. rewrite !reads_app.
      pose proof (reads_typed [] typed) as Hty. cbn [app] in Hty. rewrite Hty.
      change (reads [EvStdout cursor_query]) with 0%nat.
      change (reads [EvRead ans None]) with 1%nat.
      change (reads []) with 0%nat. lia. }
    rewrite <- (Atoi_digit_string_None _ Hrow), <- (Atoi_digit_string_None _ Hcol).
    destruct (Atoi (m_row m)) as [y|] eqn:Ey.
    - destruct (Atoi (m_col m)) as [x|] eqn:Ex.
      + cbn [fst snd stdin log].
        pose proof (Atoi_digit_string _ _ Hcol Ex) as Hx.
        split; [reflexivity|]. split.
        { rewrite <- (app_nil_r (_ ++ _)), Hreads.
          change (reads []) with 0%nat. lia. }
        split.
        * split; [intros [= ? ?]; lia | intros [?|?]; discriminate].
        * intros Hr Hc.
          rewrite (Atoi_digit_string_value _ Hrow Hr) in Ey.
          rewrite (Atoi_digit_string_value _ Hcol Hc) in Ex.
          congruence.
      + cbn [fst snd stdin log disable emit].
        split; [reflexivity|]. split.
        { rewrite Hreads. change (reads [EvStderr disable_msg]) with 0%nat. lia. }
        split; [split; auto|].
        intros _ Hc. rewrite (Atoi_digit_string_value _ Hcol Hc) in Ex.
        discriminate.
    - cbn [fst snd stdin log disable emit].
      split; [reflexivity|]. split.
      { rewrite Hreads. change (reads [EvStderr disable_msg]) with 0%nat. lia. }
      split; [split; auto|].
      intros Hr _. rewrite (Atoi_digit_string_value _ Hrow Hr) in Ey.
      discriminate. }
  split.
  - intros Hnd. subst res w'.
    assert (Hflags : waiting (keys w) || reading (keys w) = true).
    { destruct (waiting (keys w) || reading (keys w)) eqn:E; [reflexivity|].
      apply direct_flags in E. contradiction. }
    unfold GetCursorPos, GetCursorPos_answer, GetCursorPos_fuel.
    cbn [GetCursorPos_loop GetCursorPos_query emit upd_keys keys stdin log
         set_cursor waiting reading cursor make_chan chan_recv].
    rewrite Hflags. cbn. auto.
  - intros Hdir. split; [|split; [exact (Hres Hdir)|]].
    + intros ev Hg. subst res w'. rewrite (Hgive Hdir ev Hg). cbn. auto.
    + intros Hdec. split.
      * intros Hm1.
        destruct (giving_up rest) as [ev|] eqn:Hg; [left; discriminate|].
        right. destruct Hdec as [Hc | (ans & dev & m & Hrest & Hlen & Hm)];
          [congruence|].
        exists ans, dev, m. split; [exact Hrest|]. split; [exact Hm|].
        destruct (Hres Hdir ans dev m Hrest Hlen Hm) as (_ & _ & Hiff & _).
        now apply Hiff.
      * intros [Hg | (ans & dev & m & Hrest & Hm & Hover)].
        -- destruct (giving_up rest) as [ev|] eqn:Hg'; [|congruence].
           subst res. now rewrite (Hgive Hdir ev eq_refl).
        -- destruct Hdec as [Hc | (ans' & dev' & m' & Hrest' & Hlen & Hm')].
           ++ subst rest. destruct ans; [discriminate Hm|].
              cbn in Hc. congruence.
           ++ assert (ans' = ans) by congruence. subst ans'.
              assert (m' = m) by congruence. subst m'.
              destruct (Hres Hdir ans dev' m Hrest' Hlen Hm) as (_ & _ & Hiff & _).
              now apply Hiff.
Qed.

(** The claim of C7 as it was stated does not hold: an answer whose row
    does not fit an [int] gives (-1, -1) although the one read of the call
    returned bytes and no error. *)
Lemma GetCursorPos_degraded_without_failed_read :
  let w := Sample.world_of Sample.empty_keys [Data Sample.answer_huge_row] in
  fst (GetCursorPos w) = Done (-1, -1)
  /\ log (snd (GetCursorPos w))
     = [EvStdout cursor_query; EvRead Sample.answer_huge_row None;
        EvStderr disable_msg]
  /\ Sample.answer_huge_row <> [].
Proof. vm_compute. repeat split; discriminate. Qed.

(** C2.  On the answer alone [GetCursorPos] returns (10, 24).  On
    "ab" + answer + "cd", read in one piece with no read in flight, it
    returns (10, 24) as well but the four bytes typed around the answer
    are gone: the pending buffer and the device are empty, and [Pop]
    finds nothing.  The filter of the background read, on the same bytes,
    keeps them: when the call waits for the answer while the main loop
    reads, the answer goes through the channel and "abcd" is pending, in
    this order. *)
Theorem GetCursorPos_drops_keys_around_answer :
  let w0 := Sample.world_of Sample.empty_keys [Data Sample.answer_24_10] in
  let w1 := Sample.world_of Sample.empty_keys [Data Sample.typed_around_answer] in
  let asked :=
    GetCursorPos (Sample.world_of (set_waiting true Sample.empty_keys)
                                  [Data Sample.typed_around_answer]) in
  let in_flight := snd (WaitAvailableKeys_loop 2 (snd asked)) in
  fst (GetCursorPos w0) = Done (10, 24)
  /\ fst (GetCursorPos w1) = Done (10, 24)
  /\ buf (keys (snd (GetCursorPos w1))) = []
  /\ stdin (snd (GetCursorPos w1)) = []
  /\ Pop (keys (snd (GetCursorPos w1))) = ((0, true), keys (snd (GetCursorPos w1)))
  /\ extractCursorPos Sample.typed_around_answer
     = (Sample.answer_24_10, bytes_of_string "abcd")
  /\ fst asked = Blocked
  /\ fst (WaitAvailableKeys_loop 2 (snd asked)) = Done tt
  /\ fst (GetCursorPos_answer in_flight) = Done (10, 24)
  /\ fst (PopN 4 (keys (snd (GetCursorPos_answer in_flight))))
     = bytes_of_string "abcd".
Proof. vm_compute. repeat split; reflexivity. Qed.

(** The bytes around an answer are dropped whatever they are: when the
    device is read and the piece read holds an answer, nothing is added to
    the pending buffer. *)
Lemma GetCursorPos_answer_piece_dropped k bs dev lg m :
  direct k -> (length bs <= keyScanBufSize)%nat ->
  rxRcvCursorPos_first bs = Some m ->
  let w' := snd (GetCursorPos (mkWorld k (Data bs :: dev) lg)) in
  buf (keys w') = buf k /\ stdin w' = dev.
Proof.
  intros Hd Hlen Hm w'. subst w'.
  unfold GetCursorPos, GetCursorPos_answer, GetCursorPos_fuel.
  rewrite (GetCursorPos_loop_answer _ _ bs dev m);
    [|exact Hd | reflexivity | assumption | assumption].
  unfold GetCursorPos_answer_of.
  destruct (Atoi (m_row m)); [destruct (Atoi (m_col m))|]; cbn; auto.
Qed.

(** ** The statements above on sample states *)

Lemma pop_peek_prefer_pending_witness :
  let k := mkKeys [97; 98] [] 0 [120; 121] false false false NilChan NilChan in
  let k' := mkKeys [] [] 0 [120; 121] false false false NilChan NilChan in
  (PeekKey k = (97, false) /\ fst (Pop k) = (97, false)
   /\ macroKeys (snd (Pop k)) = [120; 121])
  /\ (PeekKey k' = (120, false) /\ fst (Pop k') = (120, false)
      /\ macroKeys (snd (Pop k')) = [121])
  /\ Pop Sample.empty_keys = ((0, true), Sample.empty_keys)
  /\ macroKeys (Feed k' true [65; 66]) = [65; 66; 120; 121]
  /\ fst (PopN 2 (Feed k' true [65; 66])) = [65; 66].
Proof.
  intros k k'.
  destruct (pop_peek_prefer_pending k) as (H1 & _).
  destruct (pop_peek_prefer_pending k') as (_ & H2 & _ & _ & H5 & _).
  destruct (pop_peek_prefer_pending Sample.empty_keys) as (_ & _ & H3 & _).
  destruct (H1 97 [98] eq_refl) as (P1 & _ & P2 & _ & P3).
  destruct (H2 120 [121] eq_refl eq_refl) as (Q1 & _ & Q2 & _ & Q3).
  destruct (H3 eq_refl eq_refl) as (_ & _ & R).
  assert (Hv : Forall valid_rune [65; 66]).
  { repeat constructor;
      unfold maxRune, surrogateMin, surrogateMax; lia. }
  destruct (H5 [65; 66] Hv) as (F1 & F2).
  destruct (F2 eq_refl) as (F3 & _).
  repeat split; assumption.
Defined.

(** The claim of C1 as it was stated does not hold: the key returned
    for a macro key is its low byte, which is not the key fed when this
    is above 255, and a key that is not a Unicode scalar value is not
    queued as it was given. *)
Lemma pop_returns_low_byte_of_macro_key :
  let k := Feed Sample.empty_keys true [8364] in
  macroKeys k = [8364]
  /\ fst (Pop k) = (172, false) /\ PeekKey k = (172, false)
  /\ macroKeys (Feed Sample.empty_keys true [55296]) = [65533]
  /\ ~ (forall k0 r rest, buf k0 = [] -> macroKeys k0 = r :: rest ->
          fst (Pop k0) = (r, false)).
Proof.
  split; [reflexivity|]. split; [reflexivity|]. split; [reflexivity|].
  split; [reflexivity|].
  intros H.
  specialize (H (Feed Sample.empty_keys true [8364]) 8364 [] eq_refl eq_refl).
  discriminate H.
Qed.

(** The claim of C3 as it was stated does not hold: after the two calls
    the pending buffer holds the prefix, which it did not hold before
    [MatchedPrefix]. *)
Lemma matched_prefix_flush_changes_pending :
  ~ (forall k b, buf (FlushUsed (MatchedPrefix k b)) = buf k).
Proof. intros H. specialize (H Sample.empty_keys [97]). discriminate H. Qed.

Lemma matched_prefix_flush_restores_popped_witness :
  let k0 := mkKeys [97; 98; 99] [] 0 [] false false false NilChan NilChan in
  (2 <= length (buf k0))%nat
  /\ fst (PopN 2 k0) = [97; 98]
  /\ buf (snd (PopN 2 k0)) = [99]
  /\ buf (FlushUsed (MatchedPrefix (snd (PopN 2 k0)) (fst (PopN 2 k0))))
     = [97; 98; 99].
Proof.
  intros k0.
  assert (Hn : (2 <= length (buf k0))%nat) by (cbn; lia).
  destruct matched_prefix_flush_restores_popped as [_ H].
  destruct (H k0 2%nat Hn) as [_ Hb].
  split; [exact Hn|]. split; [reflexivity|]. split; [reflexivity | exact Hb].
Defined.

Lemma wait_returns_at_once_iff_witness :
  let ready := Sample.world_of
                 (mkKeys [97] [] 0 [] false false false NilChan NilChan)
                 [Data [98]] in
  let drained := Sample.world_of Sample.empty_keys
                   [Fail (ErrNew "interrupted system call"); Data [];
                    Data [98]; Data [99]] in
  WaitAvailableKeys ready = (Done tt, ready)
  /\ (reads (log drained) < reads (log (snd (WaitAvailableKeys drained))))%nat
  /\ (let w' := upd_keys (fun k => MatchedPrefix k [27]) drained in
      mustWait (keys w') = true /\ buf (keys w') = [27]
      /\ fst (WaitAvailableKeys w') = Done tt
      /\ buf (keys (snd (WaitAvailableKeys w'))) = [27; 98]
      /\ stdin (snd (WaitAvailableKeys w')) = [Data [99]]
      /\ reads (log (snd (WaitAvailableKeys w'))) = 3%nat).
Proof.
  intros ready drained.
  destruct (wait_returns_at_once_iff ready) as (_ & Hyes & _).
  destruct (wait_returns_at_once_iff drained) as (_ & _ & Hno & _ & _ & Hpre).
  assert (Ha : keys_available (keys ready)).
  { left. split; [discriminate | reflexivity]. }
  assert (Hna : ~ keys_available (keys drained)).
  { intros [[Hb _] | Hm]; [apply Hb | apply Hm]; reflexivity. }
  assert (Hne : [27] <> (@nil Z)) by discriminate.
  destruct (Hpre [27] Hne eq_refl) as (M1 & M2 & M3).
  destruct (M3 eq_refl) as (_ & _ & M4).
  assert (Hs : Forall (fun e => skippable e = true)
                      [Fail (ErrNew "interrupted system call"); Data []]).
  { repeat constructor. }
  assert (Ht : typed_piece [98]).
  { split; [discriminate|]. split; [unfold keyScanBufSize; cbn; lia | reflexivity]. }
  destruct (M4 [Fail (ErrNew "interrupted system call"); Data []] [98]
               [Data [99]] eq_refl eq_refl Hs Ht) as (N1 & N2 & N3 & N4).
  split; [exact (Hyes Ha)|]. split; [exact (Hno Hna)|].
  split; [exact M1|]. split; [exact M2|]. split; [exact N1|].
  split; [exact N2|]. split; [exact N3 | exact N4].
Defined.

Lemma GetCursorPos_degraded_iff_witness :
  let failing := Sample.world_of Sample.empty_keys
                   [Data [97]; Fail (ErrNew "input/output error");
                    Data Sample.answer_24_10] in
  fst (GetCursorPos failing) = Done (-1, -1)
  /\ buf (keys (snd (GetCursorPos failing))) = [97]
  /\ stdin (snd (GetCursorPos failing)) = [Data Sample.answer_24_10].
Proof.
  intros failing.
  assert (Hd : direct (keys failing)) by (split; reflexivity).
  assert (Ht : Forall typed_piece [[97]]).
  { repeat constructor; try discriminate; unfold keyScanBufSize; cbn; lia. }
  destruct (GetCursorPos_degraded_iff failing [[97]]
              [Fail (ErrNew "input/output error"); Data Sample.answer_24_10]
              eq_refl Ht) as (_ & Hdir).
  destruct (Hdir Hd) as (Hgive & _).
  destruct (Hgive (EvRead [] (Some (ErrNew "input/output error"))) eq_refl)
    as (H1 & H2 & H3 & _).
  split; [exact H1|]. split; [exact H2 | exact H3].
Defined.

End CoreFacts.

(* ===================================================================== *)
(** * Properties of the Readline loop                                     *)
(* ===================================================================== *)

Module ReadlineFacts.
Import Go Os Readline ReadlineSpec GoFacts.

Section WithHelpers.
Context {Hidden GroupRef : Type} (hp : Helpers Hidden GroupRef) (cs : Consts).

Implicit Types (w : World Hidden) (rl : Instance Hidden) (r : list Z).

(** ** editorInput *)

Lemma do_calls_app c1 c2 w :
  do_calls hp (c1 ++ c2) w = do_calls hp c2 (do_calls hp c1 w).
Proof.
  unfold do_calls, run_calls. cbn [inst stdin log].
  now rewrite fold_left_app, map_app, app_assoc.
Qed.

Lemma call_do_calls c w : call hp c w = (Val tt, do_calls hp [c] w).
Proof. reflexivity. Qed.

Lemma editorInput_finish (body : M Hidden unit) w w1 :
  body w = (Val tt, w1) ->
  bind body (fun _ =>
    bind (get multisplit) (fun ms =>
      if len ms =? 0 then call hp CSyntaxCompletion else ret tt)) w
  = (Val tt, finish hp w1).
Proof.
  intros Hb. unfold bind at 1. rewrite Hb.
  unfold bind, get, finish, len, ret. cbn [inst].
  destruct (Z.of_nat (length (multisplit (inst w1))) =? 0); reflexivity.
Qed.

Lemma for_range_replace r : forall w,
  for_range r (fun char => bind (call hp CDelete)
                                (fun _ => call hp (CInsert [char]))) w
  = (Val tt, do_calls hp (flat_map (fun c => [CDelete; CInsert [c]]) r) w).
Proof.
  induction r as [|c r IH]; intros w.
  - cbn. unfold ret, do_calls. cbn. rewrite app_nil_r. now destruct w.
  - cbn [for_range flat_map]. unfold bind at 1 2. cbn [call].
    rewrite IH, (do_calls_app [CDelete; CInsert [c]]).
    do 2 f_equal. unfold do_calls, run_calls. cbn.
    now rewrite <- app_assoc.
Qed.

Lemma do_calls_mode calls w :
  keeps_mode hp -> forallb edit_call calls = true ->
  modeViMode (inst (do_calls hp calls w)) = modeViMode (inst w).
Proof.
  intros Hk. unfold do_calls, run_calls. cbn [inst].
  generalize (inst w) as rl.
  induction calls as [|c calls IH]; intros rl Hc; [reflexivity|].
  cbn [forallb] in Hc. apply andb_true_iff in Hc. destruct Hc as [H1 H2].
  cbn [fold_left]. rewrite IH by assumption. now apply Hk.
Qed.

Lemma finish_mode w :
  keeps_mode hp -> modeViMode (inst (finish hp w)) = modeViMode (inst w).
Proof.
  intros Hk. unfold finish.
  destruct (Z.of_nat (length (multisplit (inst w))) =? 0); [|reflexivity].
  now apply do_calls_mode.
Qed.

Lemma forallb_replace_calls r :
  forallb edit_call (flat_map (fun c => [CDelete; CInsert [c]]) r
                     ++ [CRefreshVimStatus]) = true.
Proof. induction r as [|c r IH]; [reflexivity | exact IH]. Qed.

Lemma editorInput_replace_once w c rest :
  modeViMode (inst w) = vimReplaceOnce ->
  editorInput hp (c :: rest) w
  = (Val tt, finish hp (do_calls hp [CDelete; CInsert [c]; CRefreshVimStatus]
                                 (with_mode vimKeys w))).
Proof.
  intros Hm. unfold editorInput. unfold bind at 1, get at 1. rewrite Hm.
  apply editorInput_finish.
  cbv [bind set call do_calls with_mode run_calls fold_left map
       inst stdin log].
  now rewrite <- !app_assoc.
Qed.

Lemma editorInput_replace_many w r :
  modeViMode (inst w) = vimReplaceMany ->
  editorInput hp r w
  = (Val tt, finish hp (do_calls hp
                          (flat_map (fun c => [CDelete; CInsert [c]]) r
                           ++ [CRefreshVimStatus]) w)).
Proof.
  intros Hm. unfold editorInput. unfold bind at 1, get at 1. rewrite Hm.
  apply editorInput_finish. unfold bind at 1.
  now rewrite for_range_replace, call_do_calls, <- do_calls_app.
Qed.

Lemma editorInput_insert w r :
  modeViMode (inst w) = vimInsert ->
  editorInput hp r w = (Val tt, finish hp (do_calls hp [CInsert r] w)).
Proof.
  intros Hm. unfold editorInput. unfold bind at 1, get at 1. rewrite Hm.
  now apply editorInput_finish.
Qed.


(** C8.  [editorInput] goes by the mode of the instance alone.  In
    replace-once mode it sets the mode to vi-command, deletes once and
    inserts the first rune given, alone; in replace-many mode it deletes
    and inserts once for every rune given, in order, and does not set
    the mode; in insert mode it inserts the runes given in one call.
    (The status is then redrawn in the replace modes, and the syntax
    completion runs unless lines of a paste are left.)  When the calls
    made leave the mode alone, the mode at the end is vi-command,
    replace-many and insert. *)
Theorem editorInput_by_mode w r :
  (modeViMode (inst w) = vimReplaceOnce ->
   forall (c : Z) (rest : list Z), r = c :: rest ->
     editorInput hp r w
     = (Val tt, finish hp (do_calls hp [CDelete; CInsert [c]; CRefreshVimStatus]
                                    (with_mode vimKeys w)))
     /\ (keeps_mode hp ->
         modeViMode (inst (snd (editorInput hp r w))) = vimKeys))
  /\ (modeViMode (inst w) = vimReplaceMany ->
     editorInput hp r w
     = (Val tt, finish hp (do_calls hp
                             (flat_map (fun c => [CDelete; CInsert [c]]) r
                              ++ [CRefreshVimStatus]) w))
     /\ (keeps_mode hp ->
         modeViMode (inst (snd (editorInput hp r w))) = vimReplaceMany))
  /\ (modeViMode (inst w) = vimInsert ->
     editorInput hp r w = (Val tt, finish hp (do_calls hp [CInsert r] w))
     /\ (keeps_mode hp ->
         modeViMode (inst (snd (editorInput hp r w))) = vimInsert)).
Proof.
  split; [|split].
  - intros Hm c rest ->.
    pose proof (editorInput_replace_once w c rest Hm) as E.
    split; [exact E|]. intros Hk. rewrite E. cbn [snd].
    rewrite finish_mode, do_calls_mode by easy. reflexivity.
  - intros Hm. pose proof (editorInput_replace_many w r Hm) as E.
    split; [exact E|]. intros Hk. rewrite E. cbn [snd].
    rewrite finish_mode, do_calls_mode by (auto using forallb_replace_calls).
    assumption.
  - intros Hm. pose proof (editorInput_insert w r Hm) as E.
    split; [exact E|]. intros Hk. rewrite E. cbn [snd].
    rewrite finish_mode, do_calls_mode by easy. assumption.
Qed.

(** ** allowMultiline *)

Lemma gostring_eqb_spec (a b : gostring) : gostring_eqb a b = true <-> a = b.
Proof. unfold gostring_eqb. apply bool_decide_eq_true. Qed.

Lemma gostring_eqb_false (a b : gostring) : gostring_eqb a b = false <-> a <> b.
Proof. unfold gostring_eqb. apply bool_decide_eq_false. Qed.

Ltac verdict_cases bs :=
  unfold verdict;
  destruct (gostring_eqb bs [121]) eqn:E1;
  destruct (gostring_eqb bs [89]) eqn:E2;
  destruct (gostring_eqb bs [110]) eqn:E3;
  destruct (gostring_eqb bs [78]) eqn:E4;
  rewrite ?gostring_eqb_spec, ?gostring_eqb_false in *;
  cbn [orb].

Lemma verdict_accept bs err :
  verdict bs err = Accept <-> err = None /\ (bs = [121] \/ bs = [89]).
Proof.
  destruct err as [e|].
  - split; [discriminate | intros [? _]; discriminate].
  - verdict_cases bs; intuition congruence.
Qed.

Lemma verdict_reject bs err :
  verdict bs err = Reject <-> err <> None \/ bs = [110] \/ bs = [78].
Proof.
  destruct err as [e|].
  - split; [left; discriminate | reflexivity].
  - verdict_cases bs; intuition congruence.
Qed.

Lemma answers_app l1 l2 : answers (l1 ++ l2) = answers l1 ++ answers l2.
Proof. unfold answers. apply flat_map_app. Qed.

Lemma answers_stdout out : forallb is_stdout out = true -> answers out = [].
Proof.
  induction out as [|e out IH]; [reflexivity|].
  cbn [forallb]. intros H. apply andb_true_iff in H. destruct H as [He Ho].
  destruct e as [[]| | |]; try discriminate. cbn. now apply IH.
Qed.

(** The last answer of a dialogue decides, the ones before ask again. *)
Lemma dialogue_answers new b :
  dialogue new b ->
  exists before bs err,
    answers new = before ++ [(bs, err)]
    /\ verdict bs err = (if b then Accept else Reject)
    /\ Forall (fun a => verdict (fst a) (snd a) = Again) before.
Proof.
  induction 1 as [bs err out b Hv Hout | bs err out rest b Hv Hout _ IH].
  - exists [], bs, err. cbn. rewrite answers_stdout by assumption. auto.
  - destruct IH as (before & bs' & err' & Ha & Hv' & Hb).
    exists ((bs, err) :: before), bs', err'.
    change (Io (EvStdout proceed_prompt) :: Io (EvRead bs err) :: out ++ rest)
      with ([Io (EvStdout proceed_prompt); Io (EvRead bs err)] ++ out ++ rest).
    rewrite !answers_app, (answers_stdout out), Ha by assumption.
    cbn. auto.
Qed.

Lemma allowMultiline_loop_spec fuel data : forall w,
  (dev_size (stdin w) < fuel)%nat ->
  exists b w' new,
    allowMultiline_loop fuel data w = (Val b, w')
    /\ log w' = log w ++ new /\ dialogue new b /\ inst w' = inst w.
Proof.
  induction fuel as [|fuel IH]; intros w Hf; [lia|].
  cbn [allowMultiline_loop].
  unfold bind at 1, print at 1, emit at 1.
  unfold bind at 1, os_Stdin_Read at 1. cbn [stdin inst log].
  pose proof (CoreFacts.Read_progress bufSize (stdin w)
                ltac:(unfold bufSize; lia)) as Hp.
  destruct (Read bufSize (stdin w)) as [[bs err] dev'].
  cbn [fst snd].
  destruct err as [e|].
  - (* the read failed *)
    eexists false, _, _. split; [reflexivity|].
    cbn [log inst]. rewrite <- app_assoc. split; [reflexivity|].
    split; [|reflexivity].
    now apply (dialogue_last bs (Some e) [] false).
  - destruct Hp as [Hp | (_ & Hp & _)]; [|discriminate].
    unfold bind at 1, print at 1, emit at 1. cbn [stdin inst log].
    destruct (gostring_eqb bs [121] || gostring_eqb bs [89]) eqn:Ey;
      [|destruct (gostring_eqb bs [110] || gostring_eqb bs [78]) eqn:En].
    + eexists true, _, _. split; [reflexivity|].
      cbn [log inst]. rewrite <- !app_assoc. split; [reflexivity|].
      split; [|reflexivity].
      apply (dialogue_last bs None [_; _] true); [|reflexivity].
      unfold verdict. now rewrite Ey.
    + eexists false, _, _. split; [reflexivity|].
      cbn [log inst]. rewrite <- !app_assoc. split; [reflexivity|].
      split; [|reflexivity].
      apply (dialogue_last bs None [_; _] false); [|reflexivity].
      unfold verdict. now rewrite Ey, En.
    + assert (Hv : verdict bs None = Again).
      { unfold verdict. now rewrite Ey, En. }
      destruct (gostring_eqb bs [112] || gostring_eqb bs [80]).
      * unfold bind at 1, get at 1. cbn [inst].
        unfold bind at 1, print at 1, emit at 1. cbn [stdin inst log].
        match goal with
        | |- context [allowMultiline_loop fuel data ?w1] =>
          destruct (IH w1 ltac:(cbn; lia))
            as (b & w' & rest & Hrun & Hlog & Hdlg & Hinst)
        end.
        eexists b, w', _. split; [exact Hrun|]. rewrite Hlog. cbn [log].
        rewrite <- !app_assoc. split; [reflexivity|].
        split; [|assumption].
        now apply (dialogue_again bs None [_; _] rest b).
      * unfold bind at 1, print at 1, emit at 1. cbn [stdin inst log].
        match goal with
        | |- context [allowMultiline_loop fuel data ?w1] =>
          destruct (IH w1 ltac:(cbn; lia))
            as (b & w' & rest & Hrun & Hlog & Hdlg & Hinst)
        end.
        eexists b, w', _. split; [exact Hrun|]. rewrite Hlog. cbn [log].
        rewrite <- !app_assoc. split; [reflexivity|].
        split; [|assumption].
        now apply (dialogue_again bs None [_; _] rest b).
Qed.

(** A decisive first answer ends the dialogue after one prompt. *)
Lemma allowMultiline_loop_decided fuel data w ans dev :
  stdin w = Data ans :: dev -> (length ans <= bufSize)%nat ->
  verdict ans None <> Again ->
  exists b,
    allowMultiline_loop (S fuel) data w
    = (Val b, mkWorld (inst w) dev
                (log w ++ [Io (EvStdout proceed_prompt); Io (EvRead ans None);
                           Io (EvStdout ans);
                           Io (EvStdout (crlf ++ prompt (inst w)))]))
    /\ verdict ans None = (if b then Accept else Reject).
Proof.
  intros Hs Hlen Hv. cbn [allowMultiline_loop].
  unfold bind at 1, print at 1, emit at 1.
  unfold bind at 1, os_Stdin_Read at 1. cbn [stdin inst log]. rewrite Hs.
  cbn [Read]. destruct (Nat.leb_spec (length ans) bufSize); [|lia].
  cbn [fst snd]. unfold verdict in *.
  destruct (gostring_eqb ans [121] || gostring_eqb ans [89]);
    [|destruct (gostring_eqb ans [110] || gostring_eqb ans [78])];
    [exists true | exists false | congruence];
    (split; [|reflexivity]);
    cbv [bind print emit get ret]; cbn [inst stdin log];
    now rewrite <- !app_assoc.
Qed.

(** An answer that is none of "y", "Y", "n", "N" is echoed and replied
    to, and the loop asks again. *)
Lemma allowMultiline_loop_again data others : forall fuel w rest,
  stdin w = map Data others ++ rest -> Forall undecided others ->
  allowMultiline_loop (length others + fuel) data w
  = allowMultiline_loop fuel data
      (mkWorld (inst w) rest
               (log w ++ flat_map (turn_again data (inst w)) others)).
Proof.
  induction others as [|o others IH]; intros fuel w rest Hs Ho.
  - cbn in *. rewrite app_nil_r. destruct w; cbn in *. now subst.
  - apply Forall_cons in Ho. destruct Ho as [[Hlen Hnot] Ho].
    cbn [length Nat.add allowMultiline_loop].
    unfold bind at 1, print at 1, emit at 1.
    unfold bind at 1, os_Stdin_Read at 1. cbn [stdin inst log]. rewrite Hs.
    cbn [map app Read]. destruct (Nat.leb_spec (length o) bufSize); [|lia].
    cbn [fst snd].
    unfold bind at 1, print at 1, emit at 1. cbn [stdin inst log].
    assert (Ey : gostring_eqb o [121] || gostring_eqb o [89] = false).
    { apply orb_false_iff. rewrite !gostring_eqb_false.
      split; intros ->; apply Hnot; cbn; auto. }
    assert (En : gostring_eqb o [110] || gostring_eqb o [78] = false).
    { apply orb_false_iff. rewrite !gostring_eqb_false.
      split; intros ->; apply Hnot; cbn; auto. }
    rewrite Ey, En.
    assert (Hstep : forall (wa : World Hidden),
              wa = mkWorld (inst w) (map Data others ++ rest)
                     (log w ++ turn_again data (inst w) o) ->
              allowMultiline_loop (length others + fuel) data wa
              = allowMultiline_loop fuel data
                  (mkWorld (inst w) rest
                     (log w ++ flat_map (turn_again data (inst w)) (o :: others)))).
    { intros wa ->. rewrite IH with (rest := rest); [|reflexivity | exact Ho].
      cbn [inst log flat_map]. now rewrite <- app_assoc. }
    unfold turn_again, reply in Hstep.
    destruct (gostring_eqb o [112] || gostring_eqb o [80]).
    + unfold bind at 1, get at 1. cbn [inst].
      unfold bind at 1, print at 1, emit at 1. cbn [stdin inst log].
      apply Hstep. f_equal. now rewrite <- !app_assoc.
    + unfold bind at 1, print at 1, emit at 1. cbn [stdin inst log].
      apply Hstep. f_equal. now rewrite <- !app_assoc.
Qed.

Lemma prompts_app l1 l2 : prompts (l1 ++ l2) = (prompts l1 + prompts l2)%nat.
Proof. unfold prompts. now rewrite flat_map_app, length_app. Qed.

(** [allowMultiline] on the device: the answers that do not decide are
    read, echoed and replied to one after the other, and the answer after
    them, or the failure of its read, ends the call. *)
Lemma allowMultiline_run data w (others : list gostring) (rest : Device) :
  stdin w = map Data others ++ rest -> Forall undecided others ->
  let rl := run hp CClearHelpers (inst w) in
  let asked := log w ++ [Called CClearHelpers;
                         Io (EvStdout (warning_msg (len data)))]
                     ++ flat_map (turn_again data rl) others in
  (forall ans dev, rest = Data ans :: dev ->
     (ans = [121] \/ ans = [89] ->
      allowMultiline hp data w
      = (Val true, mkWorld rl dev (asked ++ turn_decided rl ans)))
     /\ (ans = [110] \/ ans = [78] ->
         allowMultiline hp data w
         = (Val false, mkWorld rl dev (asked ++ turn_decided rl ans))))
  /\ (forall e dev, rest = Fail e :: dev ->
      allowMultiline hp data w
      = (Val false,
         mkWorld rl dev (asked ++ [Io (EvStdout proceed_prompt);
                                   Io (EvRead [] (Some e))])))
  /\ (rest = [] ->
      allowMultiline hp data w
      = (Val false,
         mkWorld rl [] (asked ++ [Io (EvStdout proceed_prompt);
                                  Io (EvRead [] (Some EOF))]))).
Proof.
  intros Hs Ho rl asked.
  assert (Hrun : exists fuel,
            allowMultiline hp data w
            = allowMultiline_loop (S fuel) data (mkWorld rl rest asked)).
  { unfold allowMultiline.
    unfold bind at 1, call at 1. unfold bind at 1, print at 1, emit at 1.
    cbn [stdin inst log].
    assert (Hfuel : exists fuel,
              S (dev_size (stdin w)) = (length others + S fuel)%nat).
    { exists (dev_size (stdin w) - length others)%nat.
      pose proof (CoreFacts.length_le_dev_size (stdin w)) as Hl.
      rewrite Hs, length_app, length_map in Hl. rewrite Hs. lia. }
    destruct Hfuel as [fuel ->]. exists fuel.
    rewrite allowMultiline_loop_again with (rest := rest);
      [|exact Hs | exact Ho].
    cbn [inst log]. subst asked rl. now rewrite <- !app_assoc. }
  destruct Hrun as [fuel ->].
  assert (Hdec : forall ans dev (b : bool), rest = Data ans :: dev ->
            In ans [[121]; [89]; [110]; [78]] ->
            verdict ans None = (if b then Accept else Reject) ->
            allowMultiline_loop (S fuel) data (mkWorld rl rest asked)
            = (Val b, mkWorld rl dev (asked ++ turn_decided rl ans))).
  { intros ans dev b -> Hin Hv.
    assert (Hlen : (length ans <= bufSize)%nat).
    { unfold bufSize.
      destruct Hin as [<-|[<-|[<-|[<-|[]]]]]; cbn; lia. }
    destruct (allowMultiline_loop_decided fuel data (mkWorld rl (Data ans :: dev) asked)
                ans dev eq_refl Hlen) as (b' & -> & Hb').
    { rewrite Hv. destruct b; discriminate. }
    assert (b' = b) by (destruct b, b'; congruence). subst b'.
    reflexivity. }
  split; [|split].
  - intros ans dev Hrest. split.
    + intros Hy. apply (Hdec ans dev true Hrest).
      * destruct Hy as [-> | ->]; cbn; auto.
      * apply verdict_accept. auto.
    + intros Hn. apply (Hdec ans dev false Hrest).
      * destruct Hn as [-> | ->]; cbn; auto.
      * apply verdict_reject. auto.
  - intros e dev ->. cbn [allowMultiline_loop].
    cbv [bind print emit os_Stdin_Read ret]. cbn [stdin inst log Read fst snd].
    now rewrite <- !app_assoc.
  - intros ->. cbn [allowMultiline_loop].
    cbv [bind print emit os_Stdin_Read ret]. cbn [stdin inst log Read fst snd].
    now rewrite <- !app_assoc.
Qed.

(** C10.  [allowMultiline] returns, and its events after the warning are
    a dialogue: each answer is read right after the prompt.  It returns
    true only when the last answer read is exactly "y" or "Y", false
    only when the last answer is exactly "n" or "N" or its read failed;
    every answer before the last one was none of these (a preview
    request "p" or "P" included) and was followed by the prompt again.
    On the device: the answers that are none of "y", "Y", "n", "N" are
    read one by one, each echoed and replied to (with the preview for
    "p" and "P") before the prompt is written again; the call returns
    true when the answer after them is "y" or "Y", false when it is "n"
    or "N", false when the read after them fails or finds the end of
    input; it reads nothing after that. *)
Theorem allowMultiline_answers data w :
  (exists b w' new,
    allowMultiline hp data w = (Val b, w')
    /\ log w' = log w ++ [Called CClearHelpers;
                          Io (EvStdout (warning_msg (len data)))] ++ new
    /\ dialogue new b
    /\ exists before bs err,
         answers new = before ++ [(bs, err)]
         /\ (b = true -> err = None /\ (bs = [121] \/ bs = [89]))
         /\ (b = false -> err <> None \/ bs = [110] \/ bs = [78])
         /\ Forall (fun a => snd a = None
                             /\ ~ In (fst a) [[121]; [89]; [110]; [78]])
                   before)
  /\ (forall (others : list gostring) (rest : Device),
      stdin w = map Data others ++ rest -> Forall undecided others ->
      let rl := run hp CClearHelpers (inst w) in
      let asked := log w ++ [Called CClearHelpers;
                             Io (EvStdout (warning_msg (len data)))]
                         ++ flat_map (turn_again data rl) others in
      (forall ans dev, rest = Data ans :: dev ->
         (ans = [121] \/ ans = [89] ->
          allowMultiline hp data w
          = (Val true, mkWorld rl dev (asked ++ turn_decided rl ans)))
         /\ (ans = [110] \/ ans = [78] ->
             allowMultiline hp data w
             = (Val false, mkWorld rl dev (asked ++ turn_decided rl ans))))
      /\ (forall e dev, rest = Fail e :: dev ->
          allowMultiline hp data w
          = (Val false,
             mkWorld rl dev (asked ++ [Io (EvStdout proceed_prompt);
                                       Io (EvRead [] (Some e))])))
      /\ (rest = [] ->
          allowMultiline hp data w
          = (Val false,
             mkWorld rl [] (asked ++ [Io (EvStdout proceed_prompt);
                                      Io (EvRead [] (Some EOF))])))).
Proof.
  split.
  { unfold allowMultiline.
    unfold bind at 1, call at 1. unfold bind at 1, print at 1, emit at 1.
    cbn [stdin inst log].
    match goal with
    | |- context [allowMultiline_loop ?f data ?w1] =>
      destruct (allowMultiline_loop_spec f data w1 ltac:(cbn; lia))
        as (b & w' & new & Hrun & Hlog & Hdlg & _)
    end.
    exists b, w', new. split; [exact Hrun|].
    split; [rewrite Hlog; cbn [log]; now rewrite <- !app_assoc|].
    split; [assumption|].
    destruct (dialogue_answers new b Hdlg) as (before & bs & err & Ha & Hv & Hb).
    exists before, bs, err. split; [assumption|]. split; [|split].
    - intros ->. now apply verdict_accept.
    - intros ->. now apply verdict_reject.
    - eapply Forall_impl; [exact Hb|]. intros [bs' err'] Hag. cbn in *.
      split.
      + destruct err'; [discriminate | reflexivity].
      + intros Hin.
        assert (Hc : verdict bs' err' = Accept \/ verdict bs' err' = Reject).
        { rewrite verdict_accept, verdict_reject.
          destruct err'; [right; left; discriminate|].
          destruct Hin as [<-|[<-|[<-|[<-|[]]]]]; auto. }
        destruct Hc; congruence. }
  intros others rest Hs Ho. exact (allowMultiline_run data w others rest Hs Ho).
Qed.


Lemma inserted_app l1 l2 : inserted (l1 ++ l2) = inserted l1 ++ inserted l2.
Proof. unfold inserted. apply flat_map_app. Qed.





(** A piece that fills the buffer is kept in [multiline] and the loop
    reads on: the confirmation comes once the paste is read to its end. *)
Lemma loop_body_accumulates w chunk dev r :
  skipStdinRead (inst w) = false ->
  stdin w = Data chunk :: dev -> length chunk = bufSize ->
  read_runes chunk = Some r ->
  isMultiline r = true \/ multiline (inst w) <> [] ->
  loop_body hp cs w
  = (Val Continue,
     mkWorld (set_multiline (multiline (inst w) ++ chunk)
                (set_skipStdinRead false (set_viUndoSkipAppend false (inst w))))
             dev (log w ++ [Io (EvRead chunk None)])).
Proof.
  intros Hskip Hs Hlen Hr Hm.
  unfold loop_body.
  unfold bind at 1, set at 1. unfold bind at 1, get at 1.
  cbn [inst skipStdinRead set_viUndoSkipAppend]. rewrite Hskip.
  unfold bind at 1, os_Stdin_Read at 1. cbn [stdin inst log]. rewrite Hs.
  cbn [Read]. destruct (Nat.leb_spec (length chunk) bufSize); [|lia].
  cbn [fst snd]. unfold bind at 1, set at 1. cbn [inst stdin log].
  rewrite Hr. unfold bind at 1, get at 1.
  cbn [inst multiline set_skipStdinRead set_viUndoSkipAppend].
  assert (Hc : isMultiline r || (0 <? len (multiline (inst w))) = true).
  { destruct Hm as [-> | Hne]; [reflexivity|].
    apply orb_true_iff. right. unfold len.
    destruct (multiline (inst w)); [congruence|].
    apply Z.ltb_lt. cbn [length]. lia. }
  rewrite Hc. unfold bind at 1, set at 1.
  cbn [inst stdin log multiline set_skipStdinRead set_viUndoSkipAppend].
  destruct (Nat.eqb_spec (length chunk) bufSize); [reflexivity | lia].
Qed.


(** ** Interrupt keys and Enter in the loop *)





End WithHelpers.

(** ** The statements above on sample input *)

Example rxMultiline_Split_runs :
  rxMultiline_Split Sample.pasted
  = [bytes_of_string "line1"; bytes_of_string "line2"]
  /\ rxMultiline_Split (bytes_of_string "a" ++ [13; 10; 10] ++ bytes_of_string "b" ++ [10])
     = [bytes_of_string "a"; bytes_of_string "b"; []]
  /\ rxMultiline_Split [] = [[]]
  /\ isMultiline (bytes_of_string "line1" ++ [10]) = false.
Proof. repeat split; reflexivity. Qed.

Lemma keeps_mode_plain : keeps_mode Sample.plain_helpers.
Proof. intros c rl Hc. destruct c; try discriminate Hc; reflexivity. Qed.

Lemma editorInput_by_mode_witness :
  let w := Sample.world_with
             (Sample.instance_with vimReplaceOnce [97; 98; 99] 1) [] in
  modeViMode (inst w) = vimReplaceOnce
  /\ line (inst (snd (editorInput Sample.plain_helpers [120; 121] w)))
     = [97; 120; 99]
  /\ modeViMode (inst (snd (editorInput Sample.plain_helpers [120; 121] w)))
     = vimKeys.
Proof.
  intros w.
  destruct (editorInput_by_mode Sample.plain_helpers w [120; 121]) as [H _].
  destruct (H eq_refl 120 [121] eq_refl) as [E Hm].
  split; [reflexivity|]. split; [rewrite E; reflexivity|].
  apply Hm. exact keeps_mode_plain.
Defined.

Lemma allowMultiline_answers_witness :
  let w := Sample.world_with (Sample.instance_with vimInsert [] 0)
                             [Data [112]; Data [110]; Data [121]] in
  fst (allowMultiline Sample.plain_helpers Sample.pasted w) = Val false
  /\ stdin (snd (allowMultiline Sample.plain_helpers Sample.pasted w))
     = [Data [121]]
  /\ prompts (log (snd (allowMultiline Sample.plain_helpers Sample.pasted w)))
     = 2%nat.
Proof.
  intros w.
  destruct (allowMultiline_answers Sample.plain_helpers Sample.pasted w)
    as [_ H].
  assert (Ho : Forall undecided [[112]]).
  { apply Forall_cons. split; [split | now apply Forall_nil].
    - unfold bufSize. cbn. lia.
    - intros [E|[E|[E|[E|[]]]]]; discriminate E. }
  destruct (H [[112]] [Data [110]; Data [121]] eq_refl Ho) as (Hans & _).
  destruct (Hans [110] [Data [121]] eq_refl) as [_ Hn].
  rewrite (Hn (or_introl eq_refl)).
  split; [reflexivity|]. split; [reflexivity|]. vm_compute. reflexivity.
Defined.



End ReadlineFacts.

(* ===================================================================== *)
(** * Properties of the interrupt keys                                    *)
(* ===================================================================== *)

Module InterruptFacts.
Import Go Os.

(** The handlers are found under the two control characters. *)
Lemma isInterrupt_loaded {Hidden Completer : Type}
      (ch : Interrupt.Chars) (rl : Interrupt.Instance Hidden Completer) :
  Interrupt.isInterrupt (Interrupt.loadInterruptHandlers ch rl)
                        (encoderune (Interrupt.charEOF ch))
  = Some Interrupt.H_errorEOF
  /\ (encoderune (Interrupt.charCtrlC ch) <> encoderune (Interrupt.charEOF ch) ->
      Interrupt.isInterrupt (Interrupt.loadInterruptHandlers ch rl)
                            (encoderune (Interrupt.charCtrlC ch))
      = Some Interrupt.H_errorCtrlC).
Proof.
  unfold Interrupt.isInterrupt, Interrupt.loadInterruptHandlers. cbn.
  split.
  - apply lookup_insert_eq.
  - intros Hne. rewrite lookup_insert_ne by congruence. apply lookup_insert_eq.
Qed.




End InterruptFacts.

(* ===================================================================== *)
(** * More on Pop, Caller, MatchedKeys and Feed                         *)
(* ===================================================================== *)

Module KeysFacts.
Import Go Os Core CoreSpec KeysSpec GoFacts CoreFacts.

Lemma int_add_l a b : int (int a + b) = int (a + b).
Proof.
  unfold int.
  rewrite <- (Z.add_assoc _ b), (Z.add_comm b), Z.add_assoc.
  replace ((a + 2 ^ 63) mod 2 ^ 64 - 2 ^ 63 + 2 ^ 63 + b)
    with ((a + 2 ^ 63) mod 2 ^ 64 + b) by lia.
  rewrite Zplus_mod_idemp_l. do 2 f_equal. lia.
Qed.

Lemma int_idem a : int (int a) = int a.
Proof. rewrite <- (Z.add_0_r (int a)) at 1. rewrite int_add_l. f_equal. lia. Qed.

Lemma int_small a : - 2 ^ 63 <= a <= maxInt -> int a = a.
Proof.
  unfold int, maxInt. intros H. rewrite Z.mod_small; lia.
Qed.

(** X1.  [PeekKey] returns the key and the flag that [PopKey] returns
    next, and [Pop] returns the same: the three read the stack in one
    way.  [PopKey] takes the key off without recording it ([matched] and
    [matchedLen] stay as they are), [Pop] records it.  When a key is
    returned the stack is one key shorter; when the empty flag is set
    both queues are empty and nothing changes. *)
Theorem PeekKey_is_next_PopKey (k : Keys) :
  PeekKey k = fst (PopKey k)
  /\ fst (Pop k) = fst (PopKey k)
  /\ buf (snd (Pop k)) = buf (snd (PopKey k))
  /\ macroKeys (snd (Pop k)) = macroKeys (snd (PopKey k))
  /\ matched (snd (PopKey k)) = matched k
  /\ matchedLen (snd (PopKey k)) = matchedLen k
  /\ (snd (PeekKey k) = false ->
      matched (snd (Pop k)) = matched k ++ [fst (PeekKey k)]
      /\ (length (buf (snd (PopKey k))) + length (macroKeys (snd (PopKey k))) + 1
          = length (buf k) + length (macroKeys k))%nat)
  /\ (snd (PeekKey k) = true ->
      buf k = [] /\ macroKeys k = [] /\ PopKey k = ((0, true), k)
      /\ Pop k = ((0, true), k)).
Proof.
  unfold PeekKey, PopKey, Pop.
  destruct (buf k) as [|b rest] eqn:Hb; [destruct (macroKeys k) as [|r q] eqn:Hm|];
    cbn; rewrite ?Hb, ?Hm; repeat split; try reflexivity; try discriminate;
    cbn; lia.
Qed.

Lemma ascii_runes s : ascii s -> stringtoslicerune s = s.
Proof.
  intros H. apply stringtoslicerune_ascii.
  eapply Forall_impl; [exact H|]. cbn. intros; lia.
Qed.

Lemma len_app {A} (l1 l2 : list A) : len (l1 ++ l2) = len l1 + len l2.
Proof. unfold len. rewrite length_app. lia. Qed.

Lemma Pop_sync k : matched_sync k -> matched_sync (snd (Pop k)).
Proof.
  unfold matched_sync, Pop. intros H.
  destruct (buf k); [destruct (macroKeys k)|]; cbn; try assumption;
    rewrite int_idem, len_app, <- int_add_l, H, int_add_l; reflexivity.
Qed.

Lemma FlushUsed_sync k :
  matched_sync (FlushUsed k) /\ Caller (FlushUsed k) = []
  /\ matchedLen (FlushUsed k) = 0.
Proof.
  unfold matched_sync, Caller, FlushUsed.
  destruct (matchedLen k =? 0); repeat split; reflexivity.
Qed.

(** X2.  The count [matchedLen] and the list [matched] stay in step, as
    [int]s, through [Pop], [PopKey] and [Feed], and through [MatchedKeys]
    when the bytes matched are ASCII (the list grows by a rune for each
    character, the count by the number of bytes).  [MatchedPrefix], on an
    ASCII prefix, and [FlushUsed] set both anew, whatever they were. *)
Theorem matched_count_kept (k : Keys) :
  matched_sync k ->
  matched_sync (snd (Pop k))
  /\ matched_sync (snd (PopKey k))
  /\ (forall begin ks, matched_sync (Feed k begin ks))
  /\ (forall m args, ascii m -> matched_sync (MatchedKeys k m args))
  /\ (forall k0 p, ascii p -> p <> [] -> matched_sync (MatchedPrefix k0 p))
  /\ (forall k0, matched_sync (FlushUsed k0)).
Proof.
  intros H. split; [|split; [|split; [|split; [|split]]]].
  - now apply Pop_sync.
  - unfold matched_sync, PopKey.
    destruct (buf k); [destruct (macroKeys k)|]; exact H.
  - intros begin ks. unfold matched_sync, Feed.
    destruct (len ks =? 0); [exact H|]. destruct begin; exact H.
  - intros m args Hm. unfold matched_sync, MatchedKeys in *.
    destruct (0 <? len m); destruct (0 <? len args); cbn; try exact H;
      rewrite int_idem, len_app, (ascii_runes m Hm), <- int_add_l, H, int_add_l;
      reflexivity.
  - intros k0 p Hp Hne. unfold matched_sync, MatchedPrefix.
    destruct (Z.eqb_spec (len p) 0) as [E|E].
    + unfold len in E. destruct p; [congruence | cbn in E; lia].
    + cbn. now rewrite (ascii_runes p Hp).
  - intros k0. apply FlushUsed_sync.
Qed.

Lemma PopN_Caller n : forall k,
  Caller (snd (PopN n k)) = Caller k ++ fst (PopN n k)
  /\ length (fst (PopN n k)) = Nat.min n (length (buf k) + length (macroKeys k))
  /\ (matched_sync k -> matched_sync (snd (PopN n k))).
Proof.
  induction n as [|n IH]; intros k; cbn [PopN].
  - cbn. rewrite app_nil_r. repeat split; auto.
  - pose proof (Pop_sync k) as Hs. revert Hs. unfold Pop.
    destruct (buf k) as [|b rest] eqn:Hb; [destruct (macroKeys k) as [|r q] eqn:Hm|];
      cbn [fst snd]; intros Hs.
    + cbn. rewrite app_nil_r. repeat split; auto.
    + match goal with |- context [PopN n ?k1] =>
        destruct (IH k1) as (H1 & H2 & H3); destruct (PopN n k1) as [ks k2] end.
      cbn [fst snd] in *. cbv beta iota. cbn [fst snd length].
      rewrite H1, H2. unfold Caller. cbn.
      rewrite <- app_assoc, Hb. cbn. repeat split; auto.
    + match goal with |- context [PopN n ?k1] =>
        destruct (IH k1) as (H1 & H2 & H3); destruct (PopN n k1) as [ks k2] end.
      cbn [fst snd] in *. cbv beta iota. cbn [fst snd length].
      rewrite H1, H2. unfold Caller. cbn.
      rewrite <- app_assoc. cbn. repeat split; auto.
Qed.

(** X3.  [Caller] is empty after [FlushUsed], and after [n] more calls of
    [Pop] it is the keys these calls returned, in order: as many as were
    asked for, or as the two queues held.  In general the keys popped
    come after the ones recorded before. *)
Theorem Caller_is_keys_popped (k : Keys) (n : nat) :
  let popped := fst (PopN n (FlushUsed k)) in
  let k' := snd (PopN n (FlushUsed k)) in
  Caller (FlushUsed k) = []
  /\ Caller k' = popped
  /\ int (matchedLen k') = int (len popped)
  /\ length popped = Nat.min n (length (buf k) + length (macroKeys k))
  /\ Caller (snd (PopN n k)) = Caller k ++ fst (PopN n k).
Proof.
  intros popped k'.
  destruct (PopN_Caller n (FlushUsed k)) as (H1 & H2 & H3).
  destruct (FlushUsed_frame k) as (Hb & Hm & _).
  destruct (FlushUsed_sync k) as (Hs & Hc & _).
  rewrite Hc in H1. cbn [app] in H1. rewrite Hb, Hm in H2.
  split; [exact Hc|]. split; [exact H1|]. split; [|split; [exact H2|]].
  - specialize (H3 Hs). unfold matched_sync in H3. fold k' in H3.
    rewrite H3. unfold Caller in H1. fold k' in H1. now rewrite H1.
  - apply PopN_Caller.
Qed.

(** X4.  [MatchedKeys] puts the bytes [args] in front of the pending
    ones: the next calls of [Pop] return them first, in order, and then
    find the buffer as it was.  Unlike [MatchedPrefix] it leaves the
    must-wait flag alone, and adds to the matched keys instead of
    replacing them. *)
Theorem MatchedKeys_args_come_back_first (k : Keys) (m args : gostring) :
  buf (MatchedKeys k m args) = args ++ buf k
  /\ fst (PopN (length args) (MatchedKeys k m args)) = args
  /\ buf (snd (PopN (length args) (MatchedKeys k m args))) = buf k
  /\ mustWait (MatchedKeys k m args) = mustWait k
  /\ macroKeys (MatchedKeys k m args) = macroKeys k
  /\ Caller (MatchedKeys k m args) = Caller k ++ stringtoslicerune m.
Proof.
  assert (Hb : buf (MatchedKeys k m args) = args ++ buf k).
  { unfold MatchedKeys, len.
    destruct m, args; cbn [length]; try reflexivity;
      repeat match goal with
             | |- context [0 <? Z.of_nat (S ?n)] =>
               replace (0 <? Z.of_nat (S n)) with true
                 by (symmetry; apply Z.ltb_lt; lia)
             end; reflexivity. }
  destruct (PopN_pending args (MatchedKeys k m args) (buf k) Hb) as (H1 & H2 & _).
  split; [exact Hb|]. split; [exact H1|]. split; [exact H2|].
  unfold MatchedKeys, Caller, len.
  destruct m, args; cbn [length];
    repeat match goal with
           | |- context [0 <? Z.of_nat (S ?n)] =>
             replace (0 <? Z.of_nat (S n)) with true
               by (symmetry; apply Z.ltb_lt; lia)
           end; cbn; rewrite ?app_nil_r; auto.
Qed.

(** X5.  [Feed] keeps the number and the order of the keys: with [begin]
    false they go behind the macro keys already queued, with [begin] true
    in front of them.  A key that is not a Unicode scalar value (half of
    a surrogate pair, a rune below zero or above U+10FFFF) is queued as
    U+FFFD.  The pending bytes are not touched.  With nothing pending,
    [Pop] then returns the low byte of each key in turn, the older macro
    keys first. *)
Theorem Feed_keeps_order (k : Keys) (ks : list Z) :
  Forall int32_range ks ->
  macroKeys (Feed k false ks) = macroKeys k ++ map to_valid ks
  /\ macroKeys (Feed k true ks) = map to_valid ks ++ macroKeys k
  /\ (forall begin, buf (Feed k begin ks) = buf k
                    /\ length (macroKeys (Feed k begin ks))
                       = (length (macroKeys k) + length ks)%nat)
  /\ (buf k = [] ->
      fst (PopN (length (macroKeys k) + length ks) (Feed k false ks))
      = map byte (macroKeys k ++ map to_valid ks)).
Proof.
  intros Hr.
  assert (Hf : forall begin,
    macroKeys (Feed k begin ks)
    = (if begin then map to_valid ks ++ macroKeys k
       else macroKeys k ++ map to_valid ks)
    /\ buf (Feed k begin ks) = buf k).
  { intros begin. unfold Feed, len. destruct ks as [|r ks'].
    - cbn. rewrite app_nil_r. now destruct begin.
    - cbn [length].
      destruct (Z.eqb_spec (Z.of_nat (S (length ks'))) 0); [lia|].
      rewrite (runes_of_string_of_runes _ Hr). now destruct begin. }
  split; [apply (Hf false)|]. split; [apply (Hf true)|]. split.
  - intros begin. destruct (Hf begin) as [-> ->]. split; [reflexivity|].
    destruct begin; rewrite length_app, length_map; lia.
  - intros Hb. destruct (Hf false) as [Hm Hb'].
    destruct (PopN_macro (macroKeys k ++ map to_valid ks) (Feed k false ks) [])
      as (H1 & _); [congruence | now rewrite app_nil_r|].
    rewrite length_app, length_map in H1. exact H1.
Qed.

(** ** The statements above on sample states *)

Lemma matched_count_kept_witness :
  matched_sync Cases.two_pending
  /\ matched_sync (snd (Pop Cases.two_pending))
  /\ matched_sync (MatchedKeys Cases.two_pending [97; 98] [98])
  /\ matched_sync (MatchedPrefix Cases.two_pending [27; 91]).
Proof.
  assert (H : matched_sync Cases.two_pending) by reflexivity.
  destruct (matched_count_kept Cases.two_pending H) as (H1 & _ & _ & H4 & H5 & _).
  assert (Ha : ascii [97; 98]) by (repeat constructor; lia).
  assert (Hb : ascii [27; 91]) by (repeat constructor; lia).
  split; [exact H|]. split; [exact H1|].
  split; [exact (H4 [97; 98] [98] Ha)|].
  apply (H5 Cases.two_pending [27; 91] Hb). discriminate.
Defined.

Lemma Feed_keeps_order_witness :
  macroKeys (Feed Sample.empty_keys false Cases.fed_keys) = [65; 65533; 8364]
  /\ fst (PopN 3 (Feed Sample.empty_keys false Cases.fed_keys)) = [65; 253; 172].
Proof.
  assert (H : Forall int32_range Cases.fed_keys).
  { repeat constructor; unfold int32_range; lia. }
  destruct (Feed_keeps_order Sample.empty_keys Cases.fed_keys H)
    as (H1 & _ & _ & H4).
  split; [exact H1 | exact (H4 eq_refl)].
Defined.

End KeysFacts.

(* ===================================================================== *)
(** * The cursor answer in the input                                    *)
(* ===================================================================== *)

Module AnswerFacts.
Import Go Os Core CoreSpec KeysSpec GoFacts CoreFacts.

(** A run of digits ends at the first byte that is not a digit. *)
Lemma digits_app d c rest :
  forallb is_digit d = true -> is_digit c = false ->
  digits (d ++ c :: rest) = (d, c :: rest).
Proof.
  intros Hd Hc. induction d as [|x d IH]; cbn [app digits].
  - now rewrite Hc.
  - cbn [forallb] in Hd. apply andb_true_iff in Hd. destruct Hd as [Hx Hd].
    now rewrite Hx, (IH Hd).
Qed.

Lemma digits_stop s d c rest :
  digits s = (d, c :: rest) -> is_digit c = false.
Proof.
  revert d. induction s as [|x s IH]; intros d; cbn [digits]; [discriminate|].
  destruct (is_digit x) eqn:Hx.
  - destruct (digits s) as [d' r'] eqn:E. intros [= <- ->]. now apply (IH d').
  - intros [= <- -> ->]. exact Hx.
Qed.

Lemma rxRcvCursorPos_here_shape s m :
  rxRcvCursorPos_here s = Some m ->
  exists rest,
    s = answer_text (m_row m) (m_col m) ++ rest
    /\ m_len m = length (answer_text (m_row m) (m_col m)).
Proof.
  unfold rxRcvCursorPos_here.
  destruct s as [|c0 [|c1 s1]]; try discriminate.
  destruct (Z.eqb_spec c0 27) as [->|]; [|discriminate].
  destruct (Z.eqb_spec c1 91) as [->|]; [|discriminate]. cbn [andb].
  pose proof (digits_spec s1) as [_ Hs1].
  destruct (digits s1) as [row [|c2 s2]]; [discriminate|].
  destruct (0 <? Z.of_nat (length row)); [|discriminate].
  destruct (Z.eqb_spec c2 59) as [->|]; [|discriminate]. cbn [andb].
  pose proof (digits_spec s2) as [_ Hs2].
  destruct (digits s2) as [col [|c3 s3]]; [discriminate|].
  destruct (0 <? Z.of_nat (length col)); [|discriminate].
  destruct (Z.eqb_spec c3 82) as [->|]; [|discriminate]. cbn [andb].
  intros [= <-]. cbn [m_row m_col m_len fst snd] in *. exists s3. split.
  - unfold answer_text. subst s1 s2. cbn [app]. rewrite <- !app_assoc.
    cbn [app]. rewrite <- !app_assoc. reflexivity.
  - unfold answer_text. cbn [app length]. rewrite !length_app. cbn [length].
    rewrite !length_app. cbn [length]. lia.
Qed.

Lemma rxRcvCursorPos_here_text row col rest :
  digit_string row -> digit_string col ->
  rxRcvCursorPos_here (answer_text row col ++ rest)
  = Some (mkMatch row col (length (answer_text row col))).
Proof.
  intros [Hr1 Hr2] [Hc1 Hc2]. unfold answer_text, rxRcvCursorPos_here.
  cbn [app]. cbn [Z.eqb Pos.eqb andb].
  rewrite <- !app_assoc. cbn [app].
  rewrite (digits_app row 59) by (assumption || reflexivity).
  replace (0 <? Z.of_nat (length row)) with true
    by (symmetry; apply Z.ltb_lt; destruct row; [congruence | cbn; lia]).
  cbn [Z.eqb Pos.eqb andb]. rewrite <- !app_assoc. cbn [app].
  rewrite (digits_app col 82) by (assumption || reflexivity).
  replace (0 <? Z.of_nat (length col)) with true
    by (symmetry; apply Z.ltb_lt; destruct col; [congruence | cbn; lia]).
  cbn [Z.eqb Pos.eqb andb]. do 2 f_equal.
  cbn [length]. rewrite !length_app. cbn [length]. rewrite ?length_app.
  cbn [length]. lia.
Qed.

(** The bytes of a match are a match of their own. *)
Lemma rxRcvCursorPos_here_firstn s m :
  rxRcvCursorPos_here s = Some m ->
  rxRcvCursorPos_here (firstn (m_len m) s) = Some m
  /\ length (firstn (m_len m) s) = m_len m
  /\ (1 <= m_len m <= length s)%nat.
Proof.
  intros H. pose proof (rxRcvCursorPos_here_digits s m H) as [Hrow Hcol].
  destruct (rxRcvCursorPos_here_shape s m H) as (rest & Hs & Hl).
  rewrite Hs at 1 2. rewrite Hl, firstn_app, Nat.sub_diag, firstn_all.
  cbn [firstn]. rewrite app_nil_r.
  rewrite <- (app_nil_r (answer_text _ _)) at 1.
  rewrite rxRcvCursorPos_here_text by assumption.
  split; [destruct m; cbn in *; now rewrite Hl|]. split; [reflexivity|].
  rewrite Hs, length_app. unfold answer_text. cbn. lia.
Qed.

Lemma rxRcvCursorPos_all_matches s : forall skip x,
  In x (rxRcvCursorPos_all skip s) ->
  exists m, rxRcvCursorPos_here x = Some m /\ m_len m = length x.
Proof.
  induction s as [|c s IH]; intros skip x; cbn [rxRcvCursorPos_all]; [easy|].
  destruct skip as [|n]; [|apply IH].
  destruct (rxRcvCursorPos_here (c :: s)) as [m|] eqn:E; [|apply IH].
  intros [<- | Hin]; [|exact (IH _ x Hin)].
  destruct (rxRcvCursorPos_here_firstn _ _ E) as (H1 & H2 & _).
  exists m. now rewrite H2.
Qed.

Lemma rxRcvCursorPos_first_all s :
  rxRcvCursorPos_first s <> None <-> rxRcvCursorPos_all 0 s <> [].
Proof.
  induction s as [|c s IH]; cbn [rxRcvCursorPos_first rxRcvCursorPos_all].
  - cbn. tauto.
  - destruct (rxRcvCursorPos_here (c :: s)); [|exact IH].
    split; intros; discriminate.
Qed.

Lemma rxRcvCursorPos_strip_sublist s : forall skip,
  sublist (rxRcvCursorPos_strip skip s) s.
Proof.
  induction s as [|c s IH]; intros skip; cbn [rxRcvCursorPos_strip];
    [constructor|].
  destruct skip as [|n]; [|constructor; apply IH].
  destruct (rxRcvCursorPos_here (c :: s)); constructor; apply IH.
Qed.

(** Every byte is in a match or left in place. *)
Lemma rxRcvCursorPos_strip_length s : forall skip,
  (skip <= length s)%nat ->
  (length (rxRcvCursorPos_strip skip s)
   + list_sum (map (@length Z) (rxRcvCursorPos_all skip s)) + skip
   = length s)%nat.
Proof.
  induction s as [|c s IH]; intros skip Hs;
    cbn [rxRcvCursorPos_strip rxRcvCursorPos_all length] in *; [cbn; lia|].
  destruct skip as [|n]; [|specialize (IH n ltac:(lia)); lia].
  destruct (rxRcvCursorPos_here (c :: s)) as [m|] eqn:E.
  - destruct (rxRcvCursorPos_here_firstn _ _ E) as (_ & H2 & H3).
    cbn [length] in H3.
    specialize (IH (Nat.pred (m_len m)) ltac:(lia)).
    cbn [map]. unfold list_sum in *. cbn [fold_right]. rewrite H2. lia.
  - specialize (IH 0%nat ltac:(lia)). cbn [length]. lia.
Qed.

Lemma list_sum_In (l : list nat) n : In n l -> (n <= list_sum l)%nat.
Proof.
  unfold list_sum.
  induction l as [|x l IH]; [easy|]. cbn [In fold_right]. intros [-> | H]; [lia|].
  specialize (IH H). lia.
Qed.

Lemma rxRcvCursorPos_first_esc s m :
  rxRcvCursorPos_first s = Some m -> In 27 s.
Proof.
  induction s as [|c s IH]; cbn [rxRcvCursorPos_first].
  - cbn. discriminate.
  - destruct (rxRcvCursorPos_here (c :: s)) as [m'|] eqn:E.
    + intros _. destruct (rxRcvCursorPos_here_shape _ _ E) as (rest & Hs & _).
      rewrite Hs. left. reflexivity.
    + intros H. right. now apply IH.
Qed.

Lemma last_In {A} (l : list A) d : l <> [] -> In (List.last l d) l.
Proof.
  intros H. rewrite (app_removelast_last d H) at 2.
  apply in_or_app. right. now left.
Qed.

(** A byte ESC ends every attempt at a match that began before it. *)
Lemma digits_app_esc s y :
  digits (s ++ 27 :: y) = (fst (digits s), snd (digits s) ++ 27 :: y).
Proof.
  induction s as [|c s IH]; [reflexivity|].
  cbn [app digits]. destruct (is_digit c); [|reflexivity].
  rewrite IH. destruct (digits s) as [d r]. reflexivity.
Qed.

Lemma rxRcvCursorPos_here_app_esc x y :
  x <> [] -> rxRcvCursorPos_here (x ++ 27 :: y) = rxRcvCursorPos_here x.
Proof.
  intros Hx. destruct x as [|c0 [|c1 s1]]; [congruence| |].
  - cbn [app]. unfold rxRcvCursorPos_here.
    change (27 =? 91) with false. now rewrite andb_false_r.
  - cbn [app]. unfold rxRcvCursorPos_here.
    destruct ((c0 =? 27) && (c1 =? 91)); [|reflexivity].
    rewrite digits_app_esc. destruct (digits s1) as [row [|c2 s2]]; cbn [fst snd app].
    + change (27 =? 59) with false. now rewrite andb_false_r.
    + destruct ((0 <? Z.of_nat (length row)) && (c2 =? 59)); [|reflexivity].
      rewrite digits_app_esc.
      destruct (digits s2) as [col [|c3 s3]]; cbn [fst snd app].
      * change (27 =? 82) with false. now rewrite andb_false_r.
      * reflexivity.
Qed.

(** Before the first match every byte is kept, and no match is found. *)
Lemma rxRcvCursorPos_before_esc p y :
  rxRcvCursorPos_first p = None ->
  rxRcvCursorPos_strip 0 (p ++ 27 :: y) = p ++ rxRcvCursorPos_strip 0 (27 :: y)
  /\ rxRcvCursorPos_all 0 (p ++ 27 :: y) = rxRcvCursorPos_all 0 (27 :: y)
  /\ rxRcvCursorPos_first (p ++ 27 :: y) = rxRcvCursorPos_first (27 :: y).
Proof.
  induction p as [|c p IH]; intros Hp; [auto|].
  cbn [rxRcvCursorPos_first] in Hp.
  destruct (rxRcvCursorPos_here (c :: p)) eqn:Hh; [discriminate|].
  destruct (IH Hp) as (I1 & I2 & I3).
  assert (Hh' : rxRcvCursorPos_here ((c :: p) ++ 27 :: y) = None)
    by (rewrite rxRcvCursorPos_here_app_esc; [exact Hh | discriminate]).
  change ((c :: p) ++ 27 :: y) with (c :: (p ++ 27 :: y)) in *.
  cbn [rxRcvCursorPos_strip rxRcvCursorPos_all rxRcvCursorPos_first].
  rewrite Hh', I1, I2, I3. auto.
Qed.

(** The bytes of a match are passed over, whatever follows them. *)
Lemma rxRcvCursorPos_skip x q :
  rxRcvCursorPos_strip (length x) (x ++ q) = rxRcvCursorPos_strip 0 q
  /\ rxRcvCursorPos_all (length x) (x ++ q) = rxRcvCursorPos_all 0 q.
Proof.
  induction x as [|c x IH]; cbn [length app].
  - destruct q; auto.
  - cbn [rxRcvCursorPos_strip rxRcvCursorPos_all]. exact IH.
Qed.

Lemma rxRcvCursorPos_at_answer row col q :
  digit_string row -> digit_string col ->
  rxRcvCursorPos_strip 0 (answer_text row col ++ q) = rxRcvCursorPos_strip 0 q
  /\ rxRcvCursorPos_all 0 (answer_text row col ++ q)
     = answer_text row col :: rxRcvCursorPos_all 0 q
  /\ rxRcvCursorPos_first (answer_text row col ++ q) <> None.
Proof.
  intros Hr Hc.
  pose proof (rxRcvCursorPos_here_text row col q Hr Hc) as Hh.
  remember (answer_text row col) as a eqn:Ea.
  assert (Ha : exists a', a = 27 :: a').
  { subst a. unfold answer_text. cbn [app]. eauto. }
  destruct Ha as [a' ->]. cbn [app] in *.
  cbn [rxRcvCursorPos_strip rxRcvCursorPos_all rxRcvCursorPos_first].
  rewrite Hh. cbn [m_len length Nat.pred].
  destruct (rxRcvCursorPos_skip a' q) as [S1 S2]. rewrite S1, S2.
  split; [reflexivity|]. split; [|discriminate].
  f_equal. cbn [app firstn]. f_equal.
  rewrite firstn_app, Nat.sub_diag, firstn_all. cbn [firstn].
  now rewrite app_nil_r.
Qed.

Lemma rxRcvCursorPos_strip_none s :
  rxRcvCursorPos_first s = None -> rxRcvCursorPos_strip 0 s = s.
Proof.
  induction s as [|c s IH]; [reflexivity|].
  cbn [rxRcvCursorPos_first rxRcvCursorPos_strip].
  destruct (rxRcvCursorPos_here (c :: s)); [discriminate|].
  intros H. now rewrite (IH H).
Qed.

(** X6.  [extractCursorPos] takes the cursor answers out and keeps every
    other byte, in order.  What remains is the input with bytes left
    out; no answer is returned exactly when the input holds none, and the
    input is then returned as it is; this is so when it has no ESC byte.
    An answer that is returned is ESC [ digits ; digits R from its first
    byte to its last.  Piece by piece: the bytes before the first answer
    are kept as they are, the answer is taken out, and what follows is
    filtered in the same way; the answer returned is the last one, so the
    first one when none follows. *)
Theorem extractCursorPos_keeps_other_bytes (s : gostring) :
  let cur := fst (extractCursorPos s) in
  let remain := snd (extractCursorPos s) in
  sublist remain s
  /\ (length remain + length cur <= length s)%nat
  /\ (cur = [] <-> rxRcvCursorPos_first s = None)
  /\ (cur = [] -> remain = s)
  /\ (cur <> [] ->
      exists m, rxRcvCursorPos_here cur = Some m /\ m_len m = length cur
                /\ digit_string (m_row m) /\ digit_string (m_col m))
  /\ (~ In 27 s -> cur = [] /\ remain = s)
  /\ (forall p row col q,
      s = p ++ answer_text row col ++ q ->
      rxRcvCursorPos_first p = None ->
      digit_string row -> digit_string col ->
      remain = p ++ snd (extractCursorPos q)
      /\ cur = match fst (extractCursorPos q) with
               | [] => answer_text row col
               | later => later
               end).
Proof.
  intros cur remain. subst cur remain.
  assert (Hold :
    sublist (snd (extractCursorPos s)) s
    /\ (length (snd (extractCursorPos s)) + length (fst (extractCursorPos s))
        <= length s)%nat
    /\ (fst (extractCursorPos s) = [] <-> rxRcvCursorPos_first s = None)
    /\ (fst (extractCursorPos s) = [] -> snd (extractCursorPos s) = s)
    /\ (fst (extractCursorPos s) <> [] ->
        exists m, rxRcvCursorPos_here (fst (extractCursorPos s)) = Some m
                  /\ m_len m = length (fst (extractCursorPos s))
                  /\ digit_string (m_row m) /\ digit_string (m_col m))
    /\ (~ In 27 s -> fst (extractCursorPos s) = [] /\ snd (extractCursorPos s) = s)).
  { unfold extractCursorPos.
    destruct (rxRcvCursorPos_first s) as [m0|] eqn:Hf; cbn [fst snd].
    - assert (Hne : rxRcvCursorPos_all 0 s <> []).
      { apply rxRcvCursorPos_first_all. congruence. }
      pose proof (last_In _ [] Hne) as Hin.
      destruct (rxRcvCursorPos_all_matches s 0 _ Hin) as (m & Hm & Hl).
      assert (Hcur : List.last (rxRcvCursorPos_all 0 s) [] <> []).
      { intros E. rewrite E in Hm. discriminate Hm. }
      split; [apply rxRcvCursorPos_strip_sublist|]. split; [|split; [|split; [|split]]].
      + pose proof (rxRcvCursorPos_strip_length s 0 ltac:(lia)) as Hlen.
        pose proof (list_sum_In _ _ (in_map (@length Z) _ _ Hin)). lia.
      + split; [contradiction | discriminate].
      + contradiction.
      + intros _. exists m. split; [exact Hm|]. split; [exact Hl|].
        exact (rxRcvCursorPos_here_digits _ m Hm).
      + intros Hno. destruct Hno. now apply (rxRcvCursorPos_first_esc s m0).
    - split; [reflexivity|]. cbn [length]. repeat split; try reflexivity; try lia.
      intros H. contradiction. }
  destruct Hold as (H1 & H2 & H3 & H4 & H5 & H6).
  split; [exact H1|]. split; [exact H2|]. split; [exact H3|].
  split; [exact H4|]. split; [exact H5|]. split; [exact H6|].
  intros p row col q -> Hp Hr Hc.
  destruct (rxRcvCursorPos_at_answer row col q Hr Hc) as (A1 & A2 & A3).
  assert (Ha : exists a', answer_text row col ++ q = 27 :: a').
  { unfold answer_text. cbn [app]. eauto. }
  destruct Ha as [a' Ea].
  destruct (rxRcvCursorPos_before_esc p a' Hp) as (B1 & B2 & B3).
  rewrite <- Ea in B1, B2, B3.
  rewrite <- B3 in A3.
  assert (E : extractCursorPos (p ++ answer_text row col ++ q)
              = (List.last (answer_text row col :: rxRcvCursorPos_all 0 q) [],
                 p ++ rxRcvCursorPos_strip 0 q)).
  { unfold extractCursorPos.
    destruct (rxRcvCursorPos_first (p ++ answer_text row col ++ q));
      [|congruence].
    now rewrite B1, B2, A1, A2. }
  rewrite E. cbn [fst snd]. clear E H1 H2 H3 H4 H5 H6.
  unfold extractCursorPos.
  destruct (rxRcvCursorPos_first q) as [mq|] eqn:Hq; cbn [fst snd].
  - split; [reflexivity|].
    assert (Hne : rxRcvCursorPos_all 0 q <> []).
    { apply rxRcvCursorPos_first_all. congruence. }
    pose proof (last_In _ [] Hne) as Hin.
    destruct (rxRcvCursorPos_all_matches q 0 _ Hin) as (m & Hm & _).
    destruct (rxRcvCursorPos_all 0 q) as [|x l] eqn:El; [congruence|].
    change (List.last (answer_text row col :: x :: l) [])
      with (List.last (x :: l) []).
    destruct (List.last (x :: l) []) eqn:E; [discriminate Hm | reflexivity].
  - rewrite (rxRcvCursorPos_strip_none q Hq). split; [reflexivity|].
    assert (El : rxRcvCursorPos_all 0 q = []).
    { destruct (rxRcvCursorPos_all 0 q) eqn:E; [reflexivity|].
      exfalso. apply (proj2 (rxRcvCursorPos_first_all q)); congruence. }
    rewrite El. reflexivity.
Qed.

(** ** The statement above on a sample input *)

Example extractCursorPos_sample :
  extractCursorPos Sample.typed_around_answer
  = (Sample.answer_24_10, bytes_of_string "abcd")
  /\ extractCursorPos (bytes_of_string "x" ++ [27; 91; 65]
                        ++ Sample.answer_24_10 ++ bytes_of_string "y")
     = (Sample.answer_24_10, bytes_of_string "x" ++ [27; 91; 65]
                               ++ bytes_of_string "y").
Proof. split; reflexivity. Qed.

End AnswerFacts.

(* ===================================================================== *)
(** * More on WaitAvailableKeys                                         *)
(* ===================================================================== *)

Module WaitFacts.
Import Go Os Core CoreSpec KeysSpec GoFacts CoreFacts.

(** A failed read brings no byte. *)
Lemma Read_error n dev bs e dev' :
  Read n dev = ((bs, Some e), dev') -> bs = [].
Proof.
  destruct dev as [|[b|e'] dev]; cbn [Read].
  - now intros [= <- _ _].
  - destruct (length b <=? n)%nat; discriminate.
  - now intros [= <- _ _].
Qed.

(** [readInputFiltered] waits exactly when the read brings a cursor
    answer and no receive waits for it. *)
Lemma readInputFiltered_blocked_iff w :
  fst (readInputFiltered w) = Blocked
  <-> rxRcvCursorPos_first (next_piece (stdin w)) <> None
      /\ ~ answer_awaited (keys w).
Proof.
  unfold readInputFiltered, os_Stdin_Read, next_piece.
  destruct (Read keyScanBufSize (stdin w)) as [[bs err] dev'] eqn:ER.
  cbn [fst snd].
  assert (Hfirst : rxRcvCursorPos_first bs <> None
                   <-> (0 <? len (fst (extractCursorPos bs))) = true).
  { unfold extractCursorPos.
    destruct (rxRcvCursorPos_first bs) as [m|] eqn:Hm; cbn [fst].
    - split; [intros _ | discriminate].
      assert (Hne : rxRcvCursorPos_all 0 bs <> []).
      { clear -Hm. induction bs as [|c bs IH];
          cbn [rxRcvCursorPos_first rxRcvCursorPos_all] in *.
        - cbn in Hm. discriminate.
        - destruct (rxRcvCursorPos_here (c :: bs)); [discriminate | auto]. }
      assert (Hin : In (List.last (rxRcvCursorPos_all 0 bs) [])
                       (rxRcvCursorPos_all 0 bs)).
      { rewrite (app_removelast_last [] Hne) at 2.
        apply in_or_app. right. now left. }
      assert (Hall : forall s skip x, In x (rxRcvCursorPos_all skip s) -> x <> []).
      { clear. induction s as [|c s IH]; intros skip x;
          cbn [rxRcvCursorPos_all]; [easy|].
        destruct skip as [|n]; [|apply IH].
        destruct (rxRcvCursorPos_here (c :: s)) as [m|] eqn:E; [|apply IH].
        intros [<- | Hin]; [|exact (IH _ x Hin)].
        unfold rxRcvCursorPos_here in E.
        destruct s as [|c1 s1]; [discriminate|].
        destruct ((c =? 27) && (c1 =? 91)); [|discriminate].
        destruct (digits s1) as [row [|c2 s2]]; [discriminate|].
        destruct ((0 <? Z.of_nat (length row)) && (c2 =? 59)); [|discriminate].
        destruct (digits s2) as [col [|c3 s3]]; [discriminate|].
        destruct ((0 <? Z.of_nat (length col)) && (c3 =? 82)); [|discriminate].
        injection E as <-. cbn. discriminate. }
      pose proof (Hall _ _ _ Hin) as Hx. unfold len.
      destruct (List.last (rxRcvCursorPos_all 0 bs) []); [congruence|].
      apply Z.ltb_lt. cbn [length]. lia.
    - split; [congruence | discriminate]. }
  destruct (match err with Some e => is_EOF e | None => false end) eqn:Heof.
  - cbn [fst]. split; [discriminate|]. intros [Hf _].
    destruct err as [e|]; [|discriminate].
    apply Read_error in ER. subst bs. cbn in Hf. congruence.
  - destruct (extractCursorPos bs) as [cur ks] eqn:Eex. cbn [fst] in Hfirst.
    destruct (0 <? len cur) eqn:Hlen.
    + match goal with
      | |- context [send_cursor cur ?w1] =>
        pose proof (send_cursor_None cur w1) as Hs;
        destruct (send_cursor cur w1) as [w2|]
      end; cbn [fst keys emit] in *.
      * split; [discriminate|]. intros [_ Hna]. apply Hs in Hna. discriminate.
      * split; [|reflexivity]. intros _. split; [now apply Hfirst|].
        now apply Hs.
    + cbn [fst]. split; [discriminate|]. intros [Hf _].
      apply Hfirst in Hf. discriminate.
Qed.




(** X8.  [WaitAvailableKeys] passes over the reads that bring no key: a
    read that fails with an error other than [io.EOF], and a read of no
    byte.  When it has to wait, and after such reads the device has a
    piece typed by the user, the call returns with this piece added to
    the pending bytes and the rest of the input still on the device.
    When the end of input comes first, the pending bytes are as they
    were and nothing was sent on, after one read more than were passed
    over. *)
Theorem WaitAvailableKeys_passes_over_failed_reads
        (w : World) (skipped : list ReadEvent) (rest : Device) :
  ~ keys_available (keys w) ->
  stdin w = skipped ++ rest ->
  Forall (fun e => skippable e = true) skipped ->
  let w' := snd (WaitAvailableKeys w) in
  (forall bs dev, rest = Data bs :: dev -> typed_piece bs ->
     reading (keys w) = false ->
     buf (keys w') = buf (keys w) ++ bs
     /\ stdin w' = dev
     /\ log w' = log w ++ map skipped_read skipped ++ [EvRead bs None])
  /\ (at_end rest ->
      buf (keys w') = buf (keys w)
      /\ keysOnce (keys w') = keysOnce (keys w)
      /\ reads (log w') = S (reads (log w) + length skipped)).
Proof.
  intros Ha Hd Hs w'. subst w'.
  destruct (WaitAvailableKeys_run w skipped rest Ha Hd Hs) as [Hkeys Hend].
  split.
  - intros bs dev Hrest Ht Hr. rewrite (Hkeys bs dev Hrest Ht Hr).
    cbn. auto.
  - intros He. rewrite (Hend He). cbn [snd keys log buf keysOnce set_waiting].
    rewrite app_assoc, reads_snoc, reads_skipped. cbn [is_read].
    repeat split; lia.
Qed.

(** ** The statements above on sample states *)

Lemma WaitAvailableKeys_passes_over_failed_reads_witness :
  let w := Sample.world_of Sample.empty_keys Cases.slow_terminal in
  buf (keys (snd (WaitAvailableKeys w))) = [104; 105]
  /\ stdin (snd (WaitAvailableKeys w)) = [Data [33]]
  /\ log (snd (WaitAvailableKeys w))
     = [EvRead [] (Some (ErrNew "interrupted system call")); EvRead [] None;
        EvRead [104; 105] None].
Proof.
  intros w.
  assert (Ha : ~ keys_available (keys w)).
  { intros [[Hb _] | Hm]; [apply Hb | apply Hm]; reflexivity. }
  assert (Hs : Forall (fun e => skippable e = true)
                      [Fail (ErrNew "interrupted system call"); Data []]).
  { repeat constructor. }
  destruct (WaitAvailableKeys_passes_over_failed_reads
              w [Fail (ErrNew "interrupted system call"); Data []]
              [Data [104; 105]; Data [33]] Ha eq_refl Hs) as [Hkeys _].
  assert (Ht : typed_piece [104; 105]).
  { split; [discriminate|]. split; [unfold keyScanBufSize; cbn; lia | reflexivity]. }
  exact (Hkeys [104; 105] [Data [33]] eq_refl Ht eq_refl).
Defined.

End WaitFacts.

(* ===================================================================== *)
(** * More on GetCursorPos                                              *)
(* ===================================================================== *)

Module CursorFacts.
Import Go Os Core CoreSpec KeysSpec GoFacts CoreFacts WaitFacts.

(** X9.  [GetCursorPos] keeps what is typed before the answer comes.
    With no read in flight, pieces of input without an answer and then a
    piece with the answer: the call returns the column and the row of
    the answer, in this order; the pieces read before it are pending, in
    order, after what was pending already; the input after the answer is
    still on the device, and nothing is written to standard error. *)
Theorem GetCursorPos_keeps_keys_typed_before
        (w : World) (typed : list gostring) (ans : gostring) (dev : Device)
        (m : CursorMatch) :
  direct (keys w) ->
  stdin w = map Data typed ++ Data ans :: dev ->
  Forall typed_piece typed ->
  (length ans <= keyScanBufSize)%nat ->
  rxRcvCursorPos_first ans = Some m ->
  decimal (m_row m) <= maxInt -> decimal (m_col m) <= maxInt ->
  fst (GetCursorPos w) = Done (decimal (m_col m), decimal (m_row m))
  /\ buf (keys (snd (GetCursorPos w))) = buf (keys w) ++ concat typed
  /\ stdin (snd (GetCursorPos w)) = dev
  /\ log (snd (GetCursorPos w))
     = log w ++ [EvStdout cursor_query]
             ++ map (fun t => EvRead t None) typed ++ [EvRead ans None].
Proof.
  intros Hdir Hd Ht Hlen Hm Hrow Hcol.
  destruct (rxRcvCursorPos_first_digits ans m Hm) as [Hdr Hdc].
  destruct (GetCursorPos_run w typed _ Hdir Hd Ht) as [fuel ->].
  rewrite (GetCursorPos_loop_answer fuel _ ans dev m);
    [|exact Hdir | reflexivity | exact Hlen | exact Hm].
  unfold GetCursorPos_answer_of.
  rewrite (Atoi_digit_string_value _ Hdr Hrow), (Atoi_digit_string_value _ Hdc Hcol).
  cbn. rewrite <- !app_assoc. auto.
Qed.

(** ** The statement above on a sample state *)

Lemma GetCursorPos_keeps_keys_typed_before_witness :
  let w := Sample.world_of Sample.empty_keys Cases.typed_then_answer in
  fst (GetCursorPos w) = Done (10, 24)
  /\ buf (keys (snd (GetCursorPos w))) = [97; 98; 99]
  /\ stdin (snd (GetCursorPos w)) = [Data [100]].
Proof.
  intros w.
  assert (Hd : direct (keys w)) by (split; reflexivity).
  assert (Ht : Forall typed_piece [[97; 98]; [99]]).
  { repeat constructor; try discriminate; unfold keyScanBufSize; cbn; lia. }
  assert (Hl : (length Sample.answer_24_10 <= keyScanBufSize)%nat).
  { unfold keyScanBufSize. cbn. lia. }
  assert (Hrow : decimal [50; 52] <= maxInt) by (unfold maxInt; cbn; lia).
  assert (Hcol : decimal [49; 48] <= maxInt) by (unfold maxInt; cbn; lia).
  destruct (GetCursorPos_keeps_keys_typed_before
              w [[97; 98]; [99]] Sample.answer_24_10 [Data [100]]
              (mkMatch [50; 52] [49; 48] 8) Hd eq_refl Ht Hl eq_refl Hrow Hcol)
    as (H1 & H2 & H3 & _).
  split; [exact H1|]. split; [exact H2 | exact H3].
Defined.

End CursorFacts.

(* ===================================================================== *)
(** * Properties of ReadKey                                             *)
(* ===================================================================== *)

Module ReadKeyFacts.
Import Go Os Core CoreReadKey CoreSpec KeysSpec GoFacts CoreFacts WaitFacts.

Section WithEsc.
Variable Esc : Z.

Lemma ReadKey_record_effect key w :
  fst (ReadKey_record Esc key w) = Key key (key =? Esc)
  /\ buf (keys (snd (ReadKey_record Esc key w))) = buf (keys w)
  /\ macroKeys (keys (snd (ReadKey_record Esc key w))) = macroKeys (keys w)
  /\ Caller (keys (snd (ReadKey_record Esc key w))) = Caller (keys w) ++ [key]
  /\ reading (keys (snd (ReadKey_record Esc key w))) = false
  /\ stdin (snd (ReadKey_record Esc key w)) = stdin w
  /\ log (snd (ReadKey_record Esc key w)) = log w.
Proof. cbn. repeat split; reflexivity. Qed.

Lemma ReadKey_first_effect bs w :
  buf (keys (snd (ReadKey_first Esc bs w))) = buf (keys w)
  /\ reading (keys (snd (ReadKey_first Esc bs w))) = false
  /\ stdin (snd (ReadKey_first Esc bs w)) = stdin w
  /\ log (snd (ReadKey_first Esc bs w)) = log w
  /\ fst (ReadKey_first Esc bs w) <> KeyBlocked.
Proof.
  unfold ReadKey_first. destruct (stringtoslicerune bs); cbn;
    repeat split; try reflexivity; discriminate.
Qed.

(** X10.  [ReadKey] takes a macro key first when there is one, also
    while bytes are pending ([Pop], on the same state, returns the
    pending byte and leaves the macro queue).  The key is returned as
    the rune it is, recorded as matched and taken off the queue; the
    device is not read, the pending bytes stay, and [reading] is false
    again at the end. *)
Theorem ReadKey_takes_macro_key_first (w : World) (r : Z) (rest : list Z) :
  macroKeys (keys w) = r :: rest ->
  let w' := snd (ReadKey Esc w) in
  fst (ReadKey Esc w) = Key r (r =? Esc)
  /\ macroKeys (keys w') = rest
  /\ Caller (keys w') = Caller (keys w) ++ [r]
  /\ buf (keys w') = buf (keys w)
  /\ stdin w' = stdin w /\ log w' = log w
  /\ reading (keys w') = false
  /\ (forall b bs, buf (keys w) = b :: bs ->
        fst (Pop (keys w)) = (b, false)
        /\ macroKeys (snd (Pop (keys w))) = r :: rest).
Proof.
  intros Hm w'. subst w'. unfold ReadKey.
  cbn [upd_keys keys macroKeys set_reading set_keysOnce]. rewrite Hm.
  cbn. repeat split; try reflexivity.
  - unfold Pop. rewrite H. reflexivity.
  - unfold Pop. rewrite H. cbn. exact Hm.
Qed.

(** X11.  [ReadKey] never takes a pending byte and never adds one.  With
    the macro queue empty and the main loop waiting it waits at the
    receive, the device not read: its channel is new.  It waits exactly
    then, or when it reads the device itself and the read brings a
    cursor answer that no receive waits for.  While it waits [reading]
    is still set; on every other way out [reading] is false again.  It
    reads the device, once, exactly when the macro queue is empty and
    the main loop is not waiting. *)
Theorem ReadKey_never_uses_pending (w : World) :
  let res := fst (ReadKey Esc w) in
  let w' := snd (ReadKey Esc w) in
  buf (keys w') = buf (keys w)
  /\ (macroKeys (keys w) = [] -> waiting (keys w) = true ->
      res = KeyBlocked /\ stdin w' = stdin w /\ log w' = log w)
  /\ (res = KeyBlocked
      <-> macroKeys (keys w) = []
          /\ (waiting (keys w) = true
              \/ (rxRcvCursorPos_first (next_piece (stdin w)) <> None
                  /\ ~ answer_awaited (keys w))))
  /\ (res = KeyBlocked -> reading (keys w') = true)
  /\ (res <> KeyBlocked -> reading (keys w') = false)
  /\ (reads (log w') = S (reads (log w))
      <-> macroKeys (keys w) = [] /\ waiting (keys w) = false)
  /\ (reads (log w) <= reads (log w') <= S (reads (log w)))%nat.
Proof.
  intros res w'. subst res w'. unfold ReadKey.
  cbn [upd_keys keys macroKeys waiting keysOnce set_reading set_keysOnce].
  destruct (macroKeys (keys w)) as [|r rest] eqn:Hm.
  - destruct (waiting (keys w)) eqn:Hw.
    + unfold ReadKey_receive. cbn.
      split; [reflexivity|]. split; [auto|]. split; [split; auto|].
      split; [auto|]. split; [congruence|].
      split; [split; [lia | intros [_ H]; discriminate] | lia].
    + set (w0 := upd_keys (fun k => set_reading true (set_keysOnce make_chan k)) w).
      pose proof (readInputFiltered_effect w0) as He.
      pose proof (readInputFiltered_blocked_iff w0) as Hbl.
      cbn [stdin w0] in Hbl.
      assert (Haw : answer_awaited (keys w0) <-> answer_awaited (keys w))
        by reflexivity.
      rewrite Haw in Hbl.
      destruct (readInputFiltered w0) as [[[bs err]| |] w1];
        cbn [fst snd] in He, Hbl; destruct He as (Hr & [ch Hk] & Hne & _);
        [| |congruence].
      * destruct (ReadKey_first_effect bs w1) as (F1 & F2 & F3 & F4 & F5).
        rewrite F1, F2, F4, Hk, Hr. unfold w0. cbn.
        split; [reflexivity|]. split; [discriminate|].
        split.
        { split; [contradiction|]. intros [_ [Hc | Hc]]; [discriminate|].
          apply Hbl in Hc. discriminate. }
        split; [contradiction|]. split; [auto|].
        split; [split; auto | lia].
      * cbn [fst snd]. rewrite Hk, Hr. unfold w0. cbn.
        split; [reflexivity|]. split; [discriminate|].
        split.
        { split; [|reflexivity]. intros _. split; [reflexivity|]. right.
          now apply Hbl. }
        split; [auto|]. split; [congruence|].
        split; [split; auto | lia].
  - cbn. split; [reflexivity|]. split; [discriminate|].
    split; [split; [discriminate | intros [H _]; discriminate]|].
    split; [discriminate|]. split; [auto|].
    split; [split; [lia | intros [H _]; discriminate] | lia].
Qed.

Lemma stringtoslicerune_head c s :
  exists key tl, stringtoslicerune (c :: s) = key :: tl
                 /\ (c < 128 -> key = c).
Proof.
  unfold stringtoslicerune. cbn [stringtoslicerune_from].
  destruct (Z.ltb_spec c 128).
  - eexists _, _. split; [reflexivity | reflexivity].
  - destruct (decoderune (c :: s)) as [r wd]. eexists _, _.
    split; [reflexivity | lia].
Qed.

(** X12.  A read made by [ReadKey] itself keeps one rune.  Of a piece
    typed by the user the first rune is returned (the first byte when it
    is ASCII) and recorded as matched; the other bytes of the piece are
    not pending and no longer on the device. *)
Theorem ReadKey_keeps_first_rune_only
        (w : World) (bs : gostring) (dev : Device) :
  macroKeys (keys w) = [] -> waiting (keys w) = false ->
  stdin w = Data bs :: dev -> typed_piece bs ->
  let w' := snd (ReadKey Esc w) in
  exists key others,
    stringtoslicerune bs = key :: others
    /\ fst (ReadKey Esc w) = Key key (key =? Esc)
    /\ (hd 0 bs < 128 -> key = hd 0 bs)
    /\ Caller (keys w') = Caller (keys w) ++ [key]
    /\ buf (keys w') = buf (keys w)
    /\ macroKeys (keys w') = []
    /\ stdin w' = dev
    /\ log w' = log w ++ [EvRead bs None].
Proof.
  intros Hm Hw Hd (Hne & Hlen & Hno) w'. subst w'. unfold ReadKey.
  cbn [upd_keys keys macroKeys waiting keysOnce set_reading set_keysOnce].
  rewrite Hm, Hw.
  match goal with
  | |- context [readInputFiltered ?w1] =>
    pose proof (readInputFiltered_cases w1) as Hc; cbn [stdin upd_keys] in Hc
  end.
  rewrite Hd in Hc. rewrite (Hc Hlen Hno).
  destruct bs as [|c s]; [congruence|].
  destruct (stringtoslicerune_head c s) as (key & tl & E & Hk).
  exists key, tl. unfold ReadKey_first. rewrite E. cbn.
  repeat split; auto.
Qed.

(** X13.  [ReadKey] panics when its own read brings no byte: at the end
    of input, on a failed read, on a read of nothing (the first rune of
    an empty string is asked for).  The deferred function has run:
    [reading] is false.  Nothing is recorded as matched and the pending
    bytes stay. *)
Theorem ReadKey_panics_without_key (w : World) :
  macroKeys (keys w) = [] -> waiting (keys w) = false ->
  at_end (stdin w)
  \/ (exists e dev, stdin w = e :: dev /\ skippable e = true) ->
  let w' := snd (ReadKey Esc w) in
  fst (ReadKey Esc w) = KeyPanic
  /\ reading (keys w') = false
  /\ Caller (keys w') = Caller (keys w)
  /\ buf (keys w') = buf (keys w)
  /\ reads (log w') = S (reads (log w)).
Proof.
  intros Hm Hw Hd w'. subst w'. unfold ReadKey.
  cbn [upd_keys keys macroKeys waiting keysOnce set_reading set_keysOnce].
  rewrite Hm, Hw.
  match goal with
  | |- context [readInputFiltered ?w1] =>
    pose proof (readInputFiltered_cases w1) as Hc; cbn [stdin upd_keys] in Hc
  end.
  destruct Hd as [[Hd | [dev Hd]] | (e & dev & Hd & He)]; rewrite Hd in Hc.
  - rewrite Hc. cbn. rewrite reads_snoc. cbn. repeat split; auto. lia.
  - rewrite Hc. cbn. rewrite reads_snoc. cbn. repeat split; auto. lia.
  - destruct e as [[|b bs]|er]; cbn in He; try discriminate.
    + rewrite Hc by (unfold keyScanBufSize; cbn; lia || reflexivity).
      cbn. rewrite reads_snoc. cbn. repeat split; auto. lia.
    + rewrite Hc. cbn. rewrite reads_snoc. cbn. repeat split; auto. lia.
Qed.

End WithEsc.

(** ** The statements above on sample states *)

Lemma ReadKey_takes_macro_key_first_witness :
  let w := Sample.world_of Cases.macro_and_pending [Data [99]] in
  fst (ReadKey 27 w) = Key 8364 false
  /\ macroKeys (keys (snd (ReadKey 27 w))) = [98]
  /\ buf (keys (snd (ReadKey 27 w))) = [97]
  /\ stdin (snd (ReadKey 27 w)) = [Data [99]]
  /\ fst (Pop (keys w)) = (97, false).
Proof.
  intros w.
  destruct (ReadKey_takes_macro_key_first 27 w 8364 [98] eq_refl)
    as (H1 & H2 & _ & H4 & H5 & _ & _ & H8).
  destruct (H8 97 [] eq_refl) as [H9 _].
  repeat split; assumption.
Defined.

Lemma ReadKey_keeps_first_rune_only_witness :
  let w := Sample.world_of Sample.empty_keys [Data Cases.euro_bc] in
  exists key others,
    stringtoslicerune Cases.euro_bc = key :: others
    /\ fst (ReadKey 27 w) = Key key (key =? 27)
    /\ buf (keys (snd (ReadKey 27 w))) = []
    /\ stdin (snd (ReadKey 27 w)) = [].
Proof.
  intros w.
  assert (Ht : typed_piece Cases.euro_bc).
  { split; [discriminate|]. split; [unfold keyScanBufSize; cbn; lia | reflexivity]. }
  destruct (ReadKey_keeps_first_rune_only 27 w Cases.euro_bc [] eq_refl eq_refl
              eq_refl Ht) as (key & others & H1 & H2 & _ & _ & H5 & _ & H7 & _).
  exists key, others. repeat split; assumption.
Defined.

Lemma ReadKey_panics_without_key_witness :
  let w := Sample.world_of Sample.empty_keys [] in
  fst (ReadKey 27 w) = KeyPanic
  /\ reading (keys (snd (ReadKey 27 w))) = false.
Proof.
  intros w.
  assert (He : at_end (stdin w)
               \/ (exists e dev, stdin w = e :: dev /\ skippable e = true)).
  { left. left. reflexivity. }
  destruct (ReadKey_panics_without_key 27 w eq_refl eq_refl He) as (H1 & H2 & _).
  split; assumption.
Defined.

End ReadKeyFacts.

(* ===================================================================== *)
(** * The runes of a piece of input                                     *)
(* ===================================================================== *)

Module LoopFacts.
Import Go Os Readline ReadlineSpec LoopSpec GoFacts ReadlineFacts.

(** ** isMultiline *)

(** X14.  [isMultiline] holds exactly when a carriage return or a line
    feed stands before the last rune.  The last rune never counts: with
    one more rune at the end the answer is whether the runes before it
    hold a line break, and a single rune is never multiline. *)
Theorem isMultiline_iff (r : list Z) :
  (isMultiline r = true
   <-> exists (i : nat) (c : Z),
         r !! i = Some c /\ (c = 13 \/ c = 10) /\ (S i < length r)%nat)
  /\ (forall c, isMultiline (r ++ [c]) = existsb (fun x => (x =? 13) || (x =? 10)) r)
  /\ (forall c, isMultiline [c] = false).
Proof.
  split; [|split].
  - induction r as [|x r IH]; cbn [isMultiline].
    + split; [discriminate | intros (i & c & H & _); discriminate H].
    + destruct (((x =? 13) || (x =? 10)) && negb (Nat.eqb (length r) 0)) eqn:E.
      * split; [|reflexivity]. intros _.
        apply andb_true_iff in E. destruct E as [E1 E2].
        apply negb_true_iff, Nat.eqb_neq in E2.
        exists 0%nat, x. split; [reflexivity|]. split; [|cbn; lia].
        apply orb_true_iff in E1. rewrite !Z.eqb_eq in E1. exact E1.
      * rewrite IH. split.
        -- intros (i & c & H1 & H2 & H3). exists (S i), c.
           split; [exact H1|]. split; [exact H2 | cbn; lia].
        -- intros (i & c & H1 & H2 & H3). destruct i as [|i].
           ++ cbn in H1. injection H1 as ->.
              apply andb_false_iff in E. destruct E as [E | E].
              ** apply orb_false_iff in E. rewrite !Z.eqb_neq in E. lia.
              ** apply negb_false_iff, Nat.eqb_eq in E. cbn in H3. lia.
           ++ exists i, c. split; [exact H1|]. split; [exact H2 | cbn in H3; lia].
  - intros c. induction r as [|x r IH]; [cbn; now rewrite andb_false_r|].
    cbn [app isMultiline existsb]. rewrite IH, length_app. cbn [length].
    replace (Nat.eqb (length r + 1) 0) with false
      by (symmetry; apply Nat.eqb_neq; lia).
    cbn [negb]. rewrite andb_true_r.
    destruct ((x =? 13) || (x =? 10)); reflexivity.
  - intros c. cbn. now rewrite andb_false_r.
Qed.

(** ** The runes of a piece read *)

Lemma stringtoslicerune_zeros n :
  stringtoslicerune (repeat 0 n) = repeat 0 n.
Proof.
  apply stringtoslicerune_ascii.
  induction n as [|n IH]; cbn [repeat]; constructor; [lia | exact IH].
Qed.

Lemma firstn_repeat_le {A} (x : A) n m :
  (n <= m)%nat -> firstn n (repeat x m) = repeat x n.
Proof.
  revert m. induction n as [|n IH]; intros m H; [reflexivity|].
  destruct m as [|m]; [lia|]. cbn. f_equal. apply IH. lia.
Qed.

Lemma stringtoslicerune_runes_app rs rest :
  Forall valid_rune rs ->
  stringtoslicerune (slicerunetostring rs ++ rest)
  = rs ++ stringtoslicerune rest.
Proof.
  unfold stringtoslicerune, slicerunetostring.
  induction 1 as [|r rs Hr _ IH]; [reflexivity|].
  cbn [flat_map]. rewrite <- app_assoc.
  now rewrite stringtoslicerune_encoderune, IH.
Qed.

Lemma encoderune_nonempty r : (1 <= length (encoderune r))%nat.
Proof.
  unfold encoderune.
  repeat match goal with |- context [if ?b then _ else _] => destruct b end;
    cbn; lia.
Qed.

Lemma slicerunetostring_length rs :
  (length rs <= length (slicerunetostring rs))%nat.
Proof.
  unfold slicerunetostring. induction rs as [|r rs IH]; [cbn; lia|].
  cbn [flat_map length]. rewrite length_app.
  pose proof (encoderune_nonempty r). lia.
Qed.

(** X15.  The runes given to the editor, [r[:i]], are cut at the number
    of bytes read, not of runes.  For well-formed input that fits they
    are the runes typed followed by a NUL for every byte a rune takes
    beyond its first; they are the runes typed when these are ASCII. *)
Theorem read_runes_pads_with_NUL (rs : list Z) :
  Forall valid_rune rs ->
  let chunk := slicerunetostring rs in
  (length chunk <= bufSize)%nat ->
  (2 * length chunk <= bufSize + length rs)%nat ->
  read_runes chunk = Some (rs ++ repeat 0 (length chunk - length rs))
  /\ (length rs <= length chunk)%nat
  /\ (Forall (fun c => c < 128) rs -> chunk = rs /\ read_runes chunk = Some rs).
Proof.
  intros Hv chunk Hlen Hfit.
  pose proof (slicerunetostring_length rs) as Hle. fold chunk in Hle.
  assert (Hr : read_runes chunk
               = Some (rs ++ repeat 0 (length chunk - length rs))).
  { unfold read_runes, read_buffer. subst chunk.
    rewrite (stringtoslicerune_runes_app rs _ Hv), stringtoslicerune_zeros.
    rewrite length_app, repeat_length.
    destruct (Nat.ltb_spec (length rs + (bufSize - length (slicerunetostring rs)))
                (length (slicerunetostring rs))); [lia|].
    f_equal. rewrite firstn_app.
    rewrite firstn_all2 by lia. f_equal.
    apply firstn_repeat_le. lia. }
  split; [exact Hr|]. split; [exact Hle|].
  intros Ha.
  assert (E : chunk = rs).
  { subst chunk. unfold slicerunetostring. clear -Ha Hv.
    induction rs as [|r rs IH]; [reflexivity|].
    apply Forall_cons in Ha, Hv. destruct Ha as [Hr Ha], Hv as [[Hv _] Hvs].
    cbn [flat_map]. rewrite encoderune_1 by lia. cbn. f_equal. now apply IH. }
  split; [exact E|]. rewrite Hr, E, Nat.sub_diag. cbn. now rewrite app_nil_r.
Qed.

(** ** The statement above on a sample input *)

Lemma read_runes_pads_with_NUL_witness :
  slicerunetostring [233] = Cases.e_acute
  /\ read_runes Cases.e_acute = Some [233; 0].
Proof.
  assert (Hv : Forall valid_rune [233]).
  { repeat constructor; unfold maxRune, surrogateMin, surrogateMax; lia. }
  assert (Hl : (length (slicerunetostring [233%Z]) <= bufSize)%nat).
  { change (length (slicerunetostring [233%Z])) with 2%nat.
    unfold bufSize. lia. }
  assert (Hf : (2 * length (slicerunetostring [233%Z]) <= bufSize + length [233%Z])%nat).
  { change (length (slicerunetostring [233%Z])) with 2%nat.
    unfold bufSize. cbn [length]. lia. }
  destruct (read_runes_pads_with_NUL [233] Hv Hl Hf) as (H1 & _).
  split; [reflexivity | exact H1].
Defined.

End LoopFacts.

(* ===================================================================== *)
(** * More on the switch of the loop                                    *)
(* ===================================================================== *)

Module DispatchFacts.
Import Go Os Readline ReadlineSpec LoopSpec GoFacts ReadlineFacts.

Section WithHelpers.
Context {Hidden GroupRef : Type} (hp : Helpers Hidden GroupRef) (cs : Consts).

Implicit Types (w : World Hidden) (rl : Instance Hidden) (r : list Z).

(** ** editorInput in the vi modes, and without runes *)

(** X16.  [editorInput] in the two other modes, and without runes.  In
    vi-command mode the first rune alone is used, and given to [vi]; in
    delete-pending mode all runes go to [vimDelete].  With no rune the
    call panics in vi-command mode, and in replace-once mode after the
    mode was set and [delete] called; in the three other modes it
    returns. *)
Theorem editorInput_vi_modes w r :
  (modeViMode (inst w) = vimKeys ->
   forall (c : Z) (rest : list Z), r = c :: rest ->
     editorInput hp r w
     = (Val tt, finish hp (do_calls hp [CVi c; CRefreshVimStatus] w)))
  /\ (modeViMode (inst w) = vimDelete ->
      editorInput hp r w
      = (Val tt, finish hp (do_calls hp [CVimDelete r; CRefreshVimStatus] w)))
  /\ (modeViMode (inst w) = vimKeys -> editorInput hp [] w = (Panic, w))
  /\ (modeViMode (inst w) = vimReplaceOnce ->
      editorInput hp [] w
      = (Panic, do_calls hp [CDelete] (with_mode vimKeys w)))
  /\ (modeViMode (inst w) = vimInsert \/ modeViMode (inst w) = vimDelete
      \/ modeViMode (inst w) = vimReplaceMany ->
      fst (editorInput hp [] w) = Val tt).
Proof.
  split; [|split; [|split; [|split]]].
  - intros Hm c rest ->. unfold editorInput. unfold bind at 1, get at 1.
    rewrite Hm. apply editorInput_finish.
    cbv [bind call do_calls run_calls fold_left map inst stdin log].
    now rewrite <- !app_assoc.
  - intros Hm. unfold editorInput. unfold bind at 1, get at 1.
    rewrite Hm. apply editorInput_finish.
    cbv [bind call do_calls run_calls fold_left map inst stdin log].
    now rewrite <- !app_assoc.
  - intros Hm. unfold editorInput. unfold bind at 1, get at 1. rewrite Hm.
    reflexivity.
  - intros Hm. unfold editorInput. unfold bind at 1, get at 1. rewrite Hm.
    reflexivity.
  - intros [Hm | [Hm | Hm]].
    + now rewrite (editorInput_insert hp w [] Hm).
    + unfold editorInput. unfold bind at 1, get at 1. rewrite Hm.
      erewrite editorInput_finish; [reflexivity|].
      cbv [bind call]. reflexivity.
    + now rewrite (editorInput_replace_many hp w [] Hm).
Qed.

(** ** Enter *)

Lemma carridgeReturn_cases w :
  carridgeReturn hp w
  = (Val tt, mkWorld (fst (after_return hp (inst w))) (stdin w)
                     (log w ++ snd (after_return hp (inst w)))).
Proof.
  unfold carridgeReturn, after_return.
  cbv [bind call print emit get set ret History_Write_call].
  cbn [inst stdin log].
  destruct (HistoryAutoWrite (run hp CClearHelpers (inst w))).
  - destruct (snd (History_Write hp _ _)); cbn [inst stdin log fst snd];
      rewrite <- !app_assoc; reflexivity.
  - cbn [fst snd]. rewrite <- !app_assoc. reflexivity.
Qed.

Lemma dispatch_to_Enter b0 r w :
  b0 = 13 \/ b0 = 10 -> ~ In b0 (keys_before_enter cs) ->
  modeTabCompletion (inst w) = false ->
  dispatch hp cs b0 r w
  = (Val (Return (slicerunetostring (line (fst (after_return hp (inst w))))) None),
     mkWorld (fst (after_return hp (inst w))) (stdin w)
             (log w ++ snd (after_return hp (inst w)))).
Proof.
  intros Hb Hnot Htc. unfold keys_before_enter in Hnot. cbn [In] in Hnot.
  unfold dispatch.
  destruct (Z.eqb_spec b0 (charCtrlC cs)) as [e|_]; [symmetry in e; tauto|].
  destruct (Z.eqb_spec b0 (charEOF cs)) as [e|_]; [symmetry in e; tauto|].
  destruct (Z.eqb_spec b0 (charCtrlF cs)) as [e|_]; [symmetry in e; tauto|].
  destruct (Z.eqb_spec b0 (charCtrlR cs)) as [e|_]; [symmetry in e; tauto|].
  destruct (Z.eqb_spec b0 (charCtrlU cs)) as [e|_]; [symmetry in e; tauto|].
  destruct (Z.eqb_spec b0 (charTab cs)) as [e|_]; [symmetry in e; tauto|].
  assert (He : (b0 =? 13) || (b0 =? 10) = true).
  { destruct Hb as [-> | ->]; reflexivity. }
  rewrite He. unfold bind at 1, get at 1. rewrite Htc.
  unfold bind at 1. rewrite carridgeReturn_cases. reflexivity.
Qed.

(** X17.  Enter, outside of tab completion, ends the call with the line
    and no error, always.  The helpers are cleared and a new line is
    written; when [HistoryAutoWrite] is set the line is written to the
    history and [histPos] takes the position returned, and when this
    write fails its error is printed, not returned. *)
Theorem Enter_returns_line_whatever_history_does b0 r w :
  b0 = 13 \/ b0 = 10 -> ~ In b0 (keys_before_enter cs) ->
  modeTabCompletion (inst w) = false ->
  let rl1 := run hp CClearHelpers (inst w) in
  let s := slicerunetostring (line rl1) in
  exists rl' evs,
    dispatch hp cs b0 r w
    = (Val (Return (slicerunetostring (line rl')) None),
       mkWorld rl' (stdin w)
               (log w ++ Called CClearHelpers :: Io (EvStdout crlf) :: evs))
    /\ (HistoryAutoWrite rl1 = false -> evs = [] /\ rl' = rl1)
    /\ (HistoryAutoWrite rl1 = true ->
        rl' = set_histPos (fst (History_Write hp s rl1))
                          (run hp (CHistoryWrite s) rl1)
        /\ (snd (History_Write hp s rl1) = None ->
            evs = [Called (CHistoryWrite s)])
        /\ (forall e, snd (History_Write hp s rl1) = Some e ->
            evs = [Called (CHistoryWrite s); Io (EvStdout (Error e ++ crlf))])).
Proof.
  intros Hb Hnot Htc rl1 s.
  rewrite (dispatch_to_Enter b0 r w Hb Hnot Htc).
  unfold after_return. fold rl1. fold s.
  destruct (HistoryAutoWrite rl1) eqn:Ha; cbn [fst snd app].
  - eexists _, _. split; [reflexivity|]. split; [discriminate|].
    intros _. split; [reflexivity|]. split.
    + intros ->. reflexivity.
    + intros e ->. reflexivity.
  - eexists _, _. split; [reflexivity|]. split; [auto | discriminate].
Qed.

(** ** Plain keys *)



(** ** Key press callbacks *)

Lemma keyPressEvent_found s w (cb : gostring -> list Z -> Z -> EventReturn) :
  evtKeyPress (inst w) !! s = Some cb ->
  let rl1 := run hp CClearHelpers (inst w) in
  let res := cb s (line rl1) (pos rl1) in
  (ForwardKey res = false ->
   exists w', keyPressEvent hp s w = (Val (Some Continue), w')
              /\ stdin w' = stdin w)
  /\ (ForwardKey res = true -> CloseReadline res = true ->
      exists w', keyPressEvent hp s w
                 = (Val (Some (Return (slicerunetostring (line (inst w'))) None)), w')
                 /\ stdin w' = stdin w).
Proof.
  intros Hevt rl1 res. subst res rl1. cbv zeta.
  split; [intros Hf | intros Hf Hc];
    unfold keyPressEvent; unfold bind at 1, get at 1; rewrite Hevt;
    cbv [bind call set get emit ret]; cbn [inst stdin log];
    rewrite Hf, ?Hc;
    match goal with
    | |- context [ClearHelpers ?res] =>
      destruct (ClearHelpers res); destruct (0 <? len (HintText res))
    end;
    cbn;
    match goal with
    | |- exists w', ?l = _ /\ _ => exists (snd l); split; reflexivity
    end.
Qed.

(** X19.  A key press callback comes before the keys of the [switch].
    When the callback bound to the piece read does not forward the key,
    the turn ends there and the loop reads on; when it forwards the key
    and asks to close, the line is returned with no error.  This holds
    whatever the piece is, Ctrl-C and the EOF key included. *)
Theorem key_press_callback_comes_before_the_keys
        w chunk dev r (cb : gostring -> list Z -> Z -> EventReturn) :
  skipStdinRead (inst w) = false -> multiline (inst w) = [] ->
  stdin w = Data chunk :: dev -> (length chunk <= bufSize)%nat ->
  read_runes chunk = Some r -> isMultiline r = false ->
  evtKeyPress (inst w) !! slicerunetostring r = Some cb ->
  ((forall s ln p, ForwardKey (cb s ln p) = false) ->
   exists w', loop_body hp cs w = (Val Continue, w') /\ stdin w' = dev)
  /\ ((forall s ln p, ForwardKey (cb s ln p) = true
                      /\ CloseReadline (cb s ln p) = true) ->
      exists w', loop_body hp cs w
                 = (Val (Return (slicerunetostring (line (inst w'))) None), w')
                 /\ stdin w' = dev).
Proof.
  intros Hskip Hml Hs Hlen Hr Hm Hevt.
  set (w0 := mkWorld (set_skipStdinRead false
                        (set_viUndoSkipAppend false (inst w)))
                     dev (log w ++ [Io (EvRead chunk None)])).
  assert (Hbody : loop_body hp cs w
            = bind (keyPressEvent hp (slicerunetostring r)) (fun ev =>
                match ev with
                | Some st => ret st
                | None => dispatch hp cs (hd 0 (read_buffer chunk)) r
                end) w0).
  { unfold loop_body.
    unfold bind at 1, set at 1. unfold bind at 1, get at 1.
    cbn [inst skipStdinRead set_viUndoSkipAppend]. rewrite Hskip.
    unfold bind at 1, os_Stdin_Read at 1. cbn [stdin inst log]. rewrite Hs.
    cbn [Read]. destruct (Nat.leb_spec (length chunk) bufSize); [|lia].
    cbn [fst snd]. unfold bind at 1, set at 1. cbn [inst stdin log].
    rewrite Hr. unfold bind at 1, get at 1.
    cbn [inst multiline set_skipStdinRead set_viUndoSkipAppend].
    rewrite Hml, Hm. cbn [orb].
    change (0 <? len (@nil Z)) with false. cbv iota. reflexivity. }
  rewrite Hbody. clear Hbody. unfold bind.
  destruct (keyPressEvent_found (slicerunetostring r) w0 cb Hevt) as [H1 H2].
  split.
  - intros Hf. destruct (H1 (Hf _ _ _)) as (w' & -> & Hd).
    exists w'. split; [reflexivity | exact Hd].
  - intros Hf. destruct (Hf (slicerunetostring r)
                             (line (run hp CClearHelpers (inst w0)))
                             (pos (run hp CClearHelpers (inst w0)))) as [Hf1 Hf2].
    destruct (H2 Hf1 Hf2) as (w' & -> & Hd).
    exists w'. split; [reflexivity | exact Hd].
Qed.

End WithHelpers.

(** ** The statements above on sample input *)

Lemma Enter_returns_line_whatever_history_does_witness :
  let w := Sample.world_with Cases.autowrite_instance [] in
  exists rl' evs,
    dispatch Cases.no_history_helpers Sample.ascii_consts 13 [13] w
    = (Val (Return (slicerunetostring (line rl')) None),
       mkWorld rl' (stdin w)
               (log w ++ Called CClearHelpers :: Io (EvStdout crlf) :: evs))
    /\ line rl' = [104; 105]
    /\ histPos rl' = 7
    /\ evs = [Called (CHistoryWrite [104; 105]);
              Io (EvStdout (Error (ErrNew "read-only file system") ++ crlf))].
Proof.
  intros w.
  assert (Hnot : ~ In 13 (keys_before_enter Sample.ascii_consts)).
  { cbn. intros [H|[H|[H|[H|[H|[H|[]]]]]]]; discriminate H. }
  destruct (Enter_returns_line_whatever_history_does
              Cases.no_history_helpers Sample.ascii_consts 13 [13] w
              (or_introl eq_refl) Hnot eq_refl)
    as (rl' & evs & Hd & _ & Hw).
  destruct (Hw eq_refl) as (Hrl & _ & He).
  exists rl', evs. split; [exact Hd|].
  split; [rewrite Hrl; reflexivity|]. split; [rewrite Hrl; reflexivity|].
  exact (He _ eq_refl).
Defined.


Lemma key_press_callback_comes_before_the_keys_witness :
  let w := Sample.world_with Cases.guarded_instance [Data [3]] in
  exists w',
    loop_body Sample.plain_helpers Sample.ascii_consts w = (Val Continue, w')
    /\ stdin w' = [].
Proof.
  intros w.
  assert (Hl : (length [3] <= bufSize)%nat) by (unfold bufSize; cbn; lia).
  assert (He : evtKeyPress (inst w) !! slicerunetostring [3] = Some Cases.swallow).
  { apply lookup_insert_eq. }
  destruct (key_press_callback_comes_before_the_keys
              Sample.plain_helpers Sample.ascii_consts w [3] [] [3]
              Cases.swallow eq_refl eq_refl eq_refl Hl eq_refl eq_refl He)
    as [H _].
  exact (H (fun _ _ _ => eq_refl)).
Defined.

End DispatchFacts.

(* ===================================================================== *)
(** * The keys that move the cursor                                     *)
(* ===================================================================== *)

Module CursorKeyFacts.
Import Go Os Readline ReadlineSpec LoopSpec GoFacts ReadlineFacts.

Section WithHelpers.
Context {Hidden GroupRef : Type} (hp : Helpers Hidden GroupRef) (cs : Consts).

Implicit Types (w : World Hidden) (rl : Instance Hidden) (r : list Z).

(** X20.  The keys that move the cursor along the line (Left, Right,
    Home, End) keep it within the line and leave the line and the mode
    as they are.  With no tab completion shown and the cursor between 0
    and the length of the line, [escapeSeq] returns with the cursor in
    this range still, nothing read and nothing inserted, and the turn
    marked as one that adds no undo step. *)
Theorem cursor_keys_stay_within_line w r :
  moves_leave_instance hp ->
  modeTabCompletion (inst w) = false ->
  In (slicerunetostring r) (cursor_seqs cs) ->
  ~ In (slicerunetostring r) (earlier_seqs cs) ->
  0 <= pos (inst w) <= len (line (inst w)) ->
  len (line (inst w)) <= maxInt ->
  exists w',
    escapeSeq hp cs r w = (Val tt, w')
    /\ line (inst w') = line (inst w)
    /\ 0 <= pos (inst w') <= len (line (inst w'))
    /\ modeViMode (inst w') = modeViMode (inst w)
    /\ viUndoSkipAppend (inst w') = true
    /\ stdin w' = stdin w
    /\ inserted (log w') = inserted (log w).
Proof.
  intros Hmv Htc Hin Hnot Hpos Hmax.
  unfold earlier_seqs in Hnot. cbn [In] in Hnot.
  unfold cursor_seqs in Hin. cbn [In] in Hin.
  unfold escapeSeq.
  set (s := slicerunetostring r) in *.
  destruct (gostring_eqb s (encoderune (charEscape cs))) eqn:E0;
    [apply gostring_eqb_spec in E0; symmetry in E0; tauto|].
  destruct (gostring_eqb s (seqDelete cs)) eqn:E1;
    [apply gostring_eqb_spec in E1; symmetry in E1; tauto|].
  destruct (gostring_eqb s (seqUp cs)) eqn:E2;
    [apply gostring_eqb_spec in E2; symmetry in E2; tauto|].
  destruct (gostring_eqb s (seqDown cs)) eqn:E3;
    [apply gostring_eqb_spec in E3; symmetry in E3; tauto|].
  assert (Hb : forall n rl, run hp (CMoveCursorBackwards n) rl = rl)
    by (intros; apply Hmv).
  assert (Hf : forall n rl, run hp (CMoveCursorForwards n) rl = rl)
    by (intros; apply Hmv).
  unfold maxInt in Hmax.
  destruct (gostring_eqb s (seqBackwards cs)) eqn:E4.
  { cbv [bind get set call ret]. cbn [inst stdin log]. rewrite Htc.
    destruct (Z.ltb_spec 0 (pos (inst w))).
    - rewrite Hb. eexists. split; [reflexivity|]. cbn.
      rewrite KeysFacts.int_small by (unfold maxInt; lia).
      rewrite !inserted_app. cbn. rewrite app_nil_r.
      repeat split; auto; lia.
    - eexists. split; [reflexivity|]. cbn. repeat split; auto; lia. }
  destruct (gostring_eqb s (seqForwards cs)) eqn:E5.
  { cbv [bind get set call ret]. cbn [inst stdin log]. rewrite Htc.
    destruct ((ViMode_eqb (modeViMode (inst w)) vimInsert
               && (pos (inst w) <? len (line (inst w))))
              || (negb (ViMode_eqb (modeViMode (inst w)) vimInsert)
                  && (pos (inst w) <? len (line (inst w)) - 1))) eqn:Ec.
    - rewrite Hf. eexists. split; [reflexivity|]. cbn.
      rewrite KeysFacts.int_small by (unfold maxInt; lia).
      rewrite !inserted_app. cbn. rewrite app_nil_r.
      apply orb_true_iff in Ec.
      assert (Hlt : pos (inst w) < len (line (inst w))).
      { destruct Ec as [Ec | Ec]; apply andb_true_iff in Ec;
          destruct Ec as [_ Ec]; apply Z.ltb_lt in Ec; lia. }
      repeat split; auto; lia.
    - eexists. split; [reflexivity|]. cbn. repeat split; auto; lia. }
  destruct (gostring_eqb s (seqHome cs) || gostring_eqb s (seqHomeSc cs)) eqn:E6.
  { cbv [bind get set call ret]. cbn [inst stdin log]. rewrite Htc.
    rewrite Hb. eexists. split; [reflexivity|]. cbn.
    rewrite !inserted_app. cbn. rewrite app_nil_r.
    repeat split; auto; unfold len; lia. }
  destruct (gostring_eqb s (seqEnd cs) || gostring_eqb s (seqEndSc cs)) eqn:E7.
  { cbv [bind get set call ret]. cbn [inst stdin log]. rewrite Htc.
    rewrite Hf. eexists. split; [reflexivity|]. cbn.
    rewrite !inserted_app. cbn. rewrite app_nil_r.
    repeat split; auto; unfold len; lia. }
  exfalso.
  apply orb_false_iff in E6, E7. destruct E6 as [E6 E6'], E7 as [E7 E7'].
  rewrite gostring_eqb_false in E4, E5, E6, E6', E7, E7'.
  destruct Hin as [H|[H|[H|[H|[H|[H|[]]]]]]]; symmetry in H; contradiction.
Qed.

End WithHelpers.

(** ** The statement above on a sample state *)

Lemma cursor_keys_stay_within_line_witness :
  let w := Sample.world_with (Sample.instance_with vimKeys [104; 105] 0) [] in
  exists w',
    escapeSeq Sample.plain_helpers Sample.ascii_consts [27; 91; 68] w
    = (Val tt, w')
    /\ line (inst w') = [104; 105]
    /\ 0 <= pos (inst w') <= 2.
Proof.
  intros w.
  assert (Hmv : moves_leave_instance Sample.plain_helpers).
  { intros n rl. split; reflexivity. }
  assert (Hin : In (slicerunetostring [27; 91; 68])
                   (cursor_seqs Sample.ascii_consts)).
  { left. reflexivity. }
  assert (Hnot : ~ In (slicerunetostring [27; 91; 68])
                      (earlier_seqs Sample.ascii_consts)).
  { cbn. intros [H|[H|[H|[H|[]]]]]; discriminate H. }
  assert (Hpos : 0 <= pos (inst w) <= len (line (inst w))).
  { unfold len. cbn. lia. }
  assert (Hmax : len (line (inst w)) <= maxInt).
  { unfold len, maxInt. cbn. lia. }
  destruct (cursor_keys_stay_within_line
              Sample.plain_helpers Sample.ascii_consts w [27; 91; 68]
              Hmv eq_refl Hin Hnot Hpos Hmax)
    as (w' & H1 & H2 & H3 & _).
  exists w'. split; [exact H1|]. split; [exact H2|].
  rewrite H2 in H3. exact H3.
Defined.

End CursorKeyFacts.

(* ===================================================================== *)
(** * Pastes and the errors of Readline                                 *)
(* ===================================================================== *)

Module PasteFacts.
Import Go Os Readline ReadlineSpec LoopSpec GoFacts ReadlineFacts DispatchFacts.

Section WithHelpers.
Context {Hidden GroupRef : Type} (hp : Helpers Hidden GroupRef) (cs : Consts).

Implicit Types (w : World Hidden) (rl : Instance Hidden) (r : list Z).


(** ** Readline as a whole *)

Lemma Readline_start_run w :
  Readline_start hp w
  = (let w0 := mkWorld (Readline_reset hp (inst w)) (stdin w)
                 (log w ++ [Called CComputePrompt; Called CResetHintText;
                            Called CResetTabCompletion]) in
     if 0 <? len (multisplit (inst w0)) then
       bind (replay_first_line hp false false) (fun st =>
         match st with
         | Return line_ err => ret (Some (line_, err))
         | Continue => ret None
         end) w0
     else
       (Val None,
        mkWorld (run_calls hp [CGetHintText; CRenderHelpers] (inst w0)) (stdin w)
                (log w0 ++ [Called CGetHintText; Called CRenderHelpers]))).
Proof.
  unfold Readline_start, Readline_reset.
  cbv [bind set get call ret run_calls fold_left]. cbn [inst stdin log].
  rewrite <- !app_assoc. cbn [app].
  match goal with |- context [0 <? len (multisplit ?x)] =>
    destruct (0 <? len (multisplit x)) end.
  - reflexivity.
  - cbn [inst stdin log]. rewrite <- !app_assoc. reflexivity.
Qed.

(** X22.  The errors [Readline] returns before any key.  When the
    terminal cannot be put in raw mode, the error of [MakeRaw] is
    returned with an empty line; nothing else is done and [Restore] is
    not called.  When the first read fails, at the end of input as on
    any error, its error is returned with an empty line, and the
    terminal is restored. *)
Theorem Readline_returns_the_error_of_the_read w :
  (forall e, MakeRaw hp = Some e ->
     Readline hp cs w
     = (Val ([], Some e), mkWorld (inst w) (stdin w) (log w ++ [EvMakeRaw])))
  /\ (MakeRaw hp = None ->
      let rl0 := Readline_reset hp (inst w) in
      let rl1 := run_calls hp [CGetHintText; CRenderHelpers] rl0 in
      multisplit rl0 = [] -> skipStdinRead rl1 = false ->
      forall bs e dev, Read bufSize (stdin w) = ((bs, Some e), dev) ->
        Readline hp cs w
        = (Val ([], Some e),
           mkWorld (set_viUndoSkipAppend false rl1) dev
             (log w ++ [EvMakeRaw; Called CComputePrompt; Called CResetHintText;
                        Called CResetTabCompletion; Called CGetHintText;
                        Called CRenderHelpers; Io (EvRead bs (Some e));
                        EvRestore]))).
Proof.
  split.
  - intros e He. unfold Readline. unfold bind at 1, emit at 1. rewrite He.
    reflexivity.
  - intros Hraw rl0 rl1 Hms Hskip bs e dev Hread.
    unfold Readline. unfold bind at 1, emit at 1. rewrite Hraw.
    cbn [inst stdin log].
    unfold bind at 1. rewrite Readline_start_run. cbn [inst stdin log].
    fold rl0. rewrite Hms. change (0 <? len (@nil gostring)) with false.
    cbv iota. cbn [inst stdin log]. fold rl1.
    cbn [dev_size Nat.mul Nat.add Readline_loop].
    match goal with |- context [Readline_loop ?n] => generalize n end.
    intros n. cbn [Readline_loop].
    unfold bind at 1. unfold loop_body.
    unfold bind at 1, set at 1. unfold bind at 1, get at 1.
    cbn [inst skipStdinRead set_viUndoSkipAppend]. rewrite Hskip.
    unfold bind at 1, os_Stdin_Read at 1. cbn [stdin inst log].
    rewrite Hread. cbn [fst snd].
    cbv [ret emit]. cbn [inst stdin log snd]. rewrite <- !app_assoc.
    reflexivity.
Qed.

Lemma after_return_no_read rl :
  forallb (fun e => negb (is_read_ev e)) (snd (after_return hp rl)) = true.
Proof.
  unfold after_return.
  destruct (HistoryAutoWrite (run hp CClearHelpers rl)); [|reflexivity].
  cbn [snd app]. destruct (snd (History_Write hp _ _)); reflexivity.
Qed.

Lemma after_return_no_insert rl : inserted (snd (after_return hp rl)) = [].
Proof.
  unfold after_return.
  destruct (HistoryAutoWrite (run hp CClearHelpers rl)); [|reflexivity].
  cbn [snd app]. destruct (snd (History_Write hp _ _)); reflexivity.
Qed.

(** X23.  With lines of an accepted paste left, [Readline] returns the
    next one without reading the device: the first of these lines is
    inserted, the line is accepted as on Enter, and the terminal is
    restored. *)
Theorem Readline_replays_a_pasted_line w m0 rest :
  MakeRaw hp = None ->
  let rl0 := Readline_reset hp (inst w) in
  multisplit rl0 = m0 :: rest -> modeViMode rl0 = vimInsert ->
  exists w' post,
    Readline hp cs w = (Val (slicerunetostring (line (inst w')), None), w')
    /\ stdin w' = stdin w
    /\ log w' = log w ++ [EvMakeRaw; Called CComputePrompt; Called CResetHintText;
                          Called CResetTabCompletion;
                          Called (CInsert (stringtoslicerune m0))]
                      ++ post ++ [EvRestore]
    /\ forallb (fun e => negb (is_read_ev e)) post = true
    /\ inserted (log w') = inserted (log w) ++ [stringtoslicerune m0].
Proof.
  intros Hraw rl0 Hms Hmode.
  unfold Readline. unfold bind at 1, emit at 1. rewrite Hraw.
  cbn [inst stdin log].
  unfold bind at 1. rewrite Readline_start_run. cbn [inst stdin log].
  fold rl0. rewrite Hms.
  replace (0 <? len (m0 :: rest)) with true
    by (symmetry; apply Z.ltb_lt; unfold len; cbn [length]; lia).
  cbv iota.
  set (w0 := mkWorld rl0 (stdin w)
               ((log w ++ [EvMakeRaw])
                ++ [Called CComputePrompt; Called CResetHintText;
                    Called CResetTabCompletion])).
  unfold bind at 1. unfold replay_first_line.
  unfold bind at 1, get at 1. cbn [inst w0]. rewrite Hms.
  unfold bind at 1, ret at 1. unfold bind at 1.
  rewrite (editorInput_insert hp w0 (stringtoslicerune m0) Hmode).
  set (w1 := finish hp (do_calls hp [CInsert (stringtoslicerune m0)] w0)).
  assert (Hw1 : stdin w1 = stdin w
                /\ exists mid, log w1 = log w0 ++ Called (CInsert (stringtoslicerune m0)) :: mid
                               /\ (mid = [] \/ mid = [Called CSyntaxCompletion])).
  { unfold w1, finish.
    destruct (Z.of_nat (length (multisplit (inst (do_calls hp [CInsert (stringtoslicerune m0)] w0)))) =? 0).
    - split; [reflexivity|]. exists [Called CSyntaxCompletion].
      split; [|now right]. cbn. now rewrite <- !app_assoc.
    - split; [reflexivity|]. exists []. split; [|now left]. reflexivity. }
  destruct Hw1 as (Hd1 & mid & Hl1 & Hmid).
  unfold bind at 1. rewrite carridgeReturn_cases.
  pose proof (after_return_no_read (inst w1)) as Hnr.
  pose proof (after_return_no_insert (inst w1)) as Hni.
  destruct (after_return hp (inst w1)) as [rl2 evs]. cbn [fst snd] in *.
  unfold bind at 1, ret at 1. unfold bind at 1. unfold shift_multisplit.
  cbv [bind get set ret emit]. cbn [inst stdin log].
  assert (Hlog : forall tl,
            (log w1 ++ evs) ++ tl
            = log w ++ [EvMakeRaw; Called CComputePrompt; Called CResetHintText;
                        Called CResetTabCompletion;
                        Called (CInsert (stringtoslicerune m0))]
                    ++ (mid ++ evs) ++ tl).
  { intros tl. rewrite Hl1. unfold w0. cbn [log].
    rewrite <- !app_assoc. reflexivity. }
  assert (Hins : inserted ((log w1 ++ evs) ++ [EvRestore])
                 = inserted (log w) ++ [stringtoslicerune m0]).
  { rewrite Hlog, !inserted_app, Hni.
    destruct Hmid as [-> | ->]; cbn; now rewrite ?app_nil_r. }
  destruct (1 <? len (multisplit rl2)); cbn [inst stdin log snd];
    match goal with
    | |- exists w' post, ?l = _ /\ _ => exists (snd l), (mid ++ evs)
    end;
    cbn [inst stdin log snd];
    (split; [reflexivity|]);
    (split; [exact Hd1|]);
    (split; [apply Hlog|]);
    (split; [rewrite forallb_app, Hnr;
             destruct Hmid as [-> | ->]; reflexivity | exact Hins]).
Qed.

End WithHelpers.

(** ** The statements above on sample input *)


Lemma Readline_returns_the_error_of_the_read_witness :
  let w := Sample.world_with (Sample.instance_with vimKeys [104; 105] 2) [] in
  fst (Readline Sample.plain_helpers Sample.ascii_consts w) = Val ([], Some EOF).
Proof.
  intros w.
  destruct (Readline_returns_the_error_of_the_read
              Sample.plain_helpers Sample.ascii_consts w) as [_ H].
  now rewrite (H eq_refl eq_refl eq_refl [] EOF [] eq_refl).
Defined.

Lemma Readline_replays_a_pasted_line_witness :
  let w := Sample.world_with Cases.lines_left_instance [Data [120]] in
  exists w' : World unit,
    Readline Sample.plain_helpers Sample.ascii_consts w
    = (Val (slicerunetostring (line (inst w')), None), w')
    /\ stdin w' = [Data [120]]
    /\ inserted (log w') = [[98]].
Proof.
  intros w.
  destruct (Readline_replays_a_pasted_line
              Sample.plain_helpers Sample.ascii_consts w [98] [[99]]
              eq_refl eq_refl eq_refl)
    as (w' & post & H1 & H2 & _ & _ & H5).
  exists w'. split; [exact H1|]. split; [exact H2 | exact H5].
Defined.

End PasteFacts.

(* ===================================================================== *)
(** * Properties of the emacs commands                                  *)
(* ===================================================================== *)

Module EmacsFacts.
Import Go Emacs EmacsSpec.

Lemma index_middle (a : list Z) x tl :
  index (a ++ x :: tl) (Z.of_nat (length a)) = Some x.
Proof.
  unfold index. rewrite length_app. cbn [length].
  destruct (Z.ltb_spec (Z.of_nat (length a)) 0); [lia|].
  destruct (Z.leb_spec (Z.of_nat (length a + S (length tl))) (Z.of_nat (length a)));
    [lia|].
  cbn [orb]. rewrite Nat2Z.id, nth_error_app2 by lia.
  now rewrite Nat.sub_diag.
Qed.

Lemma store_middle (a : list Z) x tl v :
  store (a ++ x :: tl) (Z.of_nat (length a)) v = Some (a ++ v :: tl).
Proof.
  unfold store. rewrite length_app. cbn [length].
  destruct (Z.ltb_spec (Z.of_nat (length a)) 0); [lia|].
  destruct (Z.leb_spec (Z.of_nat (length a + S (length tl))) (Z.of_nat (length a)));
    [lia|].
  cbn [orb]. rewrite Nat2Z.id. f_equal.
  rewrite insert_app_r_alt by lia. now rewrite Nat.sub_diag.
Qed.

Lemma split_at (l : list Z) (i : nat) :
  (S i < length l)%nat ->
  exists a x y tl, l = a ++ x :: y :: tl /\ length a = i.
Proof.
  intros H. exists (firstn i l).
  destruct (skipn i l) as [|x [|y tl]] eqn:E.
  - apply (f_equal (@length Z)) in E. rewrite length_skipn in E. cbn in E. lia.
  - apply (f_equal (@length Z)) in E. rewrite length_skipn in E. cbn in E. lia.
  - exists x, y, tl. split.
    + now rewrite <- E, firstn_skipn.
    + rewrite length_firstn. lia.
Qed.

Lemma swap_at_middle (a : list Z) x y tl :
  swap_at (length a) (a ++ x :: y :: tl) = a ++ y :: x :: tl.
Proof.
  unfold swap_at. rewrite skipn_app, Nat.sub_diag, skipn_all.
  cbn [app skipn]. rewrite firstn_app, Nat.sub_diag, firstn_all.
  cbn [firstn]. now rewrite app_nil_r.
Qed.

Section WithShell.
Context {Others : Type} (hp : Helpers Others).

Lemma exchange_middle (i j : Shell Others -> Z) rl a x y tl :
  line rl = a ++ x :: y :: tl ->
  (forall l, i (set_line l rl) = Z.of_nat (S (length a))) ->
  (forall l, j (set_line l rl) = Z.of_nat (length a)) ->
  exchange i j rl = Ok (set_line (a ++ y :: x :: tl) rl).
Proof.
  intros Hl Hi Hj. destruct rl as [l0 o]. unfold set_line in *. cbn [line others] in *.
  subst l0. unfold exchange. cbn [line others].
  rewrite Hi, !Hj.
  replace (a ++ x :: y :: tl) with ((a ++ [x]) ++ y :: tl) at 1
    by (now rewrite <- app_assoc).
  replace (Z.of_nat (S (length a))) with (Z.of_nat (length (a ++ [x])))
    by (rewrite length_app; cbn [length]; lia).
  rewrite index_middle, index_middle, store_middle.
  unfold set_line. cbn [line others]. rewrite Hi.
  replace (a ++ y :: y :: tl) with ((a ++ [y]) ++ y :: tl)
    by (now rewrite <- app_assoc).
  replace (Z.of_nat (S (length a))) with (Z.of_nat (length (a ++ [y])))
    by (rewrite length_app; cbn [length]; lia).
  rewrite store_middle. now rewrite <- app_assoc.
Qed.

(** [transposeChars] on a line cut at the two runes it exchanges. *)
Lemma transposeChars_middle (rl : Shell Others) a x y tl :
  line_methods hp -> cursor_apart hp ->
  line rl = a ++ x :: y :: tl ->
  Z.of_nat (length (line rl)) <= maxInt ->
  let p := cursor_Pos hp rl in
  2 <= p ->
  (p = Z.of_nat (length (line rl)) /\ Z.of_nat (length a) = p - 2)
  \/ (p <> Z.of_nat (length (line rl)) /\ Z.of_nat (length a) = p - 1) ->
  transposeChars hp rl = Ok (set_line (a ++ y :: x :: tl) rl).
Proof.
  intros (Hlen & _ & _) Hcur Hl Hmax p Hp Hcase.
  unfold transposeChars. rewrite Hlen. fold p.
  assert (Hn : 2 <= Z.of_nat (length (line rl))).
  { rewrite Hl, length_app. cbn [length]. lia. }
  destruct (Z.ltb_spec p 2); [lia|].
  destruct (Z.ltb_spec (Z.of_nat (length (line rl))) 2); [lia|]. cbn [orb].
  unfold maxInt in Hmax.
  assert (Hpa : Z.of_nat (length a) + 2 <= Z.of_nat (length (line rl))).
  { rewrite Hl, length_app. cbn [length]. lia. }
  destruct Hcase as [[Hpn Ha] | [Hpn Ha]].
  - destruct (Z.eqb_spec p (Z.of_nat (length (line rl)))); [|contradiction].
    apply exchange_middle; [exact Hl | |]; intros l; rewrite Hcur; fold p;
      rewrite KeysFacts.int_small by (unfold maxInt; lia); lia.
  - destruct (Z.eqb_spec p (Z.of_nat (length (line rl)))); [contradiction|].
    apply exchange_middle; [exact Hl | |]; intros l; rewrite Hcur; fold p;
      rewrite ?KeysFacts.int_small by (unfold maxInt; lia); lia.
Qed.

(** X25.  [transposeChars] with the cursor within the line does not
    panic.  With the cursor before the second rune it only calls
    [SkipSave].  Otherwise it exchanges the two runes before the cursor
    when the cursor is at the end of the line, and elsewhere the rune
    before the cursor with the one under it; the line keeps its length
    and its runes, the cursor does not move, and a second call undoes
    the first. *)
Theorem transposeChars_exchanges_two_runes (rl : Shell Others) :
  line_methods hp -> cursor_apart hp ->
  0 <= cursor_Pos hp rl <= Z.of_nat (length (line rl)) ->
  Z.of_nat (length (line rl)) <= maxInt ->
  exists rl',
    transposeChars hp rl = Ok rl'
    /\ (cursor_Pos hp rl < 2 -> rl' = histories_SkipSave hp rl)
    /\ (2 <= cursor_Pos hp rl ->
        let p := cursor_Pos hp rl in
        let i := if p =? Z.of_nat (length (line rl)) then p - 2 else p - 1 in
        rl' = set_line (swap_at (Z.to_nat i) (line rl)) rl
        /\ length (line rl') = length (line rl)
        /\ Permutation (line rl') (line rl)
        /\ cursor_Pos hp rl' = cursor_Pos hp rl
        /\ transposeChars hp rl' = Ok rl).
Proof.
  intros Hm Hcur Hpos Hmax.
  destruct (Z.lt_ge_cases (cursor_Pos hp rl) 2) as [Hlt | Hge].
  - exists (histories_SkipSave hp rl). unfold transposeChars.
    destruct (Z.ltb_spec (cursor_Pos hp rl) 2); [|lia]. cbn [orb].
    split; [reflexivity|]. split; [reflexivity | lia].
  - set (p := cursor_Pos hp rl) in *.
    set (i := if p =? Z.of_nat (length (line rl)) then p - 2 else p - 1).
    assert (Hi : 0 <= i /\ (S (Z.to_nat i) < length (line rl))%nat
                 /\ ((p = Z.of_nat (length (line rl)) /\ i = p - 2)
                     \/ (p <> Z.of_nat (length (line rl)) /\ i = p - 1))).
    { unfold i. destruct (Z.eqb_spec p (Z.of_nat (length (line rl)))); lia. }
    destruct Hi as (Hi0 & Hi1 & Hcase).
    destruct (split_at (line rl) (Z.to_nat i) Hi1) as (a & x & y & tl & Hl & Ha).
    assert (Hcase' :
      (p = Z.of_nat (length (line rl)) /\ Z.of_nat (length a) = p - 2)
      \/ (p <> Z.of_nat (length (line rl)) /\ Z.of_nat (length a) = p - 1)).
    { destruct Hcase as [[? ?] | [? ?]]; [left | right]; split; auto; lia. }
    exists (set_line (a ++ y :: x :: tl) rl).
    split; [now apply transposeChars_middle|].
    split; [intros; lia|]. intros _. cbv zeta. fold p. fold i.
    assert (Hlen' : length (a ++ y :: x :: tl) = length (line rl)).
    { rewrite Hl, !length_app. reflexivity. }
    split; [|split; [|split; [|split]]].
    + rewrite Hl, <- Ha. now rewrite swap_at_middle.
    + exact Hlen'.
    + cbn [line set_line]. rewrite Hl. apply Permutation_app_head, perm_swap.
    + apply Hcur.
    + replace rl with (set_line (a ++ x :: y :: tl)
                                (set_line (a ++ y :: x :: tl) rl)) at 2
        by (destruct rl; unfold set_line; cbn in *; now subst).
      apply transposeChars_middle; auto.
      * cbn [line set_line]. now rewrite Hlen'.
      * rewrite Hcur. fold p. lia.
      * rewrite Hcur. fold p. cbn [line set_line]. rewrite Hlen'. exact Hcase'.
Qed.

Lemma quoteLine_range_first_line (first tl : list Z) :
  ~ In 10 first ->
  quoteLine_range (first ++ 10 :: tl)
  = map (fun c => if c =? 39 then 34 else c) first ++ 10 :: tl
  /\ quoteLine_range first = map (fun c => if c =? 39 then 34 else c) first.
Proof.
  induction first as [|c first IH]; intros Hno.
  - cbn. auto.
  - cbn [In] in Hno. cbn [app quoteLine_range map].
    destruct (Z.eqb_spec c 10); [tauto|].
    destruct IH as [IH1 IH2]; [tauto|]. now rewrite IH1, IH2.
Qed.

(** X26.  [quoteLine] leaves an empty line alone.  A line that is not
    empty gets two runes more; the loop that turns single quotes into
    double quotes runs over the quote just put in front as well, so the
    line then begins with a double quote and ends with a single quote.
    Up to the first line feed every single quote becomes a double quote;
    from the line feed on the runes are kept. *)
Theorem quoteLine_quotes_do_not_match (rl : Shell Others) :
  line_methods hp ->
  (line rl = [] -> quoteLine hp rl = rl)
  /\ (line rl <> [] ->
      line (quoteLine hp rl) = 34 :: quoteLine_range (line rl) ++ [39]
      /\ others (quoteLine hp rl) = others rl
      /\ length (line (quoteLine hp rl)) = S (S (length (line rl))))
  /\ (forall first tl, ~ In 10 first ->
      quoteLine_range (first ++ 10 :: tl)
      = map (fun c => if c =? 39 then 34 else c) first ++ 10 :: tl
      /\ quoteLine_range first = map (fun c => if c =? 39 then 34 else c) first).
Proof.
  intros (Hlen & Hfront & Hback).
  split; [|split].
  - intros Hl. unfold quoteLine. now rewrite Hlen, Hl.
  - intros Hne. unfold quoteLine. rewrite Hlen.
    destruct (Z.eqb_spec (Z.of_nat (length (line rl))) 0) as [E|E].
    { destruct (line rl); [congruence | cbn in E; lia]. }
    cbn [line set_line]. rewrite Hfront, Hlen, Hback.
    cbn [quoteLine_range Z.eqb Pos.eqb app].
    assert (Hq : forall l, length (quoteLine_range l) = length l).
    { induction l as [|c l IH]; [reflexivity|]. cbn [quoteLine_range].
      destruct (c =? 10); [reflexivity|]. cbn [length]. now rewrite IH. }
    repeat split. cbn [length]. rewrite length_app, Hq. cbn [length]. lia.
  - apply quoteLine_range_first_line.
Qed.

End WithShell.

(** ** The statements above on a sample shell *)

Lemma shell_helpers_methods : line_methods Cases.shell_helpers.
Proof.
  unfold line_methods. cbn. repeat split.
  intros l c. rewrite Nat2Z.id, firstn_all, skipn_all. reflexivity.
Qed.

Lemma transposeChars_exchanges_two_runes_witness :
  let rl := mkShell [97; 98; 99] 3 in
  transposeChars Cases.shell_helpers rl = Ok (mkShell [97; 99; 98] 3)
  /\ transposeChars Cases.shell_helpers (mkShell [97; 99; 98] 3) = Ok rl.
Proof.
  intros rl.
  assert (Hc : cursor_apart Cases.shell_helpers) by (intros l s; reflexivity).
  assert (Hp : 0 <= cursor_Pos Cases.shell_helpers rl
               <= Z.of_nat (length (line rl))) by (cbn; lia).
  assert (Hm : Z.of_nat (length (line rl)) <= maxInt)
    by (unfold maxInt; cbn; lia).
  destruct (transposeChars_exchanges_two_runes
              Cases.shell_helpers rl shell_helpers_methods Hc Hp Hm)
    as (rl' & H1 & _ & H3).
  assert (H2 : 2 <= cursor_Pos Cases.shell_helpers rl) by (cbn; lia).
  destruct (H3 H2) as (E & _ & _ & _ & Hback).
  rewrite E in H1, Hback. split; [exact H1 | exact Hback].
Defined.

Lemma quoteLine_quotes_do_not_match_witness :
  line (quoteLine Cases.shell_helpers (mkShell [105; 116; 39; 115] 0))
  = [34; 105; 116; 34; 115; 39].
Proof.
  destruct (quoteLine_quotes_do_not_match
              Cases.shell_helpers (mkShell [105; 116; 39; 115] 0)
              shell_helpers_methods) as (_ & H & _).
  assert (Hne : line (mkShell [105; 116; 39; 115] 0) <> []) by discriminate.
  destruct (H Hne) as (H1 & _). exact H1.
Defined.

End EmacsFacts.

(* ===================================================================== *)
(** * More on the interrupt handlers                                    *)
(* ===================================================================== *)

Module HandlerFacts.
Import Go Os Interrupt.

(** X24.  After [loadInterruptHandlers] two keys are interrupts and no
    other: [isInterrupt] finds [errorEOF] under the EOF character,
    [errorCtrlC] under Ctrl-C, and nothing under any other string.
    Loading the handlers again changes nothing, and loading them leaves
    the line, the mode and the keys of the instance as they are. *)
Theorem isInterrupt_knows_two_keys
        {Hidden Completer : Type} (ch : Chars)
        (rl : Instance Hidden Completer) (ks : gostring) (h : Handler) :
  (isInterrupt (loadInterruptHandlers ch rl) ks = Some h
   <-> (ks = encoderune (charEOF ch) /\ h = H_errorEOF)
       \/ (ks = encoderune (charCtrlC ch)
           /\ ks <> encoderune (charEOF ch) /\ h = H_errorCtrlC))
  /\ (ks <> encoderune (charEOF ch) -> ks <> encoderune (charCtrlC ch) ->
      isInterrupt (loadInterruptHandlers ch rl) ks = None)
  /\ loadInterruptHandlers ch (loadInterruptHandlers ch rl)
     = loadInterruptHandlers ch rl
  /\ line (loadInterruptHandlers ch rl) = line rl
  /\ modeViMode (loadInterruptHandlers ch rl) = modeViMode rl
  /\ keys (loadInterruptHandlers ch rl) = keys rl.
Proof.
  unfold isInterrupt, loadInterruptHandlers. cbn.
  split; [|split; [|repeat split]].
  - rewrite lookup_insert_Some, lookup_insert_Some, lookup_empty.
    split.
    + intros [[<- <-] | [Hne [[<- <-] | [_ H]]]]; [left | right | discriminate];
        auto.
    + intros [[-> ->] | (-> & Hne & ->)]; [left | right]; auto.
  - intros H1 H2. rewrite !lookup_insert_ne by congruence. apply lookup_empty.
Qed.

End HandlerFacts.
